(** * Olympe: the pomp loop thread and its chainable futures

    A shallow embedding of [olympe/_private/pomp_loop_thread.py]:
    the [Future] class (a subclass of [concurrent.futures.Future]) and
    the [PompLoopThread] class, with the properties of the event-loop
    coordinator stated and proved over the embedding.

    Conventions of the embedding.
    - Python objects that are shared and mutated (futures, the loop) live
      in one explicit store, the record [World]; a method is a state
      transformer in the monad [M].
    - An exception is a result of its own ([Raise]); [try]/[except]
      become the combinators [try_except] and [attempt].
    - The native library behind [olympe_deps] (libpomp) is a parameter,
      the class [Libpomp]; every call to it is recorded in the trace.
    - The thread that executes a method is an argument ([cur]); what the
      other threads do while a method is blocked in a wait is an argument
      too ([others]).
    - [concurrent.futures.Future] is the one of CPython 3.8 and later,
      where [set_result] and [set_exception] raise [InvalidStateError] on
      a future that is already done, so that terminal states are final. *)

From Stdlib Require Import ZArith.
From stdpp Require Import gmap strings list fin_maps.

Local Open Scope string_scope.
Local Open Scope Z_scope.
Local Open Scope list_scope.

(** ** Python values and exceptions *)

Inductive value : Type :=
  | VNone
  | VBool (b : bool)
  | VInt (z : Z)
  | VStr (s : string)
  | VObj (id : nat)          (* an opaque object: a callback, a native handle *)
  | VCFunc (py : value)      (* a ctypes function pointer wrapping [py] *)
  | VPtr (pointee : value)   (* ctypes.cast(ctypes.pointer(py_object(v)), c_void_p) *)
  | VFuture (ref : nat).     (* an instance of concurrent.futures.Future *)

Global Instance value_eq_dec : EqDecision value.
Proof. solve_decision. Defined.

Inductive exn : Type :=
  | RuntimeError (msg : string)
  | RecursionError
  | ValueError
  | KeyError
  | TypeError
  | AttributeError (attr : string)
  | CancelledError
  | TimeoutError
  | InvalidStateError
  | UserError (tag : nat)          (* any other subclass of Exception *)
  | KeyboardInterrupt
  | SystemExit
  | UserBaseException (tag : nat). (* a BaseException that is no Exception *)

Global Instance exn_eq_dec : EqDecision exn.
Proof. solve_decision. Defined.

(** [isinstance(e, Exception)] *)
Definition is_Exception (e : exn) : bool :=
  match e with
  | KeyboardInterrupt | SystemExit | UserBaseException _ => false
  | _ => true
  end.

(** [isinstance(e, RuntimeError)]; RecursionError derives from it. *)
Definition is_RuntimeError (e : exn) : bool :=
  match e with
  | RuntimeError _ | RecursionError => true
  | _ => false
  end.

(** [isinstance(v, concurrent.futures.Future)] *)
Definition is_Future (v : value) : bool :=
  match v with VFuture _ => true | _ => false end.

(** Truth value of a Python object, as far as the loop tests one. *)
Definition truthy (v : value) : bool :=
  match v with
  | VNone => false
  | VBool b => b
  | VInt z => negb (Z.eqb z 0)
  | VStr s => negb (String.eqb s "")
  | _ => true
  end.

(** ** Callables

    A callable handed to [run_async], [run_later] or [then] is either a
    bound method of the loop or a function of the caller.  The latter is
    represented by what it returns or raises on its arguments. *)

Inductive pyret : Type :=
  | Returns (v : value)
  | Raises (e : exn).

Definition kwargs : Type := list (string * value).

Inductive callable : Type :=
  | Method_has_fd
  | Method_add_fd_to_loop
  | Method_remove_fd_from_loop
  | Fn (body : list value → kwargs → pyret).

Definition task : Type := nat * callable * list value * kwargs.

(** ** Futures *)

Inductive fstate : Type :=
  | PENDING
  | RUNNING
  | CANCELLED
  | CANCELLED_AND_NOTIFIED
  | FINISHED.

Global Instance fstate_eq_dec : EqDecision fstate.
Proof. solve_decision. Defined.

(** The closures this module installs with [add_done_callback].  Each of
    them closes over [self], the future it is installed on, which is also
    the argument it is called with. *)
Inductive done_callback : Type :=
  | CbUnregister                 (* Future._register: lambda _: self._loop._unregister_future(id(self), ignore_error=True) *)
  | CbSetFrom (next_ : nat)      (* Future.chain: lambda _: next_.set_from(self) *)
  | CbThen (fn : callable) (deferred : bool) (result : nat). (* Future.then: callback *)

Record FutureObj : Type := mkFuture {
  _state : fstate;
  _result : value;
  _exception : option exn;
  _done_callbacks : list done_callback;
}.

(** [concurrent.futures.Future.__init__] *)
Definition new_future : FutureObj :=
  {| _state := PENDING; _result := VNone; _exception := None;
     _done_callbacks := [] |}.

Definition state_done (s : fstate) : bool :=
  match s with
  | CANCELLED | CANCELLED_AND_NOTIFIED | FINISHED => true
  | _ => false
  end.

Definition state_cancelled (s : fstate) : bool :=
  match s with
  | CANCELLED | CANCELLED_AND_NOTIFIED => true
  | _ => false
  end.

(** ** Threads, native calls and the trace of effects *)

Inductive thread : Type :=
  | LoopThread
  | ForeignThread (ident : nat).

Definition is_loop_thread (t : thread) : bool :=
  match t with LoopThread => true | ForeignThread _ => false end.

Inductive native_call : Type :=
  | Pomp_loop_add (fd events : Z) (cb userdata : value)
  | Pomp_loop_remove (fd : Z)
  | Pomp_loop_has_fd (fd : Z)
  | Pomp_evt_signal (evt : nat)
  | Pomp_timer_destroy (timer : nat)
  | Pomp_loop_wait_and_process (timeout_ms : Z).

Inductive log_level : Type := INFO | ERROR | EXCEPTION.

Inductive event : Type :=
  | EvLog (lvl : log_level) (fmt : string) (args : list value) (* self.logging.<lvl>(fmt.format(args)) *)
  | EvFuturesLog (fut : nat)                   (* LOGGER.exception of concurrent.futures *)
  | EvCall (f : callable) (args : list value) (kwds : kwargs)
  | EvNative (c : native_call)
  | EvWait (fut : nat) (timeout : option Z)    (* Condition.wait(timeout) on a future *)
  | EvJoin.                                    (* Thread.join() on the loop *)

(** ** The native library

    [olympe_deps] binds libpomp; its functions are outside the module.
    They are taken as operations on an abstract native state. *)

Class Libpomp : Type := {
  native : Type;
  pomp_loop_add : Z → Z → native → Z * native;
  pomp_loop_remove : Z → native → Z * native;
  pomp_loop_has_fd : Z → native → Z;
  pomp_evt_signal : nat → native → native;
  pomp_timer_destroy : nat → native → Z * native;
  (* the dispatch of ready handlers may raise a RuntimeError (its text) *)
  pomp_loop_wait_and_process : Z → native → option string * native;
}.

(** [ctypes.c_int32(n)] and [od.uint32_t(n)]: no overflow check, the
    value wraps. *)
Definition c_int32 (n : Z) : Z := (n + 2 ^ 31) mod 2 ^ 32 - 2 ^ 31.
Definition uint32_t (n : Z) : Z := n mod 2 ^ 32.

(** ** The store and the monad of methods *)

Section Embedding.
Context {L : Libpomp}.

(** The attributes of the [PompLoopThread] instance, the futures created
    on it, the native state and the trace of observable effects. *)
Record World : Type := mkWorld {
  running : bool;
  pomptimeout_ms : Z;
  async_pomp_task : list task;
  deferred_pomp_task : list task;
  wakeup_evt : option nat;            (* od.pomp_evt_new(); None when NULL *)
  pomp_timers : gmap nat value;       (* id(pomp_timer) -> pomp_timer *)
  pomp_timer_callbacks : gmap nat value;
  fd_userdata : gmap Z value;
  c_fd_userdata : gmap Z value;
  pomp_fd_callbacks : gmap Z value;
  futures : list value;
  heap : gmap nat FutureObj;          (* the Future objects, by identity *)
  pomp : native;
  trace : list event;
}.

Inductive res (A : Type) : Type :=
  | Ok (a : A)
  | Raise (e : exn)
  | Blocked          (* waits for ever on another thread *)
  | OutOfFuel.       (* the iteration budget of a loop is used up *)
Global Arguments Ok {A} a.
Global Arguments Raise {A} e.
Global Arguments Blocked {A}.
Global Arguments OutOfFuel {A}.

Definition M (A : Type) : Type := World → res A * World.

Definition ret {A : Type} (a : A) : M A := λ w, (Ok a, w).

Definition bind {A B : Type} (m : M A) (k : A → M B) : M B :=
  λ w, match m w with
       | (Ok a, w') => k a w'
       | (Raise e, w') => (Raise e, w')
       | (Blocked, w') => (Blocked, w')
       | (OutOfFuel, w') => (OutOfFuel, w')
       end.

Declare Scope M_scope.
Delimit Scope M_scope with M.
Notation "x ← y ; z" := (bind y (λ x : _, z))
  (at level 20, y at level 100, z at level 200, only parsing) : M_scope.
Local Open Scope M_scope.

Definition raise {A : Type} (e : exn) : M A := λ w, (Raise e, w).

(** [try: m  except <catches> as e: handler e] *)
Definition try_except {A : Type} (m : M A) (catches : exn → bool)
    (handler : exn → M A) : M A :=
  λ w, match m w with
       | (Raise e, w') => if catches e then handler e w' else (Raise e, w')
       | r => r
       end.

(** The [try] part of a [try]/[except]/[else]: the caught exception or
    the value of the body. *)
Definition attempt {A : Type} (catches : exn → bool) (m : M A) : M (exn + A) :=
  try_except (a ← m; ret (inr a)) catches (λ e, ret (inl e)).

Definition any_exception (e : exn) : bool := true.
Definition only (e0 : exn) (e : exn) : bool := bool_decide (e = e0).

Fixpoint for_each {A : Type} (l : list A) (body : A → M unit) : M unit :=
  match l with
  | [] => ret tt
  | x :: l' => _ ← body x; for_each l' body
  end.

Definition gets {A : Type} (f : World → A) : M A := λ w, (Ok (f w), w).
Definition modify (f : World → World) : M unit := λ w, (Ok tt, f w).

(** *** Field updates *)

Definition set_running (b : bool) (w : World) : World :=
  mkWorld b (pomptimeout_ms w) (async_pomp_task w) (deferred_pomp_task w)
    (wakeup_evt w) (pomp_timers w) (pomp_timer_callbacks w) (fd_userdata w)
    (c_fd_userdata w) (pomp_fd_callbacks w) (futures w) (heap w) (pomp w)
    (trace w).

Definition set_async_pomp_task (q : list task) (w : World) : World :=
  mkWorld (running w) (pomptimeout_ms w) q (deferred_pomp_task w)
    (wakeup_evt w) (pomp_timers w) (pomp_timer_callbacks w) (fd_userdata w)
    (c_fd_userdata w) (pomp_fd_callbacks w) (futures w) (heap w) (pomp w)
    (trace w).

Definition set_deferred_pomp_task (q : list task) (w : World) : World :=
  mkWorld (running w) (pomptimeout_ms w) (async_pomp_task w) q
    (wakeup_evt w) (pomp_timers w) (pomp_timer_callbacks w) (fd_userdata w)
    (c_fd_userdata w) (pomp_fd_callbacks w) (futures w) (heap w) (pomp w)
    (trace w).

Definition set_pomp_timers (m : gmap nat value) (w : World) : World :=
  mkWorld (running w) (pomptimeout_ms w) (async_pomp_task w)
    (deferred_pomp_task w) (wakeup_evt w) m (pomp_timer_callbacks w)
    (fd_userdata w) (c_fd_userdata w) (pomp_fd_callbacks w) (futures w)
    (heap w) (pomp w) (trace w).

Definition set_pomp_timer_callbacks (m : gmap nat value) (w : World) : World :=
  mkWorld (running w) (pomptimeout_ms w) (async_pomp_task w)
    (deferred_pomp_task w) (wakeup_evt w) (pomp_timers w) m
    (fd_userdata w) (c_fd_userdata w) (pomp_fd_callbacks w) (futures w)
    (heap w) (pomp w) (trace w).

Definition set_fd_userdata (m : gmap Z value) (w : World) : World :=
  mkWorld (running w) (pomptimeout_ms w) (async_pomp_task w)
    (deferred_pomp_task w) (wakeup_evt w) (pomp_timers w)
    (pomp_timer_callbacks w) m (c_fd_userdata w) (pomp_fd_callbacks w)
    (futures w) (heap w) (pomp w) (trace w).

Definition set_c_fd_userdata (m : gmap Z value) (w : World) : World :=
  mkWorld (running w) (pomptimeout_ms w) (async_pomp_task w)
    (deferred_pomp_task w) (wakeup_evt w) (pomp_timers w)
    (pomp_timer_callbacks w) (fd_userdata w) m (pomp_fd_callbacks w)
    (futures w) (heap w) (pomp w) (trace w).

Definition set_pomp_fd_callbacks (m : gmap Z value) (w : World) : World :=
  mkWorld (running w) (pomptimeout_ms w) (async_pomp_task w)
    (deferred_pomp_task w) (wakeup_evt w) (pomp_timers w)
    (pomp_timer_callbacks w) (fd_userdata w) (c_fd_userdata w) m
    (futures w) (heap w) (pomp w) (trace w).

Definition set_futures (l : list value) (w : World) : World :=
  mkWorld (running w) (pomptimeout_ms w) (async_pomp_task w)
    (deferred_pomp_task w) (wakeup_evt w) (pomp_timers w)
    (pomp_timer_callbacks w) (fd_userdata w) (c_fd_userdata w)
    (pomp_fd_callbacks w) l (heap w) (pomp w) (trace w).

Definition set_heap (h : gmap nat FutureObj) (w : World) : World :=
  mkWorld (running w) (pomptimeout_ms w) (async_pomp_task w)
    (deferred_pomp_task w) (wakeup_evt w) (pomp_timers w)
    (pomp_timer_callbacks w) (fd_userdata w) (c_fd_userdata w)
    (pomp_fd_callbacks w) (futures w) h (pomp w) (trace w).

Definition set_pomp (n : native) (w : World) : World :=
  mkWorld (running w) (pomptimeout_ms w) (async_pomp_task w)
    (deferred_pomp_task w) (wakeup_evt w) (pomp_timers w)
    (pomp_timer_callbacks w) (fd_userdata w) (c_fd_userdata w)
    (pomp_fd_callbacks w) (futures w) (heap w) n (trace w).

Definition set_trace (t : list event) (w : World) : World :=
  mkWorld (running w) (pomptimeout_ms w) (async_pomp_task w)
    (deferred_pomp_task w) (wakeup_evt w) (pomp_timers w)
    (pomp_timer_callbacks w) (fd_userdata w) (c_fd_userdata w)
    (pomp_fd_callbacks w) (futures w) (heap w) (pomp w) t.

(** An effect is appended to the trace when it happens. *)
Definition emit (ev : event) : M unit :=
  modify (λ w, set_trace (trace w ++ [ev]) w).

Definition log (lvl : log_level) (fmt : string) (args : list value) : M unit :=
  emit (EvLog lvl fmt args).

(** A call into libpomp that returns a status and changes the native state. *)
Definition native_status (c : native_call) (f : native → Z * native) : M Z :=
  _ ← emit (EvNative c);
  st ← gets (λ w, f (pomp w));
  _ ← modify (set_pomp st.2);
  ret st.1.

(** *** Future objects in the store

    A reference that the store does not hold yet denotes a future as
    [__init__] leaves it. *)
Definition get_future (w : World) (r : nat) : FutureObj :=
  default new_future (heap w !! r).

Definition put_future (r : nat) (o : FutureObj) (w : World) : World :=
  set_heap (<[r := o]> (heap w)) w.

Definition fut_state (w : World) (r : nat) : fstate := _state (get_future w r).

Definition with_state (s : fstate) (o : FutureObj) : FutureObj :=
  mkFuture s (_result o) (_exception o) (_done_callbacks o).

(** [Future(loop)]: a new object, with an identity that no object of the
    store has. *)
Definition Future_new : M nat :=
  r ← gets (λ w, fresh (dom (heap w)));
  _ ← modify (put_future r new_future);
  ret r.

(** [id(self)] of a future. *)
Definition id_of (r : nat) : value := VInt (Z.of_nat r).

(** ** Methods that involve no done-callback *)

(** *** PompLoopThread: the registry of live futures *)

(** [a == b] on the values the loop compares (a bool is an int). *)
Definition py_eq (a b : value) : bool :=
  match a, b with
  | VBool x, VInt z | VInt z, VBool x => Z.eqb (if x then 1 else 0) z
  | _, _ => bool_decide (a = b)
  end.

(** [l.remove(x)]: the list without the first element equal to [x];
    [None] stands for the ValueError raised when there is none. *)
Fixpoint list_remove (x : value) (l : list value) : option (list value) :=
  match l with
  | [] => None
  | y :: l' => if py_eq y x then Some l' else cons y <$> list_remove x l'
  end.

Definition _register_future (f : value) : M unit :=
  modify (λ w, set_futures (futures w ++ [f]) w).

Definition _unregister_future (f : value) (ignore_error : bool) : M unit :=
  l ← gets futures;
  match list_remove f l with
  | Some l' => modify (set_futures l')
  | None => if ignore_error then ret tt else raise ValueError
  end.

(** *** PompLoopThread: wake-up, fds and timers *)

Definition _wake_up : M unit :=
  e ← gets wakeup_evt;
  match e with
  | Some evt =>
      _ ← emit (EvNative (Pomp_evt_signal evt));
      modify (λ w, set_pomp (pomp_evt_signal evt (pomp w)) w)
  | None => ret tt
  end.

Definition _wait_and_process : M unit :=
  t ← gets pomptimeout_ms;
  _ ← emit (EvNative (Pomp_loop_wait_and_process t));
  st ← gets (λ w, pomp_loop_wait_and_process t (pomp w));
  _ ← modify (set_pomp st.2);
  match st.1 with
  | Some msg => raise (RuntimeError msg)
  | None => ret tt
  end.

(** [str(e)] for the exceptions whose text the loop logs. *)
Definition exn_text (e : exn) : list value :=
  match e with
  | RuntimeError msg => [VStr msg]
  | _ => []
  end.

(** The [try] statement of [run] around [_wait_and_process]. *)
Definition wait_and_process_logged : M unit :=
  try_except _wait_and_process is_RuntimeError
    (λ e, log ERROR "Exception caught: {}" (exn_text e)).

Definition _has_fd (fd : Z) : M value :=
  _ ← emit (EvNative (Pomp_loop_has_fd fd));
  r ← gets (λ w, pomp_loop_has_fd fd (pomp w));
  ret (VBool (Z.eqb r 1)).

(** [d.pop(k, None)] on one of the fd dictionaries. *)
Definition dict_pop (field : World → gmap Z value)
    (update : gmap Z value → World → World) (k : Z) : M value :=
  m ← gets field;
  _ ← modify (update (delete k m));
  ret (default VNone (m !! k)).

(** [d[k] = v] *)
Definition dict_set (field : World → gmap Z value)
    (update : gmap Z value → World → World) (k : Z) (v : value) : M unit :=
  m ← gets field;
  modify (update (<[k := v]> m)).

(** [del d[k]] on one of the timer dictionaries. *)
Definition dict_del (field : World → gmap nat value)
    (update : gmap nat value → World → World) (k : nat) : M unit :=
  m ← gets field;
  match m !! k with
  | Some _ => modify (update (delete k m))
  | None => raise KeyError
  end.

Definition is_None (v : value) : bool :=
  match v with VNone => true | _ => false end.

Definition _add_fd_to_loop (fd : Z) (cb : value) (fd_events : Z)
    (userdata : value) : M value :=
  if is_None cb then
    _ ← log INFO "Cannot add fd '{}' to pomp loop without a valid callback function" [VInt fd];
    ret VNone
  else
    _ ← dict_set fd_userdata set_fd_userdata fd userdata;
    let userdata := VPtr userdata in
    _ ← dict_set c_fd_userdata set_c_fd_userdata fd userdata;
    _ ← dict_set pomp_fd_callbacks set_pomp_fd_callbacks fd (VCFunc cb);
    c ← gets (λ w, default VNone (pomp_fd_callbacks w !! fd));
    res ← native_status
            (Pomp_loop_add (c_int32 fd) (uint32_t fd_events) c userdata)
            (pomp_loop_add (c_int32 fd) (uint32_t fd_events));
    if negb (Z.eqb res 0) then
      raise (RuntimeError "Cannot add fd '{}' to pomp loop: {} ({})")
    else ret VNone.

Definition _remove_fd_from_loop (fd : Z) : M value :=
  _ ← dict_pop fd_userdata set_fd_userdata fd;
  _ ← dict_pop c_fd_userdata set_c_fd_userdata fd;
  cb ← dict_pop pomp_fd_callbacks set_pomp_fd_callbacks fd;
  if negb (is_None cb) then
    res ← native_status (Pomp_loop_remove fd) (pomp_loop_remove fd);
    if negb (Z.eqb res 0) then
      _ ← log ERROR "Cannot remove fd '{}' from pomp loop" [VInt fd];
      ret (VBool false)
    else ret (VBool true)
  else ret (VBool true).

(** [pomp_timer] is the native timer object, named by its identity. *)
Definition destroy_timer (pomp_timer : nat) : M value :=
  timers ← gets pomp_timers;
  if negb (bool_decide (is_Some (timers !! pomp_timer))) then
    ret (VBool false)
  else
    res ← native_status (Pomp_timer_destroy pomp_timer)
            (pomp_timer_destroy pomp_timer);
    if negb (Z.eqb res 0) then
      _ ← log ERROR "Error while destroying pomp loop timer: {}" [VInt res];
      ret (VBool false)
    else
      _ ← dict_del pomp_timers set_pomp_timers pomp_timer;
      _ ← dict_del pomp_timer_callbacks set_pomp_timer_callbacks pomp_timer;
      _ ← log INFO "Pomp loop timer has been destroyed" [];
      ret (VBool true).

(** *** Calling a callable: [f( *args, **kwds)] *)

(** The body of the callable on its arguments. *)
Definition apply_callable (f : callable) (args : list value) (kwds : kwargs)
    : M value :=
  match f with
  | Fn body =>
      match body args kwds with
      | Returns v => ret v
      | Raises e => raise e
      end
  | Method_has_fd =>
      match args, kwds with
      | [VInt fd], [] => _has_fd fd
      | _, _ => raise TypeError
      end
  | Method_add_fd_to_loop =>
      match args, kwds with
      | [VInt fd; cb; VInt fd_events], [] =>
          _add_fd_to_loop fd cb fd_events VNone
      | [VInt fd; cb; VInt fd_events], [("userdata", userdata)] =>
          _add_fd_to_loop fd cb fd_events userdata
      | _, _ => raise TypeError
      end
  | Method_remove_fd_from_loop =>
      match args, kwds with
      | [VInt fd], [] => _remove_fd_from_loop fd
      | _, _ => raise TypeError
      end
  end.

(** The call, recorded in the trace. *)
Definition call (f : callable) (args : list value) (kwds : kwargs) : M value :=
  _ ← emit (EvCall f args kwds);
  apply_callable f args kwds.

(** *** concurrent.futures.Future: queries and the running transition *)

Definition cancelled (self : nat) : M bool :=
  gets (λ w, state_cancelled (fut_state w self)).

Definition done (self : nat) : M bool :=
  gets (λ w, state_done (fut_state w self)).

Definition set_state (self : nat) (s : fstate) : M unit :=
  modify (λ w, put_future self (with_state s (get_future w self)) w).

Definition set_running_or_notify_cancel (self : nat) : M bool :=
  s ← gets (λ w, fut_state w self);
  match s with
  | CANCELLED => _ ← set_state self CANCELLED_AND_NOTIFIED; ret false
  | PENDING => _ ← set_state self RUNNING; ret true
  | _ => raise (RuntimeError "Future in unexpected state")
  end.

(** [__get_result] *)
Definition get_result (self : nat) : M value :=
  o ← gets (λ w, get_future w self);
  match _exception o with
  | Some e => raise e
  | None => ret (_result o)
  end.

(** ** Methods that run done-callbacks

    Resolving a future runs its done-callbacks, which resolve further
    futures.  The methods below are written over [invoke], the call of
    one done-callback; [invoke_callback] ties the knot. *)

Inductive queue : Type := Async | Deferred.

Definition queue_get (q : queue) (w : World) : list task :=
  match q with
  | Async => async_pomp_task w
  | Deferred => deferred_pomp_task w
  end.

Definition queue_set (q : queue) (l : list task) (w : World) : World :=
  match q with
  | Async => set_async_pomp_task l w
  | Deferred => set_deferred_pomp_task l w
  end.

Section Methods.
(** The thread that executes the method. *)
Variable cur : thread.
(** What the other threads do while this one is blocked. *)
Variable others : World → World.
(** [callback(self)] for a done-callback installed on [self]. *)
Variable invoke : done_callback → nat → M unit.

(** *** concurrent.futures.Future *)

(** [self._condition.wait(timeout)] *)
Definition wait (self : nat) (timeout : option Z) : M unit :=
  _ ← emit (EvWait self timeout);
  modify others.

Definition result (self : nat) (timeout : option Z) : M value :=
  s ← gets (λ w, fut_state w self);
  if state_cancelled s then raise CancelledError
  else if bool_decide (s = FINISHED) then get_result self
  else
    _ ← wait self timeout;
    s ← gets (λ w, fut_state w self);
    if state_cancelled s then raise CancelledError
    else if bool_decide (s = FINISHED) then get_result self
    else match timeout with
         | Some _ => raise TimeoutError
         | None => λ w, (Blocked, w)
         end.

Definition exception (self : nat) (timeout : option Z) : M (option exn) :=
  s ← gets (λ w, fut_state w self);
  if state_cancelled s then raise CancelledError
  else if bool_decide (s = FINISHED) then gets (λ w, _exception (get_future w self))
  else
    _ ← wait self timeout;
    s ← gets (λ w, fut_state w self);
    if state_cancelled s then raise CancelledError
    else if bool_decide (s = FINISHED) then gets (λ w, _exception (get_future w self))
    else match timeout with
         | Some _ => raise TimeoutError
         | None => λ w, (Blocked, w)
         end.

(** One round of [_invoke_callbacks] and the immediate call in
    [add_done_callback]: an Exception of the callback is logged. *)
Definition guarded_callback (self : nat) (cb : done_callback) : M unit :=
  try_except (invoke cb self) is_Exception (λ _, emit (EvFuturesLog self)).

Definition _invoke_callbacks (self : nat) : M unit :=
  cbs ← gets (λ w, _done_callbacks (get_future w self));
  for_each cbs (guarded_callback self).

Definition cancel (self : nat) : M bool :=
  s ← gets (λ w, fut_state w self);
  match s with
  | RUNNING | FINISHED => ret false
  | CANCELLED | CANCELLED_AND_NOTIFIED => ret true
  | PENDING =>
      _ ← set_state self CANCELLED;
      _ ← _invoke_callbacks self;
      ret true
  end.

Definition set_result (self : nat) (v : value) : M unit :=
  s ← gets (λ w, fut_state w self);
  if state_done s then raise InvalidStateError
  else
    _ ← modify (λ w, let o := get_future w self in
                     put_future self
                       (mkFuture FINISHED v (_exception o) (_done_callbacks o)) w);
    _invoke_callbacks self.

Definition set_exception (self : nat) (e : exn) : M unit :=
  s ← gets (λ w, fut_state w self);
  if state_done s then raise InvalidStateError
  else
    _ ← modify (λ w, let o := get_future w self in
                     put_future self
                       (mkFuture FINISHED (_result o) (Some e) (_done_callbacks o)) w);
    _invoke_callbacks self.

Definition add_done_callback (self : nat) (fn : done_callback) : M unit :=
  s ← gets (λ w, fut_state w self);
  if negb (state_done s) then
    modify (λ w, let o := get_future w self in
                 put_future self
                   (mkFuture (_state o) (_result o) (_exception o)
                      (_done_callbacks o ++ [fn])) w)
  else guarded_callback self fn.

(** *** olympe's Future *)

Definition _register (self : nat) : M unit :=
  _ ← _register_future (id_of self);
  add_done_callback self CbUnregister.

(** [set_from] from the call of [set_running_or_notify_cancel] on. *)
Definition set_from_commit (self source : nat) : M unit :=
  started ← set_running_or_notify_cancel self;
  if negb started then ret tt
  else
    exc ← exception source None;
    match exc with
    | Some e => set_exception self e
    | None => r ← result source None; set_result self r
    end.

Definition set_from (self source : nat) : M unit :=
  c ← cancelled source;
  if c then _ ← cancel self; ret tt
  else
    d ← done self;
    if d then ret tt
    else set_from_commit self source.

Definition chain (self next_ : nat) : M unit :=
  add_done_callback self (CbSetFrom next_).

(** [then] is a keyword here, hence the underscore. *)
Definition then_ (self : nat) (fn : callable) (deferred : bool) : M nat :=
  result_ ← Future_new;
  _ ← _register result_;
  _ ← add_done_callback self (CbThen fn deferred result_);
  ret result_.

(** [self.logging.exception(fmt)] where [self] is a Future: the class
    has no attribute [logging] (the loop has one), so the attribute
    lookup raises. *)
Definition Future_logging_exception (self : nat) (fmt : string) : M unit :=
  raise (AttributeError "logging").

(** *** PompLoopThread: submission *)

Definition run_later (func : callable) (args : list value) (kwds : kwargs)
    : M nat :=
  future ← Future_new;
  _ ← _register future;
  _ ← modify (λ w, set_deferred_pomp_task
                     (deferred_pomp_task w ++ [(future, func, args, kwds)]) w);
  ret future.

(** What [run_async] (inline) and [_run_task_list] do with the value
    that the callable returned. *)
Definition resolve_with (future : nat) (ret : value) : M unit :=
  match ret with
  | VFuture inner => chain inner future
  | _ => set_result future ret
  end.

Definition run_async (func : callable) (args : list value) (kwds : kwargs)
    : M nat :=
  future ← Future_new;
  _ ← _register future;
  _ ← (if negb (is_loop_thread cur) then
         _ ← modify (λ w, set_async_pomp_task
                            (async_pomp_task w ++ [(future, func, args, kwds)]) w);
         _wake_up
       else
         r ← attempt is_Exception (call func args kwds);
         match r with
         | inl e =>
             _ ← log EXCEPTION "Unhandled exception in async task function" [];
             set_exception future e
         | inr ret => resolve_with future ret
         end);
  ret future.

(** The closure [callback] of [then]. *)
Definition then_callback (self : nat) (fn : callable) (deferred : bool)
    (result_ : nat) : M unit :=
  try_except
    (if deferred then
       v ← result self None;
       temp ← run_later fn [v] [];
       chain temp result_
     else if negb (is_loop_thread cur) then
       v ← result self None;
       temp ← run_async fn [v] [];
       chain temp result_
     else
       v ← result self None;
       r ← call fn [v] [];
       set_result result_ r)
    any_exception
    (λ e, if is_Exception e then
            _ ← Future_logging_exception self "Unhandled exception while chaining futures";
            set_exception result_ e
          else _ ← cancel result_; ret tt).

Definition callback_body (cb : done_callback) (self : nat) : M unit :=
  match cb with
  | CbUnregister => _unregister_future (id_of self) true
  | CbSetFrom next_ => set_from next_ self
  | CbThen fn deferred result_ => then_callback self fn deferred result_
  end.

Definition result_or_cancel (self : nat) (timeout : option Z) : M value :=
  try_except (result self timeout) any_exception
    (λ e, _ ← cancel self; raise e).

(** *** PompLoopThread: the loop *)

(** One turn of the [while] of [_run_task_list], the queue being
    [t :: rest] before [pop(0)]. *)
Definition _run_task (q : queue) (t : task) (rest : list task) : M unit :=
  _ ← modify (queue_set q rest);
  let '(future, f, args, kwds) := t in
  r ← attempt is_Exception (call f args kwds);
  match r with
  | inl e =>
      _ ← log EXCEPTION "Unhandled exception in async task function" [];
      _ ← _unregister_future (VFuture future) true;
      set_exception future e
  | inr ret => resolve_with future ret
  end.

Fixpoint _run_task_list (fuel : nat) (q : queue) : M unit :=
  l ← gets (queue_get q);
  match l with
  | [] => ret tt
  | t :: rest =>
      match fuel with
      | O => λ w, (OutOfFuel, w)
      | S fuel' => _ ← _run_task q t rest; _run_task_list fuel' q
      end
  end.

(** The body of the [while] of [run]. *)
Definition run_iteration (fuel : nat) : M unit :=
  _ ← wait_and_process_logged;
  _ ← _run_task_list fuel Async;
  _run_task_list fuel Deferred.

(** [self.join()]: the caller is blocked until the loop thread is gone. *)
Definition join : M unit :=
  _ ← emit EvJoin;
  modify others.

Definition stop : M value :=
  r ← gets running;
  if negb r then ret (VBool false)
  else
    _ ← modify (set_running false);
    _ ← (if negb (is_loop_thread cur) then _ ← _wake_up; join else ret tt);
    ret (VBool true).

Definition has_fd (fd : Z) : M value :=
  try_except
    (f ← run_async Method_has_fd [VInt fd] [];
     result_or_cancel f (Some 5))
    (only TimeoutError)
    (λ _, ret (VBool false)).

Definition add_fd_to_loop (fd : Z) (cb : value) (fd_events : Z)
    (userdata : value) : M nat :=
  run_async Method_add_fd_to_loop [VInt fd; cb; VInt fd_events]
    [("userdata", userdata)].

Definition remove_fd_from_loop (fd : Z) : M nat :=
  run_async Method_remove_fd_from_loop [VInt fd] [].

End Methods.

(** The call of a done-callback, [depth] being what is left of the
    interpreter's recursion limit for nested callbacks: when nothing is
    left the call raises RecursionError, as CPython does. *)
Fixpoint invoke_callback (depth : nat) (cur : thread) (others : World → World)
    (cb : done_callback) (self : nat) : M unit :=
  match depth with
  | O => raise RecursionError
  | S depth' =>
      callback_body cur others (invoke_callback depth' cur others) cb self
  end.

End Embedding.

Declare Scope M_scope.
Delimit Scope M_scope with M.
Notation "x ← y ; z" := (bind y (λ x : _, z))
  (at level 20, y at level 100, z at level 200, only parsing) : M_scope.

Create HintDb frame.

(** ** The vocabulary of the properties *)

Section Vocabulary.
Context {L : Libpomp}.

(** The states of a future, as the specification names them.  A future
    that is not resolved holds no exception: [__init__] sets none, and
    only [set_exception] stores one. *)
Definition pending (w : World) (r : nat) : Prop :=
  fut_state w r = PENDING ∧ _exception (get_future w r) = None.

Definition fulfilled (w : World) (r : nat) (v : value) : Prop :=
  fut_state w r = FINISHED
  ∧ _result (get_future w r) = v
  ∧ _exception (get_future w r) = None.

Definition failed (w : World) (r : nat) (e : exn) : Prop :=
  fut_state w r = FINISHED ∧ _exception (get_future w r) = Some e.

Definition is_cancelled (w : World) (r : nat) : Prop :=
  state_cancelled (fut_state w r) = true.

(** The store after [future = Future(self); future._register()], [r]
    being the identity of the new object. *)
Definition registered (r : nat) (w : World) : World :=
  put_future r (mkFuture PENDING VNone None [CbUnregister])
    (set_futures (futures w ++ [id_of r]) (put_future r new_future w)).

(** The store after [_wake_up]. *)
Definition woken (w : World) : World :=
  match wakeup_evt w with
  | Some evt =>
      set_pomp (pomp_evt_signal evt (pomp w))
        (set_trace (trace w ++ [EvNative (Pomp_evt_signal evt)]) w)
  | None => w
  end.

(** The store after [run_async] from a thread that is not the loop. *)
Definition submitted (r : nat) (t : task) (w : World) : World :=
  woken (set_async_pomp_task (async_pomp_task w ++ [t]) (registered r w)).

(** A future that is done keeps its outcome: the object is the same, or
    went from CANCELLED to CANCELLED_AND_NOTIFIED. *)
Definition final_eq (o o' : FutureObj) : Prop :=
  o' = o ∨ (_state o = CANCELLED ∧ o' = with_state CANCELLED_AND_NOTIFIED o).

(** What every method of the module respects between two stores, save
    [_run_task], which pops the task lists: the deferred queue and the
    trace only grow at their tails, and the futures that are done are
    final. *)
Definition frame (w w' : World) : Prop :=
  deferred_pomp_task w `prefix_of` deferred_pomp_task w'
  ∧ trace w `prefix_of` trace w'
  ∧ ∀ r, state_done (fut_state w r) = true →
         final_eq (get_future w r) (get_future w' r).

Definition preserves {A : Type} (m : M A) : Prop := ∀ w, frame w (m w).2.

(** A change of the store that touches neither a future nor the
    deferred queue, and at most adds to the trace. *)
Definition aside (f : World → World) : Prop :=
  ∀ w, heap (f w) = heap w
       ∧ deferred_pomp_task (f w) = deferred_pomp_task w
       ∧ trace w `prefix_of` trace (f w).

(** The call returned, or raised an exception. *)
Definition terminates {A : Type} (r : res A) : Prop :=
  match r with Ok _ | Raise _ => True | _ => False end.

(** The call returned, or raised an Exception. *)
Definition mild {A : Type} (r : res A) : Prop :=
  match r with
  | Ok _ => True
  | Raise e => is_Exception e = true
  | _ => False
  end.

(** The fd registry agrees with the Reactor: the callback table holds
    ctypes callbacks only (never None), and it has a key for exactly the
    fds that the Reactor reports as attached. *)
Definition registry_inv (w : World) : Prop :=
  (∀ fd cb, pomp_fd_callbacks w !! fd = Some cb → cb ≠ VNone)
  ∧ ∀ fd, is_Some (pomp_fd_callbacks w !! fd)
          ↔ pomp_loop_has_fd fd (pomp w) = 1.

(** The store of [_remove_fd_from_loop] once the three [pop] are done. *)
Definition forgotten (fd : Z) (w : World) : World :=
  set_pomp_fd_callbacks (delete fd (pomp_fd_callbacks w))
    (set_c_fd_userdata (delete fd (c_fd_userdata w))
       (set_fd_userdata (delete fd (fd_userdata w)) w)).

End Vocabulary.

(** What a Reactor does when it reports success: the fd is attached
    after [pomp_loop_add], detached after [pomp_loop_remove], and the
    other fds are as before. *)
Class LibpompLaws (L : Libpomp) : Prop := {
  pomp_loop_add_ok : ∀ fd events n,
    (pomp_loop_add fd events n).1 = 0 →
    pomp_loop_has_fd fd (pomp_loop_add fd events n).2 = 1
    ∧ ∀ fd', fd' ≠ fd →
        pomp_loop_has_fd fd' (pomp_loop_add fd events n).2
        = pomp_loop_has_fd fd' n;
  pomp_loop_remove_ok : ∀ fd n,
    (pomp_loop_remove fd n).1 = 0 →
    pomp_loop_has_fd fd (pomp_loop_remove fd n).2 ≠ 1
    ∧ ∀ fd', fd' ≠ fd →
        pomp_loop_has_fd fd' (pomp_loop_remove fd n).2
        = pomp_loop_has_fd fd' n;
}.

(** ** A reference libpomp

    The fds and the timers attached to the loop, as sets.  The status
    codes are those of libpomp: [-EINVAL] for a negative fd or an empty
    event mask, [-EEXIST] for an fd that is attached already, [-ENOENT]
    for one that is not. *)

Definition SetPomp_add (fd events : Z) (s : gset Z * gset nat)
    : Z * (gset Z * gset nat) :=
  if (fd <? 0) || (events =? 0) then (-22, s)
  else if bool_decide (fd ∈ s.1) then (-17, s)
  else (0, ({[fd]} ∪ s.1, s.2)).

Definition SetPomp_remove (fd : Z) (s : gset Z * gset nat)
    : Z * (gset Z * gset nat) :=
  if bool_decide (fd ∈ s.1) then (0, (s.1 ∖ {[fd]}, s.2)) else (-2, s).

Definition SetPomp_has_fd (fd : Z) (s : gset Z * gset nat) : Z :=
  if bool_decide (fd ∈ s.1) then 1 else 0.

Definition SetPomp_timer_destroy (t : nat) (s : gset Z * gset nat)
    : Z * (gset Z * gset nat) :=
  if bool_decide (t ∈ s.2) then (0, (s.1, s.2 ∖ {[t]})) else (-22, s).

Definition SetPomp : Libpomp := {|
  native := gset Z * gset nat;
  pomp_loop_add := SetPomp_add;
  pomp_loop_remove := SetPomp_remove;
  pomp_loop_has_fd := SetPomp_has_fd;
  pomp_evt_signal := λ _ s, s;
  pomp_timer_destroy := SetPomp_timer_destroy;
  pomp_loop_wait_and_process := λ _ s, (None, s);
|}.

(** The loop as [__init__] leaves it, over the reference libpomp. *)
Definition init_world : @World SetPomp :=
  @mkWorld SetPomp false 100 [] [] (Some 0%nat) ∅ ∅ ∅ ∅ ∅ [] ∅ (∅, ∅) [].

(** ** Concrete stores, over the reference libpomp *)

(** Done-callbacks as the loop thread and as another thread run them,
    the other threads standing still. *)
Definition loop_invoke : done_callback → nat → @M SetPomp unit :=
  invoke_callback 8 LoopThread (λ w, w).

Definition foreign_invoke : done_callback → nat → @M SetPomp unit :=
  invoke_callback 8 (ForeignThread 1) (λ w, w).

(** Callables of a caller: one that returns [v], one that raises [e]. *)
Definition fn_const (v : value) : callable := Fn (λ _ _, Returns v).
Definition fn_raise (e : exn) : callable := Fn (λ _ _, Raises e).

(** The loop, started. *)
Definition world_running : @World SetPomp := set_running true init_world.

(** fd 7 registered with the callback object 1 for the event IN. *)
Definition world_fd7 : @World SetPomp :=
  (_add_fd_to_loop 7 (VObj 1) 1 VNone init_world).2.

(** What [_add_fd_to_loop(-1, cb, IN)] leaves: libpomp refuses the fd. *)
Definition world_bad_fd : @World SetPomp :=
  (_add_fd_to_loop (-1) (VObj 1) 1 VNone init_world).2.

(** A timer in the registry that libpomp does not know (any more). *)
Definition world_timer3 : @World SetPomp :=
  set_pomp_timer_callbacks {[3%nat := VCFunc (VObj 2)]}
    (set_pomp_timers {[3%nat := VObj 3]} init_world).

(** Two futures, 0 and 1, as [Future(loop)] makes them. *)
Definition world_two_futures : @World SetPomp :=
  (Future_new (Future_new init_world).2).2.

(** Future 0 is FINISHED with 1 and future 1 is cancelled. *)
Definition world_finished_and_cancelled : @World SetPomp :=
  (cancel loop_invoke 1
     (set_result loop_invoke 0 (VInt 1) world_two_futures).2).2.

(** [run_async(lambda: 7)] from another thread, not served yet. *)
Definition world_task : @World SetPomp :=
  (run_async (ForeignThread 1) foreign_invoke (fn_const (VInt 7)) [] []
     init_world).2.

(** [has_fd(99)] from another thread while the loop serves nothing: the
    wait timed out, the Future of the task is cancelled and the task is
    still in the immediate queue. *)
Definition world_has_fd_timed_out : @World SetPomp :=
  (has_fd (ForeignThread 1) (λ w, w) foreign_invoke 99 init_world).2.

(** [c = a.then(fn)] on future 0 of [world_two_futures] (so [c] is
    future 2), then [a.set_result(5)] on the loop thread. *)
Definition then_inline (fn : callable) : @World SetPomp :=
  (set_result loop_invoke 0 (VInt 5)
     (then_ loop_invoke 0 fn false world_two_futures).2).2.

(** ** More vocabulary: the live futures, the order of the calls *)

Create HintDb grows.
Create HintDb keeps.

Section MoreVocabulary.
Context {L : Libpomp}.

(** [x not in l], with the equality of Python. *)
Definition absent (x : value) (l : list value) : Prop :=
  Forall (λ y, py_eq y x = false) l.

(** The list holds identities only, as [_register_future] is given. *)
Definition identities (l : list value) : Prop :=
  Forall (λ y, ∃ z, y = VInt z) l.

(** The calls that the entries of a task list stand for, in the order
    of the list. *)
Definition calls_of (q : list task) : list event :=
  map (λ t : task, EvCall t.1.1.2 t.1.2 t.2) q.

(** The futures that are done in [w] have the same outcome in [w']. *)
Definition outcomes_kept (w w' : World) : Prop :=
  ∀ r, (∀ v, fulfilled w r v → fulfilled w' r v)
       ∧ (∀ e, failed w r e → failed w' r e)
       ∧ (is_cancelled w r → is_cancelled w' r).

(** The store after the done-callback that [_register] installs on the
    future [r]: [_unregister_future(id(r), ignore_error=True)]. *)
Definition unregistered (r : nat) (w : World) : World :=
  set_futures (default (futures w) (list_remove (id_of r) (futures w))) w.

(** The future [r] once it is done, with what it holds then. *)
Definition resolved (r : nat) (s : fstate) (v : value) (e : option exn)
    (w : World) : World :=
  put_future r (mkFuture s v e (_done_callbacks (get_future w r))) w.

(** Neither task list has changed between [w] and [w']. *)
Definition same_queues (w w' : World) : Prop :=
  async_pomp_task w' = async_pomp_task w
  ∧ deferred_pomp_task w' = deferred_pomp_task w.

(** What [result] gives on a future that is done. *)
Definition outcome_of (w : World) (self : nat) : res value :=
  if state_cancelled (fut_state w self) then Raise CancelledError
  else match _exception (get_future w self) with
       | Some e => Raise e
       | None => Ok (_result (get_future w self))
       end.

(** The immediate queue only grows at its tail. *)
Definition async_grows (w w' : World) : Prop :=
  async_pomp_task w `prefix_of` async_pomp_task w'.

Definition appends {A : Type} (m : M A) : Prop :=
  ∀ w, async_grows w (m w).2.

End MoreVocabulary.

(** ** More concrete stores, over the reference libpomp *)

(** The other threads only watch. *)
Definition standing_still : @World SetPomp → @World SetPomp := λ w, w.

(** A list of live futures in which [False] comes before the identity
    0, to which it is equal. *)
Definition world_live : @World SetPomp :=
  set_futures [VInt 1; VBool false; VInt 0] init_world.

(** [lambda n: n + 1] *)
Definition fn_succ_body (args : list value) (kwds : kwargs) : pyret :=
  match args, kwds with
  | [VInt z], [] => Returns (VInt (z + 1))
  | _, _ => Raises TypeError
  end.

(** [run_later(lambda: 1)] then [run_later(lambda: 2)]. *)
Definition world_two_deferred : @World SetPomp :=
  (run_later loop_invoke (fn_const (VInt 2)) [] []
     (run_later loop_invoke (fn_const (VInt 1)) [] [] init_world).2).2.

(** * The rest of the loop: events, timers, clean-up and shutdown

    The methods of [PompLoopThread] that use the attributes left out of
    [World]: the four event dictionaries, [pomp_loop] and
    [cleanup_functions].  They are state transformers over the record
    [Loop], which holds a [World] and these attributes; a method of the
    first part is run on the [World] inside ([lift]). *)

(** The functions of libpomp that these methods call. *)
Class LibpompMore (L : Libpomp) : Type := {
  (* a pomp_evt pointer is [None] when it is NULL *)
  pomp_evt_attach_to_loop : option nat → native → Z * native;
  pomp_evt_detach_from_loop : option nat → native → Z * native;
  (* the new timer, [None] when the allocation fails *)
  pomp_timer_new : native → option nat * native;
  pomp_timer_set_periodic : nat → Z → Z → native → Z * native;
  pomp_timer_clear : nat → native → Z * native;
  pomp_loop_destroy : native → Z * native;
}.

Inductive more_call : Type :=
  | Pomp_evt_attach_to_loop (evt : option nat) (cb userdata : value)
  | Pomp_evt_detach_from_loop (evt : option nat)
  | Pomp_timer_new (cb : value)
  | Pomp_timer_set_periodic (timer : nat) (delay period : Z)
  | Pomp_timer_clear (timer : nat)
  | Pomp_loop_destroy.

(** A function object handed to [register_cleanup]: [==] on functions
    compares what [func_id] stands for; [func_code] is what a call
    does. *)
Record pyfunc : Type := mkFunc {
  func_id : nat;
  func_code : callable;
}.

(** [id(pomp_evt)] of the ctypes pointer that the loop holds. *)
Definition evt_id (pomp_evt : option nat) : nat :=
  match pomp_evt with
  | None => O
  | Some h => S h
  end.

(** The text [Cannot remove event "%s" from pomp loop]. *)
Definition cannot_remove_event : string :=
  String.append "Cannot remove event "
    (String (Ascii.ascii_of_nat 34)
       (String.append "%s"
          (String (Ascii.ascii_of_nat 34) " from pomp loop"))).

(** *** A dict whose order of insertion matters, as an association list *)

Fixpoint alist_get {V : Type} (k : nat) (d : list (nat * V)) : option V :=
  match d with
  | [] => None
  | (k', v) :: d' => if Nat.eqb k' k then Some v else alist_get k d'
  end.

(** [d[k] = v]: an existing key keeps its place. *)
Fixpoint alist_set {V : Type} (k : nat) (v : V) (d : list (nat * V))
    : list (nat * V) :=
  match d with
  | [] => [(k, v)]
  | (k', v') :: d' =>
      if Nat.eqb k' k then (k, v) :: d' else (k', v') :: alist_set k v d'
  end.

Fixpoint alist_del {V : Type} (k : nat) (d : list (nat * V))
    : list (nat * V) :=
  match d with
  | [] => []
  | (k', v') :: d' =>
      if Nat.eqb k' k then alist_del k d' else (k', v') :: alist_del k d'
  end.

(** [l.remove(f)] on the list of clean-up functions. *)
Fixpoint func_remove (f : pyfunc) (l : list pyfunc) : option (list pyfunc) :=
  match l with
  | [] => None
  | g :: l' =>
      if Nat.eqb (func_id g) (func_id f) then Some l'
      else cons g <$> func_remove f l'
  end.

Section Rest.
Context {L : Libpomp} {X : LibpompMore L}.

Record Loop : Type := mkLoop {
  world : World;
  pomp_loop : option nat;                   (* None once destroyed *)
  pomp_events : list (nat * option nat);    (* id(pomp_evt) -> pomp_evt *)
  pomp_event_callbacks : gmap nat value;
  evt_userdata : gmap nat value;
  c_evt_userdata : gmap nat value;
  cleanup_functions : list pyfunc;
  native_log : list more_call;              (* the calls of [LibpompMore] *)
}.

Definition ML (A : Type) : Type := Loop → res A * Loop.

Definition lret {A : Type} (a : A) : ML A := λ s, (Ok a, s).

Definition lbind {A B : Type} (m : ML A) (k : A → ML B) : ML B :=
  λ s, match m s with
       | (Ok a, s') => k a s'
       | (Raise e, s') => (Raise e, s')
       | (Blocked, s') => (Blocked, s')
       | (OutOfFuel, s') => (OutOfFuel, s')
       end.

Declare Scope ML_scope.
Delimit Scope ML_scope with ML.
Notation "x ← y ; z" := (lbind y (λ x : _, z))
  (at level 20, y at level 100, z at level 200, only parsing) : ML_scope.
Local Open Scope ML_scope.

Definition lraise {A : Type} (e : exn) : ML A := λ s, (Raise e, s).
Definition lgets {A : Type} (f : Loop → A) : ML A := λ s, (Ok (f s), s).
Definition lmodify (f : Loop → Loop) : ML unit := λ s, (Ok tt, f s).

Definition ltry_except {A : Type} (m : ML A) (catches : exn → bool)
    (handler : exn → ML A) : ML A :=
  λ s, match m s with
       | (Raise e, s') => if catches e then handler e s' else (Raise e, s')
       | r => r
       end.

(** [try: m  finally: f]: [f] runs when [m] returns or raises; an
    exception of [f] replaces the outcome of [m]. *)
Definition lfinally {A : Type} (m : ML A) (f : ML unit) : ML A :=
  λ s, match m s with
       | (Ok a, s') => _ ← f; lret a
       | (Raise e, s') => _ ← f; lraise e
       | r => λ _, r
       end (m s).2.

Fixpoint lfor_each {A : Type} (l : list A) (body : A → ML unit) : ML unit :=
  match l with
  | [] => lret tt
  | x :: l' => _ ← body x; lfor_each l' body
  end.

(** *** Field updates *)

Definition set_world (w : World) (s : Loop) : Loop :=
  mkLoop w (pomp_loop s) (pomp_events s) (pomp_event_callbacks s)
    (evt_userdata s) (c_evt_userdata s) (cleanup_functions s) (native_log s).

Definition set_pomp_loop (h : option nat) (s : Loop) : Loop :=
  mkLoop (world s) h (pomp_events s) (pomp_event_callbacks s)
    (evt_userdata s) (c_evt_userdata s) (cleanup_functions s) (native_log s).

Definition set_pomp_events (d : list (nat * option nat)) (s : Loop) : Loop :=
  mkLoop (world s) (pomp_loop s) d (pomp_event_callbacks s)
    (evt_userdata s) (c_evt_userdata s) (cleanup_functions s) (native_log s).

Definition set_pomp_event_callbacks (m : gmap nat value) (s : Loop) : Loop :=
  mkLoop (world s) (pomp_loop s) (pomp_events s) m
    (evt_userdata s) (c_evt_userdata s) (cleanup_functions s) (native_log s).

Definition set_evt_userdata (m : gmap nat value) (s : Loop) : Loop :=
  mkLoop (world s) (pomp_loop s) (pomp_events s) (pomp_event_callbacks s)
    m (c_evt_userdata s) (cleanup_functions s) (native_log s).

Definition set_c_evt_userdata (m : gmap nat value) (s : Loop) : Loop :=
  mkLoop (world s) (pomp_loop s) (pomp_events s) (pomp_event_callbacks s)
    (evt_userdata s) m (cleanup_functions s) (native_log s).

Definition set_cleanup_functions (l : list pyfunc) (s : Loop) : Loop :=
  mkLoop (world s) (pomp_loop s) (pomp_events s) (pomp_event_callbacks s)
    (evt_userdata s) (c_evt_userdata s) l (native_log s).

Definition set_native_log (l : list more_call) (s : Loop) : Loop :=
  mkLoop (world s) (pomp_loop s) (pomp_events s) (pomp_event_callbacks s)
    (evt_userdata s) (c_evt_userdata s) (cleanup_functions s) l.

(** A method of the first part, on the [World] of the loop. *)
Definition lift {A : Type} (m : M A) : ML A :=
  λ s, ((m (world s)).1, set_world (m (world s)).2 s).

(** A call into libpomp that returns a status. *)
Definition more_status (c : more_call) (f : native → Z * native) : ML Z :=
  _ ← lmodify (λ s, set_native_log (native_log s ++ [c]) s);
  st ← lgets (λ s, f (pomp (world s)));
  _ ← lift (modify (set_pomp st.2));
  lret st.1.

(** *** Events *)

Definition _add_event_to_loop (pomp_evt : option nat) (cb userdata : value)
    : ML unit :=
  let evt_id := evt_id pomp_evt in
  _ ← lmodify (λ s, set_pomp_events
                      (alist_set evt_id pomp_evt (pomp_events s)) s);
  _ ← lmodify (λ s, set_pomp_event_callbacks
                      (<[evt_id := VCFunc cb]> (pomp_event_callbacks s)) s);
  _ ← lmodify (λ s, set_evt_userdata
                      (<[evt_id := userdata]> (evt_userdata s)) s);
  let userdata := VPtr userdata in
  _ ← lmodify (λ s, set_c_evt_userdata
                      (<[evt_id := userdata]> (c_evt_userdata s)) s);
  c ← lgets (λ s, default VNone (pomp_event_callbacks s !! evt_id));
  res ← more_status (Pomp_evt_attach_to_loop pomp_evt c userdata)
          (pomp_evt_attach_to_loop pomp_evt);
  if negb (Z.eqb res 0) then
    lraise (RuntimeError "Cannot add eventfd to pomp loop")
  else lret tt.

Definition _remove_event_from_loop (pomp_evt : option nat) : ML unit :=
  let evt_id := evt_id pomp_evt in
  _ ← lmodify (λ s, set_evt_userdata (delete evt_id (evt_userdata s)) s);
  _ ← lmodify (λ s, set_c_evt_userdata (delete evt_id (c_evt_userdata s)) s);
  _ ← lmodify (λ s, set_pomp_event_callbacks
                      (delete evt_id (pomp_event_callbacks s)) s);
  popped ← lgets (λ s, alist_get evt_id (pomp_events s));
  _ ← lmodify (λ s, set_pomp_events (alist_del evt_id (pomp_events s)) s);
  match popped with
  | Some _ =>
      res ← more_status (Pomp_evt_detach_from_loop pomp_evt)
              (pomp_evt_detach_from_loop pomp_evt);
      if negb (Z.eqb res 0) then
        lift (log ERROR cannot_remove_event [VInt (Z.of_nat evt_id)])
      else lret tt
  | None => lret tt
  end.

(** *** Timers *)

Definition create_timer (callback : value) : ML nat :=
  _ ← lift (log INFO "Creating pomp timer" []);
  let pomp_callback := VCFunc callback in
  _ ← lmodify (λ s, set_native_log
                      (native_log s ++ [Pomp_timer_new pomp_callback]) s);
  st ← lgets (λ s, pomp_timer_new (pomp (world s)));
  _ ← lift (modify (set_pomp st.2));
  match st.1 with
  | None => lraise (RuntimeError "Unable to create pomp timer")
  | Some pomp_timer =>
      _ ← lift (modify (λ w, set_pomp_timers
                               (<[pomp_timer := VObj pomp_timer]>
                                  (pomp_timers w)) w));
      _ ← lift (modify (λ w, set_pomp_timer_callbacks
                               (<[pomp_timer := pomp_callback]>
                                  (pomp_timer_callbacks w)) w));
      lret pomp_timer
  end.

Definition set_timer (pomp_timer : nat) (delay period : Z) : ML value :=
  res ← more_status (Pomp_timer_set_periodic pomp_timer delay period)
          (pomp_timer_set_periodic pomp_timer delay period);
  lret (VBool (Z.eqb res 0)).

Definition clear_timer (pomp_timer : nat) : ML value :=
  res ← more_status (Pomp_timer_clear pomp_timer) (pomp_timer_clear pomp_timer);
  lret (VBool (Z.eqb res 0)).

(** *** Clean-up functions *)

Definition register_cleanup (fn : pyfunc) : ML unit :=
  lmodify (λ s, set_cleanup_functions (cleanup_functions s ++ [fn]) s).

Definition unregister_cleanup (fn : pyfunc) (ignore_error : bool) : ML unit :=
  l ← lgets cleanup_functions;
  match func_remove fn l with
  | Some l' => lmodify (set_cleanup_functions l')
  | None => if ignore_error then lret tt else lraise ValueError
  end.

(** [self.async_pomp_task or self.deferred_pomp_task or self.futures] *)
Definition work_left (w : World) : bool :=
  negb (bool_decide (async_pomp_task w = []))
  || negb (bool_decide (deferred_pomp_task w = []))
  || negb (bool_decide (futures w = [])).

Section Shutdown.
(** The thread that executes the method, the other threads, the
    done-callbacks. *)
Variable cur : thread.
Variable others : World → World.
Variable invoke : done_callback → nat → M unit.
(** The keys of [pomp_fd_callbacks] and the values of [pomp_timers] in
    the order in which the dict lists them, its order of insertion,
    which the store does not record. *)
Variable fd_keys : World → list Z.
Variable timer_values : World → list nat.

(** The [while] of [_cleanup], [count] being the number of rounds done;
    [fuel] bounds the rounds and [tfuel] the turns of a drain. *)
Fixpoint _cleanup_loop (fuel tfuel : nat) (count : Z) : M unit :=
  bind (gets work_left) (λ more,
    if negb more then ret tt
    else match fuel with
         | O => λ w, (OutOfFuel, w)
         | S fuel' =>
             bind _wait_and_process (λ _,
             bind (_run_task_list invoke tfuel Async) (λ _,
             bind (_run_task_list invoke tfuel Deferred) (λ _,
               if Z.ltb 30 count then
                 log ERROR "Deferred cleanup action are still pending after 3s" []
               else _cleanup_loop fuel' tfuel (count + 1))))
         end).

Definition _cleanup (fuel tfuel : nat) : ML unit :=
  fns ← lgets cleanup_functions;
  _ ← lfor_each (rev fns)
        (λ cleanup,
           lift (try_except
                   (bind (call (func_code cleanup) [] []) (λ _, ret tt))
                   is_Exception
                   (λ _, log EXCEPTION
                           "Unhandled exception in cleanup function" [])));
  _ ← lmodify (set_cleanup_functions []);
  _ ← lift (_cleanup_loop fuel tfuel 0);
  _ ← lift (modify (set_async_pomp_task []));
  _ ← lift (modify (set_deferred_pomp_task []));
  lift (modify (set_futures [])).

(** *** Shutdown *)

Definition _destroy_pomp_loop_fds : ML unit :=
  evts ← lgets (λ s, (pomp_events s).*2);
  _ ← lfor_each evts _remove_event_from_loop;
  fds ← lgets (λ s, fd_keys (world s));
  lfor_each fds (λ fd, _ ← lift (_remove_fd_from_loop fd); lret tt).

Definition _destroy_pomp_loop_timers : ML unit :=
  pomp_timers ← lgets (λ s, timer_values (world s));
  lfor_each pomp_timers
    (λ pomp_timer, _ ← lift (destroy_timer pomp_timer); lret tt).

Definition _destroy_pomp_loop : ML value :=
  h ← lgets pomp_loop;
  match h with
  | Some _ =>
      res ← more_status Pomp_loop_destroy pomp_loop_destroy;
      if negb (Z.eqb res 0) then
        _ ← lift (log ERROR "Error while destroying pomp loop: {}" [VInt res]);
        lret (VBool false)
      else
        _ ← lift (log INFO "Pomp loop has been destroyed" []);
        _ ← lmodify (set_pomp_loop None);
        lret (VBool true)
  | None =>
      _ ← lmodify (set_pomp_loop None);
      lret (VBool true)
  end.

Definition destroy : ML unit :=
  _ ← lift (stop cur others);
  evt ← lgets (λ s, wakeup_evt (world s));
  _ ← _remove_event_from_loop evt;
  _ ← _destroy_pomp_loop_fds;
  _ ← _destroy_pomp_loop_timers;
  _ ← _destroy_pomp_loop;
  lret tt.

(** [start]: the flag is set before the thread exists. *)
Definition start : ML unit := lift (modify (set_running true)).

End Shutdown.

Section MainLoop.
(** [run] is what the loop thread executes: the methods that it calls
    are called on the loop thread. *)
Variable others : World → World.
Variable invoke : done_callback → nat → M unit.
Variable fd_keys : World → list Z.
Variable timer_values : World → list nat.
(** [alive n] is what [main_thread.is_alive()] answers at the [n]-th
    test of the [while]; the main thread is taken to be among the
    threads that [threading.enumerate()] lists. *)
Variable alive : nat → bool.

(** The [while] of [run]; the other threads act while the loop is in
    [pomp_loop_wait_and_process]. *)
Fixpoint run_loop (fuel tfuel n : nat) : M unit :=
  bind (gets running) (λ r,
    if r && alive n then
      match fuel with
      | O => λ w, (OutOfFuel, w)
      | S fuel' =>
          bind (modify others) (λ _,
          bind (run_iteration invoke tfuel) (λ _,
            run_loop fuel' tfuel (S n)))
      end
    else ret tt).

(** [callback] is the closure
    [lambda *args: self._wake_up_event_cb( *args)]. *)
Definition run (callback : value) (fuel tfuel : nat) : ML unit :=
  evt ← lgets (λ s, wakeup_evt (world s));
  _ ← _add_event_to_loop evt callback VNone;
  lfinally (lift (run_loop fuel tfuel 0))
    (_ ← lift (modify (set_running false));
     _ ← _cleanup invoke 32 tfuel;
     destroy LoopThread others fd_keys timer_values).

End MainLoop.

(** ** The vocabulary of the properties *)

(** No dictionary of the loop has an entry for the event key [k]. *)
Definition no_event_entry (s : Loop) (k : nat) : Prop :=
  alist_get k (pomp_events s) = None
  ∧ pomp_event_callbacks s !! k = None
  ∧ evt_userdata s !! k = None
  ∧ c_evt_userdata s !! k = None.

Definition same_event_tables (s s' : Loop) : Prop :=
  pomp_events s' = pomp_events s
  ∧ pomp_event_callbacks s' = pomp_event_callbacks s
  ∧ evt_userdata s' = evt_userdata s
  ∧ c_evt_userdata s' = c_evt_userdata s.

(** The parts of the loop that a step leaves as they are. *)
Definition same_fd_tables (w w' : World) : Prop :=
  pomp_fd_callbacks w' = pomp_fd_callbacks w
  ∧ fd_userdata w' = fd_userdata w
  ∧ c_fd_userdata w' = c_fd_userdata w.

Definition same_timer_tables (w w' : World) : Prop :=
  pomp_timers w' = pomp_timers w
  ∧ pomp_timer_callbacks w' = pomp_timer_callbacks w.

Definition same_tasks (w w' : World) : Prop :=
  running w' = running w
  ∧ wakeup_evt w' = wakeup_evt w
  ∧ async_pomp_task w' = async_pomp_task w
  ∧ deferred_pomp_task w' = deferred_pomp_task w
  ∧ futures w' = futures w
  ∧ heap w' = heap w.

Definition same_attributes (s s' : Loop) : Prop :=
  pomp_loop s' = pomp_loop s
  ∧ cleanup_functions s' = cleanup_functions s.

(** Every event is filed under its own identity, as
    [_add_event_to_loop] does. *)
Definition events_keyed (s : Loop) : Prop :=
  Forall (λ kv : nat * option nat, kv.1 = evt_id kv.2) (pomp_events s).

(** The two timer dictionaries have the same keys, as [create_timer]
    and [destroy_timer] leave them. *)
Definition timers_inv (w : World) : Prop :=
  ∀ t, is_Some (pomp_timers w !! t) ↔ is_Some (pomp_timer_callbacks w !! t).

(** What a step of another thread, a task or a done-callback may do to
    the loop: it leaves the two timer dictionaries with the same keys,
    and it does not start a loop that was stopped. *)
Definition undisturbed (w w' : World) : Prop :=
  (timers_inv w → timers_inv w')
  ∧ (running w = false → running w' = false).

Definition keeps {A : Type} (m : M A) : Prop :=
  ∀ w, undisturbed w (m w).2.

(** [l] lists the keys of [m], each once. *)
Definition lists_keys {K V : Type} `{Countable K} (l : list K)
    (m : gmap K V) : Prop :=
  ∀ k, k ∈ l ↔ is_Some (m !! k).

(** [f not in l] for function objects. *)
Definition func_absent (f : pyfunc) (l : list pyfunc) : Prop :=
  Forall (λ g, Nat.eqb (func_id g) (func_id f) = false) l.

(** What a clean-up function does when it is called without
    arguments. *)
Definition cleanup_outcome (f : pyfunc) : pyret :=
  match func_code f with
  | Fn body => body [] []
  | _ => Raises TypeError
  end.

(** A clean-up function that returns, or raises an Exception. *)
Definition cleanup_mild (f : pyfunc) : bool :=
  match cleanup_outcome f with
  | Returns _ => true
  | Raises e => is_Exception e
  end.

(** What the call of a clean-up function adds to the trace. *)
Definition cleanup_events (f : pyfunc) : list event :=
  EvCall (func_code f) [] []
  :: match cleanup_outcome f with
     | Returns _ => []
     | Raises _ =>
         [EvLog EXCEPTION "Unhandled exception in cleanup function" []]
     end.

End Rest.

Declare Scope ML_scope.
Delimit Scope ML_scope with ML.
Notation "x ← y ; z" := (lbind y (λ x : _, z))
  (at level 20, y at level 100, z at level 200, only parsing) : ML_scope.

(** ** The rest of the reference libpomp

    An event can be attached and detached unless its pointer is NULL
    ([-EINVAL]); a new timer gets the first handle that is free; a timer
    that libpomp does not know cannot be set or cleared ([-EINVAL]); the
    loop cannot be destroyed while an fd is attached ([-EBUSY]). *)

Definition SetPomp_evt (evt : option nat) (s : gset Z * gset nat)
    : Z * (gset Z * gset nat) :=
  match evt with
  | Some _ => (0, s)
  | None => (-22, s)
  end.

Definition SetPomp_timer_new (s : gset Z * gset nat)
    : option nat * (gset Z * gset nat) :=
  (Some (fresh s.2), (s.1, {[fresh s.2]} ∪ s.2)).

Definition SetPomp_timer_known (t : nat) (s : gset Z * gset nat)
    : Z * (gset Z * gset nat) :=
  if bool_decide (t ∈ s.2) then (0, s) else (-22, s).

Definition SetPomp_loop_destroy (s : gset Z * gset nat)
    : Z * (gset Z * gset nat) :=
  if bool_decide (s.1 = ∅) then (0, s) else (-16, s).

Definition SetPompMore : LibpompMore SetPomp :=
  @Build_LibpompMore SetPomp
    SetPomp_evt                               (* pomp_evt_attach_to_loop *)
    SetPomp_evt                               (* pomp_evt_detach_from_loop *)
    SetPomp_timer_new                         (* pomp_timer_new *)
    (λ t _ _, SetPomp_timer_known t)          (* pomp_timer_set_periodic *)
    SetPomp_timer_known                       (* pomp_timer_clear *)
    SetPomp_loop_destroy.                     (* pomp_loop_destroy *)

#[export] Existing Instance SetPompMore.

(** ** A libpomp that refuses nothing

    Every call answers 0 and the wait dispatches nothing; every timer
    gets the handle 0. *)

Definition YesPomp : Libpomp := {|
  native := unit;
  pomp_loop_add := λ _ _ n, (0, n);
  pomp_loop_remove := λ _ n, (0, n);
  pomp_loop_has_fd := λ _ _, 0;
  pomp_evt_signal := λ _ n, n;
  pomp_timer_destroy := λ _ n, (0, n);
  pomp_loop_wait_and_process := λ _ n, (None, n);
|}.

Definition YesPompMore : LibpompMore YesPomp :=
  @Build_LibpompMore YesPomp
    (λ _ n, (0, n))                           (* pomp_evt_attach_to_loop *)
    (λ _ n, (0, n))                           (* pomp_evt_detach_from_loop *)
    (λ n, (Some 0%nat, n))                    (* pomp_timer_new *)
    (λ _ _ _ n, (0, n))                       (* pomp_timer_set_periodic *)
    (λ _ n, (0, n))                           (* pomp_timer_clear *)
    (λ n, (0, n)).                            (* pomp_loop_destroy *)

#[export] Existing Instance YesPompMore.

(** ** Concrete loops *)

(** The keys of the fd dictionary and the timers of the timer
    dictionary, in the order of the handles. *)
Definition fds_of {L : Libpomp} (w : @World L) : list Z :=
  elements (dom (pomp_fd_callbacks w)).

Definition timers_of {L : Libpomp} (w : @World L) : list nat :=
  elements (dom (pomp_timers w)).

(** Another thread that calls [stop()]: the flag is cleared. *)
Definition stopping {L : Libpomp} (w : @World L) : @World L :=
  set_running false w.

(** The main thread outlives the loop. *)
Definition main_alive (n : nat) : bool := true.

(** Clean-up functions: one returns, one raises an Exception. *)
Definition fn_quiet : pyfunc :=
  {| func_id := 1; func_code := fn_const VNone |}.

Definition fn_failing : pyfunc :=
  {| func_id := 2; func_code := fn_raise (UserError 1) |}.

(** A clean-up function that raises what is no Exception. *)
Definition fn_interrupted : pyfunc :=
  {| func_id := 3; func_code := fn_raise KeyboardInterrupt |}.

(** The loop as [__init__] leaves it. *)
Definition loop_init : @Loop SetPomp :=
  mkLoop init_world (Some 0%nat) [] ∅ ∅ ∅ [] [].

(** The started loop, with fd 7 registered and the two clean-up
    functions registered, the failing one last. *)
Definition loop_started : @Loop SetPomp :=
  (register_cleanup fn_failing
     (register_cleanup fn_quiet
        (start (set_world world_fd7 loop_init)).2).2).2.

(** The same loop once [run] has attached the wake-up event. *)
Definition loop_busy : @Loop SetPomp :=
  (_add_event_to_loop (Some 0%nat) (VObj 5) VNone loop_started).2.

(** A loop whose clean-up function is interrupted. *)
Definition loop_interrupted : @Loop SetPomp :=
  (register_cleanup fn_interrupted loop_init).2.

(** A loop whose wake-up event could not be created: the pointer is
    NULL. *)
Definition loop_no_event : @Loop SetPomp :=
  set_world
    (@mkWorld SetPomp true 100 [] [] None ∅ ∅ ∅ ∅ ∅ [] ∅ (∅, ∅) [])
    loop_init.

(** A timer in the registry that libpomp does not know (any more). *)
Definition loop_timer3 : @Loop SetPomp := set_world world_timer3 loop_init.

(** The started loop over the libpomp that refuses nothing, with a
    timer made by [create_timer] and a clean-up function. *)
Definition yes_world : @World YesPomp :=
  @mkWorld YesPomp true 100 [] [] (Some 0%nat) ∅ ∅ ∅ ∅ ∅ [] ∅ tt [].

Definition yes_invoke : done_callback → nat → @M YesPomp unit :=
  invoke_callback 8 LoopThread (λ w, w).

Definition yes_loop : @Loop YesPomp :=
  (register_cleanup fn_quiet
     (create_timer (VObj 6)
        (mkLoop yes_world (Some 0%nat) [] ∅ ∅ ∅ [] [])).2).2.

(** * Properties *)

Section Properties.
Context {L : Libpomp}.

(** ** Running a method on a store: the equations of the monad *)

Section Run.
Context {A B : Type}.

Lemma run_ret (a : A) (k : A → M B) (w : World) : bind (ret a) k w = k a w.
Proof. reflexivity. Qed.

Lemma run_raise (e : exn) (k : A → M B) (w : World) :
  bind (raise e) k w = (Raise e, w).
Proof. reflexivity. Qed.

Lemma run_gets (f : World → A) (k : A → M B) (w : World) :
  bind (gets f) k w = k (f w) w.
Proof. reflexivity. Qed.

Lemma run_modify (f : World → World) (k : unit → M B) (w : World) :
  bind (modify f) k w = k tt (f w).
Proof. reflexivity. Qed.

Lemma run_emit (ev : event) (k : unit → M B) (w : World) :
  bind (emit ev) k w = k tt (set_trace (trace w ++ [ev]) w).
Proof. reflexivity. Qed.

Lemma run_log (lvl : log_level) (fmt : string) (args : list value)
    (k : unit → M B) (w : World) :
  bind (log lvl fmt args) k w
  = k tt (set_trace (trace w ++ [EvLog lvl fmt args]) w).
Proof. reflexivity. Qed.

Lemma run_native_status (c : native_call) (f : native → Z * native)
    (k : Z → M B) (w : World) :
  bind (native_status c f) k w
  = k (f (pomp w)).1
      (set_pomp (f (pomp w)).2 (set_trace (trace w ++ [EvNative c]) w)).
Proof. reflexivity. Qed.

Lemma run_dict_pop (field : World → gmap Z value)
    (update : gmap Z value → World → World) (key : Z) (k : value → M B)
    (w : World) :
  bind (dict_pop field update key) k w
  = k (default VNone (field w !! key)) (update (delete key (field w)) w).
Proof. reflexivity. Qed.

Lemma run_dict_set (field : World → gmap Z value)
    (update : gmap Z value → World → World) (key : Z) (v : value)
    (k : unit → M B) (w : World) :
  bind (dict_set field update key v) k w
  = k tt (update (<[key := v]> (field w)) w).
Proof. reflexivity. Qed.

Lemma run_Future_new (k : nat → M B) (w : World) :
  bind Future_new k w
  = k (fresh (dom (heap w))) (put_future (fresh (dom (heap w))) new_future w).
Proof. reflexivity. Qed.

Lemma run_set_state (self : nat) (s : fstate) (k : unit → M B) (w : World) :
  bind (set_state self s) k w
  = k tt (put_future self (with_state s (get_future w self)) w).
Proof. reflexivity. Qed.

Lemma run_register_future (f : value) (k : unit → M B) (w : World) :
  bind (_register_future f) k w = k tt (set_futures (futures w ++ [f]) w).
Proof. reflexivity. Qed.

Lemma run_bind_assoc {C : Type} (m : M A) (k1 : A → M B) (k2 : B → M C)
    (w : World) :
  bind (bind m k1) k2 w = bind m (λ a, bind (k1 a) k2) w.
Proof.
  unfold bind. by destruct (m w) as [[a | e | |] w1].
Qed.

End Run.

(** Reduction of the field projections over the field updates. *)
Ltac wsimpl :=
  cbn [running pomptimeout_ms async_pomp_task deferred_pomp_task wakeup_evt
       pomp_timers pomp_timer_callbacks fd_userdata c_fd_userdata
       pomp_fd_callbacks futures heap pomp trace
       set_running set_async_pomp_task set_deferred_pomp_task set_pomp_timers
       set_pomp_timer_callbacks set_fd_userdata set_c_fd_userdata
       set_pomp_fd_callbacks set_futures set_heap set_pomp set_trace
       put_future queue_get queue_set fst snd negb] in *.

(** One pass of symbolic execution. *)
Ltac mrun :=
  repeat (first
    [ rewrite run_ret | rewrite run_raise | rewrite run_gets
    | rewrite run_modify | rewrite run_emit | rewrite run_log
    | rewrite run_native_status | rewrite run_dict_pop | rewrite run_dict_set
    | rewrite run_Future_new | rewrite run_set_state
    | rewrite run_register_future | rewrite run_bind_assoc
    | progress wsimpl ]).

(** ** Properties of the fd and timer registries *)

Section RegistryProperties.

Lemma delete_twice (m : gmap Z value) (k : Z) :
  delete k (delete k m) = delete k m.
Proof. apply delete_id, lookup_delete_eq. Qed.

Lemma remove_fd_absent (w : World) (fd : Z) :
  fd_userdata w !! fd = None →
  c_fd_userdata w !! fd = None →
  pomp_fd_callbacks w !! fd = None →
  _remove_fd_from_loop fd w = (Ok (VBool true), w).
Proof.
  intros H1 H2 H3. unfold _remove_fd_from_loop. mrun.
  rewrite H3. cbn [default from_option id is_None negb]. unfold ret.
  rewrite !delete_id by done. by destruct w.
Qed.

(** The entries of [fd] after [_remove_fd_from_loop], whatever the
    Reactor answers. *)
Lemma remove_fd_drops (w : World) (fd : Z) :
  let w' := (_remove_fd_from_loop fd w).2 in
  fd_userdata w' !! fd = None
  ∧ c_fd_userdata w' !! fd = None
  ∧ pomp_fd_callbacks w' !! fd = None.
Proof.
  unfold _remove_fd_from_loop. mrun.
  destruct (negb _); [mrun; destruct (negb _); mrun |]; unfold ret; wsimpl;
    by rewrite !lookup_delete_eq.
Qed.

(** What the first removal of a registered fd answers and does. *)
Lemma remove_fd_present (w : World) (fd : Z) (cb : value) :
  pomp_fd_callbacks w !! fd = Some cb →
  cb ≠ VNone →
  let st := pomp_loop_remove fd (pomp w) in
  let w' := (_remove_fd_from_loop fd w).2 in
  (_remove_fd_from_loop fd w).1 = Ok (VBool (Z.eqb st.1 0))
  ∧ pomp w' = st.2
  ∧ trace w' = trace w ++ EvNative (Pomp_loop_remove fd)
                 :: (if Z.eqb st.1 0 then []
                     else [EvLog ERROR "Cannot remove fd '{}' from pomp loop" [VInt fd]]).
Proof.
  intros Hcb Hnone. unfold _remove_fd_from_loop. mrun.
  rewrite Hcb. cbn [default from_option id].
  replace (negb (is_None cb)) with true by (by destruct cb).
  mrun. destruct (Z.eqb _ 0); cbn [negb]; mrun; unfold ret; wsimpl;
    by rewrite <- ?app_assoc.
Qed.

(** C7. Removing an fd is idempotent: whatever the first call of
    [_remove_fd_from_loop] did, a second call right after it changes
    nothing (so the Reactor is not invoked again) and answers True; the
    first call leaves no entry for the fd in any of the three
    dictionaries whatever the Reactor answered; and for an fd that was
    registered it invokes the Reactor's remove once and answers whether
    the Reactor's status was 0. *)
Theorem remove_fd_idempotent (w : World) (fd : Z) :
  let first := _remove_fd_from_loop fd w in
  let second := _remove_fd_from_loop fd first.2 in
  second = (Ok (VBool true), first.2)
  ∧ (fd_userdata first.2 !! fd = None
     ∧ c_fd_userdata first.2 !! fd = None
     ∧ pomp_fd_callbacks first.2 !! fd = None)
  ∧ (∀ cb, pomp_fd_callbacks w !! fd = Some cb → cb ≠ VNone →
       let st := pomp_loop_remove fd (pomp w) in
       first.1 = Ok (VBool (Z.eqb st.1 0))
       ∧ pomp first.2 = st.2
       ∧ trace first.2
         = trace w ++ EvNative (Pomp_loop_remove fd)
             :: (if Z.eqb st.1 0 then []
                 else [EvLog ERROR "Cannot remove fd '{}' from pomp loop" [VInt fd]])).
Proof.
  intros first second.
  pose proof (remove_fd_drops w fd) as (H1 & H2 & H3).
  split; [| split; [done |]].
  - by apply remove_fd_absent.
  - intros cb Hcb Hnone. by apply (remove_fd_present w fd cb).
Qed.

(** The timer dictionaries and the trace after [destroy_timer] of a
    timer that is not registered, and of one whose native destruction
    fails. *)
Lemma destroy_timer_unknown (w : World) (t : nat) :
  pomp_timers w !! t = None →
  destroy_timer t w = (Ok (VBool false), w).
Proof.
  intros H. unfold destroy_timer, bind, gets, ret; simpl.
  rewrite H. by rewrite bool_decide_eq_false_2; [| intros [? ?]].
Qed.

Lemma destroy_timer_failure (w : World) (t : nat) (tm : value) :
  pomp_timers w !! t = Some tm →
  (pomp_timer_destroy t (pomp w)).1 ≠ 0 →
  let w' := (destroy_timer t w).2 in
  (destroy_timer t w).1 = Ok (VBool false)
  ∧ pomp_timers w' = pomp_timers w
  ∧ pomp_timer_callbacks w' = pomp_timer_callbacks w.
Proof.
  intros H Hst. destruct w; simpl in *.
  unfold destroy_timer, native_status, log, emit, bind, gets, modify, ret; simpl.
  rewrite H. rewrite bool_decide_eq_true_2; [| by eexists]. simpl.
  apply Z.eqb_neq in Hst. by rewrite Hst.
Qed.

Lemma destroy_timer_success (w : World) (t : nat) (tm cb : value) :
  pomp_timers w !! t = Some tm →
  pomp_timer_callbacks w !! t = Some cb →
  (pomp_timer_destroy t (pomp w)).1 = 0 →
  let w' := (destroy_timer t w).2 in
  (destroy_timer t w).1 = Ok (VBool true)
  ∧ pomp_timers w' = delete t (pomp_timers w)
  ∧ pomp_timer_callbacks w' = delete t (pomp_timer_callbacks w).
Proof.
  intros H Hcb Hst. destruct w; simpl in *.
  unfold destroy_timer, native_status, dict_del, log, emit, bind, gets, modify,
    ret; simpl.
  rewrite H. rewrite bool_decide_eq_true_2; [| by eexists]. simpl.
  rewrite Hst; simpl. rewrite H; simpl. by rewrite Hcb.
Qed.

(** C10. [destroy_timer] of a timer that is not in the timer registry
    answers False and changes nothing, so that the Reactor is not
    invoked; for a registered timer whose native destruction fails it
    answers False and keeps both registry entries, which are deleted only
    when the Reactor succeeds; the removal of an fd, on the contrary,
    drops the entries of the fd even when the Reactor fails. *)
Theorem destroy_timer_keeps_entries_on_failure (w : World) (t : nat) :
  (pomp_timers w !! t = None → destroy_timer t w = (Ok (VBool false), w))
  ∧ (∀ tm, pomp_timers w !! t = Some tm →
       (pomp_timer_destroy t (pomp w)).1 ≠ 0 →
       (destroy_timer t w).1 = Ok (VBool false)
       ∧ pomp_timers (destroy_timer t w).2 = pomp_timers w
       ∧ pomp_timer_callbacks (destroy_timer t w).2 = pomp_timer_callbacks w)
  ∧ (∀ tm cb, pomp_timers w !! t = Some tm →
       pomp_timer_callbacks w !! t = Some cb →
       (pomp_timer_destroy t (pomp w)).1 = 0 →
       (destroy_timer t w).1 = Ok (VBool true)
       ∧ pomp_timers (destroy_timer t w).2 !! t = None
       ∧ pomp_timer_callbacks (destroy_timer t w).2 !! t = None)
  ∧ (∀ fd cb, pomp_fd_callbacks w !! fd = Some cb → cb ≠ VNone →
       (pomp_loop_remove fd (pomp w)).1 ≠ 0 →
       (_remove_fd_from_loop fd w).1 = Ok (VBool false)
       ∧ pomp_fd_callbacks (_remove_fd_from_loop fd w).2 !! fd = None
       ∧ fd_userdata (_remove_fd_from_loop fd w).2 !! fd = None
       ∧ c_fd_userdata (_remove_fd_from_loop fd w).2 !! fd = None).
Proof.
  repeat split.
  - apply destroy_timer_unknown.
  - by eapply destroy_timer_failure.
  - by eapply destroy_timer_failure.
  - by eapply destroy_timer_failure.
  - by eapply destroy_timer_success.
  - edestruct destroy_timer_success as (_ & -> & _); eauto.
    apply lookup_delete_eq.
  - edestruct destroy_timer_success as (_ & _ & ->); eauto.
    apply lookup_delete_eq.
  - edestruct (remove_fd_present w fd cb) as (-> & _); eauto.
    apply Z.eqb_neq in H1. by rewrite H1.
  - apply remove_fd_drops.
  - apply remove_fd_drops.
  - apply remove_fd_drops.
Qed.

End RegistryProperties.

(** ** What a cascade of done-callbacks leaves alone

    Two facts hold across every method of the module, however deep the
    done-callbacks nest: a future that is done keeps its outcome (only
    CANCELLED may still become CANCELLED_AND_NOTIFIED), and the deferred
    queue only grows at its tail.  The task lists are popped by
    [_run_task] alone. *)

Section Frame.

Lemma frame_refl (w : World) : frame w w.
Proof. split; [done |]. split; [done |]. intros r _. by left. Qed.

Lemma frame_trans (a b c : World) : frame a b → frame b c → frame a c.
Proof.
  intros (Hp1 & Ht1 & Hf1) (Hp2 & Ht2 & Hf2).
  split; [by etrans |]. split; [by etrans |].
  intros r Hd. specialize (Hf1 r Hd). specialize (Hf2 r).
  unfold fut_state in *.
  destruct Hf1 as [E | [Hs E]]; rewrite E in Hf2.
  - by apply Hf2.
  - destruct Hf2 as [E' | [Hs' E']]; [done | right; by rewrite E' | done].
Qed.

Lemma frame_same (w w' : World) :
  heap w' = heap w →
  deferred_pomp_task w' = deferred_pomp_task w →
  trace w `prefix_of` trace w' →
  frame w w'.
Proof.
  intros Hh Hq Ht. split; [by rewrite Hq |]. split; [done |].
  intros r _. left. unfold get_future. by rewrite Hh.
Qed.

Lemma get_put_future_eq (w : World) (r : nat) (o : FutureObj) :
  get_future (put_future r o w) r = o.
Proof. unfold get_future; simpl. by rewrite lookup_insert_eq. Qed.

Lemma get_put_future_ne (w : World) (r r' : nat) (o : FutureObj) :
  r ≠ r' → get_future (put_future r o w) r' = get_future w r'.
Proof. intros. unfold get_future; simpl. by rewrite lookup_insert_ne. Qed.

(** Writing a future that is not done respects the frame. *)
Lemma frame_put_future (w : World) (r : nat) (o : FutureObj) :
  state_done (fut_state w r) = false → frame w (put_future r o w).
Proof.
  intros Hnd. split; [done |]. split; [done |].
  intros r' Hd. left.
  destruct (decide (r = r')) as [<- | Hne]; [congruence |].
  by apply get_put_future_ne.
Qed.

Lemma frame_notify (w : World) (r : nat) :
  fut_state w r = CANCELLED →
  frame w (put_future r (with_state CANCELLED_AND_NOTIFIED (get_future w r)) w).
Proof.
  intros Hs. split; [done |]. split; [done |].
  intros r' Hd.
  destruct (decide (r = r')) as [<- | Hne].
  - right. by rewrite get_put_future_eq.
  - left. by apply get_put_future_ne.
Qed.

(** A reference that the store does not hold is not done. *)
Lemma fresh_not_done (w : World) :
  state_done (fut_state w (fresh (dom (heap w)))) = false.
Proof.
  unfold fut_state, get_future.
  pose proof (is_fresh (dom (heap w))) as Hf.
  apply not_elem_of_dom in Hf. by rewrite Hf.
Qed.

(** *** The frame through the combinators *)

Lemma frame_bind {A B : Type} (m : M A) (k : A → M B) (w : World) :
  frame w (m w).2 →
  (∀ a, (m w).1 = Ok a → frame (m w).2 (k a (m w).2).2) →
  frame w (bind m k w).2.
Proof.
  intros H1 H2. unfold bind. destruct (m w) as [[a | e | |] w1]; simpl in *; try done.
  eapply frame_trans; [done |]. by apply H2.
Qed.

Lemma frame_try_except {A : Type} (m : M A) (catches : exn → bool)
    (handler : exn → M A) (w : World) :
  frame w (m w).2 →
  (∀ e, frame (m w).2 (handler e (m w).2).2) →
  frame w (try_except m catches handler w).2.
Proof.
  intros H1 H2. unfold try_except.
  destruct (m w) as [[a | e | |] w1]; simpl in *; try done.
  destruct (catches e); [| done].
  eapply frame_trans; [done |]. apply H2.
Qed.

Lemma frame_attempt {A : Type} (m : M A) (catches : exn → bool) (w : World) :
  frame w (m w).2 → frame w (attempt catches m w).2.
Proof.
  intros H. unfold attempt. apply frame_try_except.
  - apply frame_bind; [done |]. intros; apply frame_refl.
  - intros; apply frame_refl.
Qed.

Lemma attempt_world {A : Type} (m : M A) (catches : exn → bool) (w : World) :
  (attempt catches m w).2 = (m w).2.
Proof.
  unfold attempt, try_except, bind, ret.
  destruct (m w) as [[a | e | |] w1]; simpl; try done.
  by destruct (catches e).
Qed.

Lemma frame_for_each {A : Type} (l : list A) (body : A → M unit) :
  (∀ x w, frame w (body x w).2) →
  ∀ w, frame w (for_each l body w).2.
Proof.
  intros Hb. induction l as [| x l IH]; intros w; simpl.
  - apply frame_refl.
  - apply frame_bind; [apply Hb |]. intros; apply IH.
Qed.

End Frame.

(** *** The frame through the methods *)

Section FrameMethods.

Lemma preserves_ret {A : Type} (a : A) : preserves (ret a).
Proof. intros w. apply frame_refl. Qed.

Lemma preserves_raise {A : Type} (e : exn) : preserves (raise e : M A).
Proof. intros w. apply frame_refl. Qed.

Lemma preserves_gets {A : Type} (f : World → A) : preserves (gets f).
Proof. intros w. apply frame_refl. Qed.

Lemma preserves_bind {A B : Type} (m : M A) (k : A → M B) :
  preserves m → (∀ a, preserves (k a)) → preserves (bind m k).
Proof. intros Hm Hk w. apply frame_bind; [apply Hm |]. intros a _. apply Hk. Qed.

Lemma preserves_try_except {A : Type} (m : M A) (catches : exn → bool)
    (handler : exn → M A) :
  preserves m → (∀ e, preserves (handler e)) →
  preserves (try_except m catches handler).
Proof.
  intros Hm Hh w. apply frame_try_except; [apply Hm |]. intros e. apply Hh.
Qed.

Lemma preserves_attempt {A : Type} (m : M A) (catches : exn → bool) :
  preserves m → preserves (attempt catches m).
Proof. intros Hm w. apply frame_attempt, Hm. Qed.

Lemma preserves_for_each {A : Type} (l : list A) (body : A → M unit) :
  (∀ x, preserves (body x)) → preserves (for_each l body).
Proof. intros Hb w. apply frame_for_each. intros x w'. apply Hb. Qed.

Lemma preserves_modify (f : World → World) : aside f → preserves (modify f).
Proof. intros Hf w. apply frame_same; apply Hf. Qed.

Lemma preserves_emit (ev : event) : preserves (emit ev).
Proof.
  apply preserves_modify. intros w. split; [done |]. split; [done |].
  by apply prefix_app_r.
Qed.

Lemma preserves_log (lvl : log_level) (fmt : string) (args : list value) :
  preserves (log lvl fmt args).
Proof. apply preserves_emit. Qed.

Lemma preserves_native_status (c : native_call) (f : native → Z * native) :
  preserves (native_status c f).
Proof. intros w. apply frame_same; [done | done |]. by apply prefix_app_r. Qed.

Lemma preserves_dict_pop (field : World → gmap Z value)
    (update : gmap Z value → World → World) (k : Z) :
  (∀ m, aside (update m)) → preserves (dict_pop field update k).
Proof. intros Hu w. apply frame_same; apply Hu. Qed.

Lemma preserves_dict_set (field : World → gmap Z value)
    (update : gmap Z value → World → World) (k : Z) (v : value) :
  (∀ m, aside (update m)) → preserves (dict_set field update k v).
Proof. intros Hu w. apply frame_same; apply Hu. Qed.

Lemma aside_set_fd_userdata (m : gmap Z value) : aside (set_fd_userdata m).
Proof. done. Qed.
Lemma aside_set_c_fd_userdata (m : gmap Z value) : aside (set_c_fd_userdata m).
Proof. done. Qed.
Lemma aside_set_pomp_fd_callbacks (m : gmap Z value) :
  aside (set_pomp_fd_callbacks m).
Proof. done. Qed.

Hint Resolve preserves_ret preserves_raise preserves_gets preserves_emit
  preserves_log preserves_native_status preserves_dict_pop preserves_dict_set
  aside_set_fd_userdata aside_set_c_fd_userdata aside_set_pomp_fd_callbacks
  preserves_modify : frame.
Hint Extern 1 (aside _) =>
  (intros ?; split; [| split]; first [reflexivity | by apply prefix_app_r]) : frame.

(** Splits a sequence of statements into its statements. *)
Ltac frame_seq :=
  repeat first
    [ solve [auto with frame]
    | apply preserves_bind; [| intros ?]
    | apply preserves_try_except; [| intros ?]
    | apply preserves_attempt
    | match goal with
      | |- preserves (if ?c then _ else _) => destruct c
      | |- preserves (match ?x with _ => _ end) => destruct x
      end ].

Lemma preserves_register_future (f : value) : preserves (_register_future f).
Proof. by apply preserves_modify. Qed.

Lemma preserves_unregister_future (f : value) (ignore_error : bool) :
  preserves (_unregister_future f ignore_error).
Proof.
  unfold _unregister_future. frame_seq.
Qed.

Lemma preserves_wake_up : preserves _wake_up.
Proof. unfold _wake_up. frame_seq. Qed.

Lemma preserves_wait_and_process : preserves _wait_and_process.
Proof.
  intros w. unfold _wait_and_process. mrun.
  destruct (pomp_loop_wait_and_process _ _).1;
    (apply frame_same; [done | done | by apply prefix_app_r]).
Qed.

Lemma preserves_has_fd (fd : Z) : preserves (_has_fd fd).
Proof. unfold _has_fd. frame_seq. Qed.

Lemma preserves_add_fd_to_loop (fd : Z) (cb : value) (ev : Z) (u : value) :
  preserves (_add_fd_to_loop fd cb ev u).
Proof. unfold _add_fd_to_loop. cbv zeta. frame_seq. Qed.

Lemma preserves_remove_fd_from_loop (fd : Z) :
  preserves (_remove_fd_from_loop fd).
Proof. unfold _remove_fd_from_loop. frame_seq. Qed.

Hint Resolve preserves_register_future preserves_unregister_future
  preserves_wake_up preserves_wait_and_process preserves_has_fd
  preserves_add_fd_to_loop preserves_remove_fd_from_loop : frame.

Lemma preserves_apply_callable (f : callable) (args : list value)
    (kwds : kwargs) :
  preserves (apply_callable f args kwds).
Proof.
  unfold apply_callable.
  destruct f;
    repeat (first
      [ solve [auto with frame]
      | match goal with
        | |- preserves (match ?x with _ => _ end) => destruct x
        | |- preserves (if ?x then _ else _) => destruct x
        end ]).
Qed.

Lemma preserves_call (f : callable) (args : list value) (kwds : kwargs) :
  preserves (call f args kwds).
Proof.
  unfold call. apply preserves_bind; [auto with frame |]. intros _.
  apply preserves_apply_callable.
Qed.

Lemma preserves_get_result (self : nat) : preserves (get_result self).
Proof. unfold get_result. frame_seq. Qed.

Lemma preserves_set_running_or_notify_cancel (self : nat) :
  preserves (set_running_or_notify_cancel self).
Proof.
  intros w. unfold set_running_or_notify_cancel. mrun.
  destruct (fut_state w self) eqn:Hs; try apply frame_refl;
    unfold set_state; mrun; unfold ret; cbn [snd].
  - apply frame_put_future. by rewrite Hs.
  - by apply frame_notify.
Qed.

Lemma preserves_Future_new : preserves Future_new.
Proof.
  intros w. unfold Future_new. mrun. unfold ret; cbn [snd].
  apply (frame_put_future w), fresh_not_done.
Qed.

Hint Resolve preserves_apply_callable preserves_call preserves_get_result
  preserves_set_running_or_notify_cancel preserves_Future_new : frame.

Variable cur : thread.
Variable others : World → World.
Variable invoke : done_callback → nat → M unit.
Hypothesis others_frame : ∀ w, frame w (others w).
Hypothesis invoke_frame : ∀ cb self, preserves (invoke cb self).

Lemma preserves_wait (self : nat) (timeout : option Z) :
  preserves (wait others self timeout).
Proof.
  unfold wait. apply preserves_bind; [auto with frame |]. intros _ w.
  apply others_frame.
Qed.

Lemma preserves_result (self : nat) (timeout : option Z) :
  preserves (result others self timeout).
Proof.
  pose proof preserves_wait.
  unfold result. frame_seq. intros w. apply frame_refl.
Qed.

Lemma preserves_exception (self : nat) (timeout : option Z) :
  preserves (exception others self timeout).
Proof.
  pose proof preserves_wait.
  unfold exception. frame_seq. intros w. apply frame_refl.
Qed.

Lemma preserves_guarded_callback (self : nat) (cb : done_callback) :
  preserves (guarded_callback invoke self cb).
Proof. unfold guarded_callback. frame_seq. Qed.

Lemma preserves_invoke_callbacks (self : nat) :
  preserves (_invoke_callbacks invoke self).
Proof.
  unfold _invoke_callbacks. frame_seq.
  apply preserves_for_each. intros cb. apply preserves_guarded_callback.
Qed.

Hint Resolve preserves_wait preserves_result preserves_exception
  preserves_guarded_callback preserves_invoke_callbacks : frame.

Lemma preserves_cancel (self : nat) : preserves (cancel invoke self).
Proof.
  intros w. unfold cancel. mrun.
  destruct (fut_state w self) eqn:Hs; try apply frame_refl.
  unfold set_state. mrun.
  eapply frame_trans; [apply frame_put_future; by rewrite Hs |].
  apply frame_bind; [apply preserves_invoke_callbacks |].
  intros; apply frame_refl.
Qed.

Lemma preserves_set_result (self : nat) (v : value) :
  preserves (set_result invoke self v).
Proof.
  intros w. unfold set_result. mrun.
  destruct (state_done (fut_state w self)) eqn:Hd; [apply frame_refl |].
  mrun. eapply frame_trans; [by apply frame_put_future |].
  apply preserves_invoke_callbacks.
Qed.

Lemma preserves_set_exception (self : nat) (e : exn) :
  preserves (set_exception invoke self e).
Proof.
  intros w. unfold set_exception. mrun.
  destruct (state_done (fut_state w self)) eqn:Hd; [apply frame_refl |].
  mrun. eapply frame_trans; [by apply frame_put_future |].
  apply preserves_invoke_callbacks.
Qed.

Lemma preserves_add_done_callback (self : nat) (fn : done_callback) :
  preserves (add_done_callback invoke self fn).
Proof.
  intros w. unfold add_done_callback. mrun.
  destruct (state_done (fut_state w self)) eqn:Hd; cbn [negb].
  - apply preserves_guarded_callback.
  - by apply frame_put_future.
Qed.

Hint Resolve preserves_cancel preserves_set_result preserves_set_exception
  preserves_add_done_callback : frame.

Lemma preserves_register (self : nat) : preserves (_register invoke self).
Proof. unfold _register. frame_seq. Qed.

Lemma preserves_set_from_commit (self source : nat) :
  preserves (set_from_commit others invoke self source).
Proof. unfold set_from_commit. frame_seq. Qed.

Lemma preserves_set_from (self source : nat) :
  preserves (set_from others invoke self source).
Proof.
  pose proof preserves_set_from_commit.
  unfold set_from, cancelled, done. frame_seq.
Qed.

Lemma preserves_chain (self next_ : nat) : preserves (chain invoke self next_).
Proof. unfold chain. frame_seq. Qed.

Hint Resolve preserves_register preserves_set_from_commit preserves_set_from
  preserves_chain : frame.

Lemma preserves_then_ (self : nat) (fn : callable) (deferred : bool) :
  preserves (then_ invoke self fn deferred).
Proof. unfold then_. frame_seq. Qed.

Lemma preserves_run_later (func : callable) (args : list value) (kwds : kwargs) :
  preserves (run_later invoke func args kwds).
Proof.
  unfold run_later. frame_seq.
  intros w. split; [by apply prefix_app_r |]. split; [done | by left].
Qed.

Lemma preserves_resolve_with (future : nat) (ret : value) :
  preserves (resolve_with invoke future ret).
Proof. unfold resolve_with. destruct ret; auto with frame. Qed.

Hint Resolve preserves_then_ preserves_run_later preserves_resolve_with : frame.

Lemma preserves_run_async (func : callable) (args : list value) (kwds : kwargs) :
  preserves (run_async cur invoke func args kwds).
Proof. unfold run_async. frame_seq. Qed.

Hint Resolve preserves_run_async : frame.

Lemma preserves_then_callback (self : nat) (fn : callable) (deferred : bool)
    (result_ : nat) :
  preserves (then_callback cur others invoke self fn deferred result_).
Proof. unfold then_callback, Future_logging_exception. frame_seq. Qed.

Lemma preserves_callback_body (cb : done_callback) (self : nat) :
  preserves (callback_body cur others invoke cb self).
Proof.
  pose proof preserves_then_callback.
  unfold callback_body. frame_seq.
Qed.

Lemma preserves_run_task (t : task) (rest : list task) :
  preserves (_run_task invoke Async t rest).
Proof.
  unfold _run_task. destruct t as [[[future f] args] kwds]. frame_seq.
Qed.

Lemma preserves_run_task_list (fuel : nat) :
  preserves (_run_task_list invoke fuel Async).
Proof.
  pose proof preserves_run_task.
  induction fuel as [| fuel IH]; cbn [_run_task_list]; frame_seq;
    intros w; apply frame_refl.
Qed.

End FrameMethods.

(** The frame holds at every depth of nesting. *)
Lemma preserves_invoke_callback (depth : nat) (cur : thread)
    (others : World → World) :
  (∀ w, frame w (others w)) →
  ∀ cb self, preserves (invoke_callback depth cur others cb self).
Proof.
  intros Ho. induction depth as [| depth IH]; intros cb self; cbn [invoke_callback].
  - apply preserves_raise.
  - by apply preserves_callback_body.
Qed.

(** ** How a cascade of done-callbacks ends

    A done-callback is only ever called on a future that is done.  Then
    it returns or raises an Exception: it neither blocks nor lets an
    exception that is no Exception escape.  Hence [_invoke_callbacks],
    which logs the Exceptions, returns normally. *)

Section Outcomes.

Lemma mild_terminates {A : Type} (r : res A) : mild r → terminates r.
Proof. by destruct r. Qed.

Lemma run_bind_ok {A B : Type} (m : M A) (k : A → M B) (w : World) (a : A) :
  (m w).1 = Ok a → bind m k w = k a (m w).2.
Proof. unfold bind. destruct (m w) as [r w1]; simpl. by intros ->. Qed.

Lemma run_bind_raise {A B : Type} (m : M A) (k : A → M B) (w : World) (e : exn) :
  (m w).1 = Raise e → bind m k w = (Raise e, (m w).2).
Proof. unfold bind. destruct (m w) as [r w1]; simpl. by intros ->. Qed.

Lemma frame_done (w w' : World) (r : nat) :
  frame w w' →
  state_done (fut_state w r) = true →
  state_done (fut_state w' r) = true.
Proof.
  intros (_ & _ & Hf) Hd. unfold fut_state in *.
  destruct (Hf r Hd) as [-> | [Hs ->]]; done.
Qed.

(** A future that is FINISHED is the same object after a framed step. *)
Lemma frame_finished (w w' : World) (r : nat) :
  frame w w' →
  fut_state w r = FINISHED →
  get_future w' r = get_future w r.
Proof.
  intros (_ & _ & Hf) Hs.
  destruct (Hf r) as [E | [Hc _]]; [by rewrite Hs | done |].
  unfold fut_state in Hs. congruence.
Qed.

Lemma frame_cancelled (w w' : World) (r : nat) :
  frame w w' →
  state_cancelled (fut_state w r) = true →
  state_cancelled (fut_state w' r) = true.
Proof.
  intros (_ & _ & Hf) Hc. unfold fut_state in *.
  destruct (Hf r) as [-> | [Hs ->]]; try done.
  by destruct (_state (get_future w r)).
Qed.

(** The outcome of a call, whatever the callable. *)
Lemma call_terminates (f : callable) (args : list value) (kwds : kwargs)
    (w : World) :
  terminates (call f args kwds w).1.
Proof.
  unfold call, apply_callable. mrun.
  destruct f;
    repeat (first
      [ done
      | match goal with
        | |- terminates (_ (match ?x with _ => _ end) _).1 => destruct x
        | |- terminates ((match ?x with _ => _ end) _).1 => destruct x
        | |- terminates ((if ?x then _ else _) _).1 => destruct x
        end
      | progress (unfold _has_fd, _add_fd_to_loop, _remove_fd_from_loop; cbv zeta)
      | progress mrun ]).
Qed.

Lemma call_heap (f : callable) (args : list value) (kwds : kwargs) (w : World) :
  heap (call f args kwds w).2 = heap w.
Proof.
  unfold call, apply_callable. mrun.
  destruct f;
    repeat (first
      [ done
      | match goal with
        | |- heap (_ (match ?x with _ => _ end) _).2 = _ => destruct x
        | |- heap ((match ?x with _ => _ end) _).2 = _ => destruct x
        | |- heap ((if ?x then _ else _) _).2 = _ => destruct x
        end
      | progress (unfold _has_fd, _add_fd_to_loop, _remove_fd_from_loop; cbv zeta)
      | progress mrun ]).
Qed.

Lemma frame_fulfilled (w w' : World) (r : nat) (v : value) :
  frame w w' → fulfilled w r v → fulfilled w' r v.
Proof.
  intros Hf (Hs & Hr & He). unfold fulfilled, fut_state.
  by rewrite (frame_finished _ _ _ Hf Hs).
Qed.

Lemma frame_failed (w w' : World) (r : nat) (e : exn) :
  frame w w' → failed w r e → failed w' r e.
Proof.
  intros Hf (Hs & He). unfold failed, fut_state.
  by rewrite (frame_finished _ _ _ Hf Hs).
Qed.

Variable cur : thread.
Variable others : World → World.
Variable invoke : done_callback → nat → M unit.
Hypothesis others_frame : ∀ w, frame w (others w).
Hypothesis invoke_frame : ∀ cb self, preserves (invoke cb self).
Hypothesis invoke_mild :
  ∀ cb self w, state_done (fut_state w self) = true → mild (invoke cb self w).1.

Lemma guarded_callback_ok (self : nat) (cb : done_callback) (w : World) :
  state_done (fut_state w self) = true →
  (guarded_callback invoke self cb w).1 = Ok tt.
Proof.
  intros Hd. unfold guarded_callback, try_except.
  pose proof (invoke_mild cb self w Hd) as Hm.
  destruct (invoke cb self w) as [[[] | e | |] w1]; simpl in *; try done.
  by rewrite Hm.
Qed.

Lemma for_each_guarded_ok (self : nat) (cbs : list done_callback) (w : World) :
  state_done (fut_state w self) = true →
  (for_each cbs (guarded_callback invoke self) w).1 = Ok tt.
Proof.
  revert w. induction cbs as [| cb cbs IH]; intros w Hd; [done |].
  cbn [for_each]. rewrite (run_bind_ok _ _ _ tt) by by apply guarded_callback_ok.
  apply IH. eapply frame_done; [| done].
  by apply preserves_guarded_callback.
Qed.

Lemma invoke_callbacks_ok (self : nat) (w : World) :
  state_done (fut_state w self) = true →
  (_invoke_callbacks invoke self w).1 = Ok tt.
Proof.
  intros Hd. unfold _invoke_callbacks. mrun. by apply for_each_guarded_ok.
Qed.

Lemma fut_state_put_eq (w : World) (r : nat) (o : FutureObj) :
  fut_state (put_future r o w) r = _state o.
Proof. unfold fut_state. by rewrite get_put_future_eq. Qed.

Lemma cancel_result (self : nat) (w : World) :
  (cancel invoke self w).1
  = Ok (negb (bool_decide (fut_state w self = RUNNING
                           ∨ fut_state w self = FINISHED))).
Proof.
  unfold cancel. mrun.
  destruct (fut_state w self) eqn:Hs; unfold ret; cbn [fst];
    try (rewrite bool_decide_eq_true_2 by auto; done);
    try (rewrite bool_decide_eq_false_2 by (intros [|]; done); done).
  unfold set_state. mrun.
  rewrite (run_bind_ok _ _ _ tt).
  - rewrite bool_decide_eq_false_2 by (intros [|]; done). done.
  - apply invoke_callbacks_ok. by rewrite fut_state_put_eq.
Qed.

Lemma set_result_ok (self : nat) (v : value) (w : World) :
  state_done (fut_state w self) = false →
  (set_result invoke self v w).1 = Ok tt.
Proof.
  intros Hd. unfold set_result. mrun. rewrite Hd. mrun.
  apply invoke_callbacks_ok. by rewrite fut_state_put_eq.
Qed.

Lemma set_exception_ok (self : nat) (e : exn) (w : World) :
  state_done (fut_state w self) = false →
  (set_exception invoke self e w).1 = Ok tt.
Proof.
  intros Hd. unfold set_exception. mrun. rewrite Hd. mrun.
  apply invoke_callbacks_ok. by rewrite fut_state_put_eq.
Qed.

(** Resolving a future that is not done. *)
Lemma set_result_fulfils (self : nat) (v : value) (w : World) :
  state_done (fut_state w self) = false →
  _exception (get_future w self) = None →
  (set_result invoke self v w).1 = Ok tt
  ∧ fulfilled (set_result invoke self v w).2 self v.
Proof.
  intros Hd He. split; [by apply set_result_ok |].
  unfold set_result. mrun. rewrite Hd. mrun.
  eapply frame_fulfilled; [apply preserves_invoke_callbacks, invoke_frame |].
  unfold fulfilled. rewrite fut_state_put_eq, get_put_future_eq. by cbn.
Qed.

Lemma set_exception_fails (self : nat) (e : exn) (w : World) :
  state_done (fut_state w self) = false →
  (set_exception invoke self e w).1 = Ok tt
  ∧ failed (set_exception invoke self e w).2 self e.
Proof.
  intros Hd. split; [by apply set_exception_ok |].
  unfold set_exception. mrun. rewrite Hd. mrun.
  eapply frame_failed; [apply preserves_invoke_callbacks, invoke_frame |].
  unfold failed. rewrite fut_state_put_eq, get_put_future_eq. by cbn.
Qed.

Lemma set_result_done (self : nat) (v : value) (w : World) :
  state_done (fut_state w self) = true →
  set_result invoke self v w = (Raise InvalidStateError, w).
Proof. intros Hd. unfold set_result. mrun. by rewrite Hd. Qed.

Lemma set_exception_done (self : nat) (e : exn) (w : World) :
  state_done (fut_state w self) = true →
  set_exception invoke self e w = (Raise InvalidStateError, w).
Proof. intros Hd. unfold set_exception. mrun. by rewrite Hd. Qed.

Lemma set_result_mild (self : nat) (v : value) (w : World) :
  mild (set_result invoke self v w).1.
Proof.
  destruct (state_done (fut_state w self)) eqn:Hd.
  - unfold set_result. mrun. by rewrite Hd.
  - by rewrite set_result_ok.
Qed.

Lemma set_exception_mild (self : nat) (e : exn) (w : World) :
  mild (set_exception invoke self e w).1.
Proof.
  destruct (state_done (fut_state w self)) eqn:Hd.
  - unfold set_exception. mrun. by rewrite Hd.
  - by rewrite set_exception_ok.
Qed.

Lemma add_done_callback_ok (self : nat) (fn : done_callback) (w : World) :
  (add_done_callback invoke self fn w).1 = Ok tt.
Proof.
  unfold add_done_callback. mrun.
  destruct (state_done (fut_state w self)) eqn:Hd; cbn [negb]; [| done].
  by apply guarded_callback_ok.
Qed.

Lemma Future_new_ok (w : World) :
  (Future_new w).1 = Ok (fresh (dom (heap w))).
Proof. done. Qed.

Lemma register_ok (self : nat) (w : World) :
  (_register invoke self w).1 = Ok tt.
Proof. unfold _register. mrun. apply add_done_callback_ok. Qed.

Lemma run_later_ok (func : callable) (args : list value) (kwds : kwargs)
    (w : World) :
  (run_later invoke func args kwds w).1 = Ok (fresh (dom (heap w))).
Proof.
  unfold run_later. mrun.
  rewrite (run_bind_ok _ _ _ tt) by apply register_ok. by mrun.
Qed.

Lemma run_async_foreign_ok (t : nat) (func : callable) (args : list value)
    (kwds : kwargs) (w : World) :
  (run_async (ForeignThread t) invoke func args kwds w).1
  = Ok (fresh (dom (heap w))).
Proof.
  unfold run_async. mrun.
  rewrite (run_bind_ok _ _ _ tt) by apply register_ok.
  cbn [is_loop_thread negb]. mrun. unfold _wake_up. mrun.
  destruct (wakeup_evt _); by mrun.
Qed.

(** Reading the outcome of a future that is done. *)
Lemma result_done (self : nat) (timeout : option Z) (w : World) :
  state_done (fut_state w self) = true →
  result others self timeout w
  = (if state_cancelled (fut_state w self) then Raise CancelledError
     else match _exception (get_future w self) with
          | Some e => Raise e
          | None => Ok (_result (get_future w self))
          end, w).
Proof.
  intros Hd. unfold result. mrun.
  destruct (fut_state w self) eqn:Hs; try done.
  cbn [state_cancelled]. rewrite bool_decide_eq_true_2 by done.
  unfold get_result. mrun. by destruct (_exception _).
Qed.

Lemma exception_done (self : nat) (timeout : option Z) (w : World) :
  state_done (fut_state w self) = true →
  exception others self timeout w
  = (if state_cancelled (fut_state w self) then Raise CancelledError
     else Ok (_exception (get_future w self)), w).
Proof.
  intros Hd. unfold exception. mrun.
  destruct (fut_state w self) eqn:Hs; try done.
Qed.

Lemma exception_finished (self : nat) (timeout : option Z) (w : World) :
  fut_state w self = FINISHED →
  exception others self timeout w = (Ok (_exception (get_future w self)), w).
Proof. intros Hs. rewrite exception_done; by rewrite Hs. Qed.

Lemma result_finished (self : nat) (timeout : option Z) (w : World) :
  fut_state w self = FINISHED →
  _exception (get_future w self) = None →
  result others self timeout w = (Ok (_result (get_future w self)), w).
Proof. intros Hs He. rewrite result_done; by rewrite Hs, ?He. Qed.

(** *** [cancel] and [set_from], case by case *)

Lemma cancel_not_pending (self : nat) (w : World) :
  fut_state w self ≠ PENDING →
  (cancel invoke self w).2 = w.
Proof. intros Hs. unfold cancel. mrun. by destruct (fut_state w self). Qed.

Lemma cancel_pending (self : nat) (w : World) :
  fut_state w self = PENDING →
  (cancel invoke self w).1 = Ok true
  ∧ state_cancelled (fut_state (cancel invoke self w).2 self) = true.
Proof.
  intros Hs. split.
  - rewrite cancel_result, Hs. rewrite bool_decide_eq_false_2; [done |].
    by intros [|].
  - unfold cancel. mrun. rewrite Hs. mrun.
    set (w1 := put_future _ _ _).
    assert (Hc : state_cancelled (fut_state w1 self) = true).
    { unfold w1. by rewrite fut_state_put_eq. }
    pose proof (preserves_invoke_callbacks invoke invoke_frame self w1) as Hf.
    pose proof (frame_cancelled _ _ _ Hf Hc) as Hc'.
    unfold bind. by destruct (_invoke_callbacks invoke self w1) as [[| | |] ?].
Qed.

Lemma set_from_source_cancelled (self source : nat) (w : World) :
  state_cancelled (fut_state w source) = true →
  set_from others invoke self source w = (Ok tt, (cancel invoke self w).2).
Proof.
  intros Hc. unfold set_from, cancelled. mrun. rewrite Hc.
  pose proof (cancel_result self w) as Hr.
  unfold bind. destruct (cancel invoke self w) as [r w1]; simpl in *.
  by rewrite Hr.
Qed.

Lemma set_from_self_done (self source : nat) (w : World) :
  state_cancelled (fut_state w source) = false →
  state_done (fut_state w self) = true →
  set_from others invoke self source w = (Ok tt, w).
Proof.
  intros Hc Hd. unfold set_from, cancelled, done. mrun. rewrite Hc. mrun.
  by rewrite Hd.
Qed.

Lemma set_from_not_done (self source : nat) (w : World) :
  state_cancelled (fut_state w source) = false →
  state_done (fut_state w self) = false →
  set_from others invoke self source w
  = set_from_commit others invoke self source w.
Proof.
  intros Hc Hd. unfold set_from, cancelled, done. mrun. rewrite Hc. mrun.
  by rewrite Hd.
Qed.

(** The interleaving in which a concurrent [cancel] of [self] lands
    between the test [self.done()] and
    [set_running_or_notify_cancel]. *)
Lemma set_from_commit_cancelled (self source : nat) (w : World) :
  fut_state w self = CANCELLED →
  set_from_commit others invoke self source w
  = (Ok tt, put_future self
              (with_state CANCELLED_AND_NOTIFIED (get_future w self)) w).
Proof.
  intros Hs. unfold set_from_commit, set_running_or_notify_cancel. mrun.
  rewrite Hs. by mrun.
Qed.

Lemma set_from_commit_running (self source : nat) (w : World) :
  fut_state w self = RUNNING →
  set_from_commit others invoke self source w
  = (Raise (RuntimeError "Future in unexpected state"), w).
Proof.
  intros Hs. unfold set_from_commit, set_running_or_notify_cancel. mrun.
  rewrite Hs. by mrun.
Qed.

Lemma set_from_commit_pending (self source : nat) (w : World) :
  fut_state w self = PENDING →
  fut_state w source = FINISHED →
  let w1 := put_future self (with_state RUNNING (get_future w self)) w in
  set_from_commit others invoke self source w
  = match _exception (get_future w source) with
    | Some e => set_exception invoke self e w1
    | None => set_result invoke self (_result (get_future w source)) w1
    end.
Proof.
  intros Hs Hsrc w1.
  assert (Hne : self ≠ source) by (intros ->; congruence).
  assert (Hg : get_future w1 source = get_future w source)
    by by apply get_put_future_ne.
  assert (Hs1 : fut_state w1 source = FINISHED)
    by (unfold fut_state; by rewrite Hg).
  unfold set_from_commit, set_running_or_notify_cancel. mrun.
  rewrite Hs. mrun. fold w1.
  unfold bind at 1. rewrite exception_finished by done. rewrite Hg.
  destruct (_exception (get_future w source)) eqn:E; [done |].
  unfold bind. rewrite result_finished by (by rewrite ?Hg). by rewrite Hg.
Qed.

(** What [set_from] copies into a pending [self] from a source that is
    FINISHED. *)
Lemma set_from_copies (self source : nat) (w : World) :
  fut_state w self = PENDING →
  fut_state w source = FINISHED →
  let w' := (set_from others invoke self source w).2 in
  (set_from others invoke self source w).1 = Ok tt
  ∧ fut_state w' self = FINISHED
  ∧ _exception (get_future w' self)
    = match _exception (get_future w source) with
      | Some e => Some e
      | None => _exception (get_future w self)
      end
  ∧ _result (get_future w' self)
    = match _exception (get_future w source) with
      | Some e => _result (get_future w self)
      | None => _result (get_future w source)
      end.
Proof.
  intros Hs Hsrc.
  rewrite set_from_not_done by (by rewrite ?Hs, ?Hsrc).
  rewrite set_from_commit_pending by done.
  set (w1 := put_future self _ w).
  assert (Hnd : state_done (fut_state w1 self) = false).
  { unfold w1. by rewrite fut_state_put_eq. }
  destruct (_exception (get_future w source)) as [e |].
  - split; [by apply set_exception_ok |].
    unfold set_exception. mrun. rewrite Hnd. mrun.
    set (w2 := put_future self _ w1).
    assert (Hf : fut_state w2 self = FINISHED).
    { unfold w2. by rewrite fut_state_put_eq. }
    pose proof (preserves_invoke_callbacks invoke invoke_frame self w2) as Hfr.
    unfold fut_state. rewrite (frame_finished _ _ _ Hfr Hf).
    unfold w2. rewrite get_put_future_eq. cbn.
    unfold w1. by rewrite get_put_future_eq.
  - split; [by apply set_result_ok |].
    unfold set_result. mrun. rewrite Hnd. mrun.
    set (w2 := put_future self _ w1).
    assert (Hf : fut_state w2 self = FINISHED).
    { unfold w2. by rewrite fut_state_put_eq. }
    pose proof (preserves_invoke_callbacks invoke invoke_frame self w2) as Hfr.
    unfold fut_state. rewrite (frame_finished _ _ _ Hfr Hf).
    unfold w2. rewrite get_put_future_eq. cbn.
    unfold w1. by rewrite get_put_future_eq.
Qed.

Lemma set_from_mild (self source : nat) (w : World) :
  state_done (fut_state w source) = true →
  mild (set_from others invoke self source w).1.
Proof.
  intros Hd.
  destruct (state_cancelled (fut_state w source)) eqn:Hc.
  { by rewrite set_from_source_cancelled. }
  destruct (state_done (fut_state w self)) eqn:Hsd.
  { by rewrite set_from_self_done. }
  rewrite set_from_not_done by done.
  assert (Hsrc : fut_state w source = FINISHED)
    by by destruct (fut_state w source).
  destruct (fut_state w self) eqn:Hs; try done.
  - rewrite set_from_commit_pending by done.
    destruct (_exception _); [apply set_exception_mild | apply set_result_mild].
  - by rewrite set_from_commit_running.
Qed.

Lemma try_except_any_mild {A : Type} (m : M A) (handler : exn → M A)
    (w : World) :
  terminates (m w).1 →
  (∀ e, (m w).1 = Raise e → mild (handler e (m w).2).1) →
  mild (try_except m any_exception handler w).1.
Proof.
  unfold try_except. destruct (m w) as [[a | e | |] w1]; simpl; try done.
  intros _ H. by apply H.
Qed.

Lemma chain_ok (self next_ : nat) (w : World) :
  (chain invoke self next_ w).1 = Ok tt.
Proof. apply add_done_callback_ok. Qed.

Lemma then_callback_mild (self : nat) (fn : callable) (deferred : bool)
    (result_ : nat) (w : World) :
  state_done (fut_state w self) = true →
  mild (then_callback cur others invoke self fn deferred result_ w).1.
Proof.
  intros Hd. unfold then_callback. apply try_except_any_mild.
  - assert (Hr : ∀ {B} (k : value → M B),
        (∀ v w', terminates (k v w').1) →
        terminates (bind (result others self None) k w).1).
    { intros B k Hk. unfold bind. rewrite result_done by done.
      destruct (state_cancelled _); [done |].
      destruct (_exception _); [done | apply Hk]. }
    destruct deferred; [| destruct (negb (is_loop_thread cur)) eqn:Hcur].
    + apply Hr. intros v w'.
      rewrite (run_bind_ok _ _ _ _ (run_later_ok _ _ _ _)).
      by rewrite chain_ok.
    + apply Hr. intros v w'. destruct cur as [| t]; [done |].
      rewrite (run_bind_ok _ _ _ _ (run_async_foreign_ok _ _ _ _ _)).
      by rewrite chain_ok.
    + apply Hr. intros v w'. unfold bind.
      pose proof (call_terminates fn [v] [] w') as Hc.
      destruct (call fn [v] [] w') as [[r | e | |] w2]; try done.
      apply mild_terminates, set_result_mild.
  - intros e _. destruct (is_Exception e); [done |].
    pose proof (cancel_result result_ (
      (if deferred
       then bind (result others self None)
              (λ v, bind (run_later invoke fn [v] [])
                      (λ temp, chain invoke temp result_))
       else if negb (is_loop_thread cur)
       then bind (result others self None)
              (λ v, bind (run_async cur invoke fn [v] [])
                      (λ temp, chain invoke temp result_))
       else bind (result others self None)
              (λ v, bind (call fn [v] [])
                      (λ r, set_result invoke result_ r))) w).2) as Hr.
    unfold bind at 1. destruct (cancel invoke result_ _) as [r w1]; simpl in *.
    by rewrite Hr.
Qed.

Lemma callback_body_mild (cb : done_callback) (self : nat) (w : World) :
  state_done (fut_state w self) = true →
  mild (callback_body cur others invoke cb self w).1.
Proof.
  intros Hd. destruct cb; cbn [callback_body].
  - unfold _unregister_future. mrun. by destruct (list_remove _ _).
  - by apply set_from_mild.
  - by apply then_callback_mild.
Qed.

End Outcomes.

Lemma invoke_callback_mild (depth : nat) (cur : thread)
    (others : World → World) :
  (∀ w, frame w (others w)) →
  ∀ cb self w,
    state_done (fut_state w self) = true →
    mild (invoke_callback depth cur others cb self w).1.
Proof.
  intros Ho. induction depth as [| depth IH]; intros cb self w Hd;
    cbn [invoke_callback]; [done |].
  apply callback_body_mild; auto using preserves_invoke_callback.
Qed.

(** ** Chained futures *)

Section Chaining.
Variable depth : nat.
Variable cur : thread.
Variable others : World → World.
Hypothesis others_frame : ∀ w, frame w (others w).

(** The done-callbacks of the future that is being resolved run one
    level below the caller, their own cascades below that. *)
Local Abbreviation inv := (invoke_callback depth cur others).
Local Abbreviation inv1 := (invoke_callback (S depth) cur others).

Lemma inv_frame (d : nat) (cb : done_callback) (self : nat) :
  preserves (invoke_callback d cur others cb self).
Proof. by apply preserves_invoke_callback. Qed.

Lemma inv_mild (d : nat) (cb : done_callback) (self : nat) (w : World) :
  state_done (fut_state w self) = true →
  mild (invoke_callback d cur others cb self w).1.
Proof. by apply invoke_callback_mild. Qed.

Lemma try_except_ok {A : Type} (m : M A) (catches : exn → bool)
    (handler : exn → M A) (w : World) (a : A) :
  (m w).1 = Ok a → try_except m catches handler w = m w.
Proof.
  unfold try_except. destruct (m w) as [[| | |] w1]; simpl; by intros.
Qed.

Lemma bind_ext {A B : Type} (m : M A) (k1 k2 : A → M B) (w : World) :
  (∀ a w', k1 a w' = k2 a w') → bind m k1 w = bind m k2 w.
Proof. intros H. unfold bind. by destruct (m w) as [[| | |] ?]. Qed.

Lemma for_each_app {A : Type} (l1 l2 : list A) (body : A → M unit) (w : World) :
  for_each (l1 ++ l2) body w
  = bind (for_each l1 body) (λ _, for_each l2 body) w.
Proof.
  revert w. induction l1 as [| x l1 IH]; intros w; [done |].
  cbn [app for_each]. rewrite run_bind_assoc. apply bind_ext.
  intros _ w'. apply IH.
Qed.

(** The callback of [_register] only edits the list of live futures. *)
Lemma guarded_unregister (self : nat) (w : World) :
  (guarded_callback inv1 self CbUnregister w).1 = Ok tt
  ∧ heap (guarded_callback inv1 self CbUnregister w).2 = heap w.
Proof.
  unfold guarded_callback, try_except.
  cbn [invoke_callback callback_body]. unfold _unregister_future. mrun.
  by destruct (list_remove _ _).
Qed.

Lemma for_each_unregister (self : nat) (cbs : list done_callback) (w : World) :
  Forall (λ cb, cb = CbUnregister) cbs →
  (for_each cbs (guarded_callback inv1 self) w).1 = Ok tt
  ∧ heap (for_each cbs (guarded_callback inv1 self) w).2 = heap w.
Proof.
  intros Hall. revert w. induction Hall as [| cb cbs -> _ IH]; intros w; [done |].
  cbn [for_each].
  destruct (guarded_unregister self w) as [H1 H2].
  rewrite (run_bind_ok _ _ _ tt H1).
  destruct (IH (guarded_callback inv1 self CbUnregister w).2) as [H3 H4].
  split; [done | congruence].
Qed.

Lemma get_future_heap (w w' : World) (r : nat) :
  heap w' = heap w → get_future w' r = get_future w r.
Proof. unfold get_future. by intros ->. Qed.

(** The cascade of a future [a] whose callbacks are those of
    [_register] followed by the one of [a.chain(b)]. *)
Lemma cascade_into_chained (a b : nat) (cbs : list done_callback) (w : World) :
  _done_callbacks (get_future w a) = cbs ++ [CbSetFrom b] →
  Forall (λ cb, cb = CbUnregister) cbs →
  ∃ w1, heap w1 = heap w
        ∧ (_invoke_callbacks inv1 a w).2
          = (guarded_callback inv1 a (CbSetFrom b) w1).2.
Proof.
  intros Hcbs Hall. unfold _invoke_callbacks. mrun. rewrite Hcbs.
  rewrite for_each_app.
  destruct (for_each_unregister a cbs w Hall) as [H1 H2].
  rewrite (run_bind_ok _ _ _ tt H1).
  eexists; split; [exact H2 |].
  cbn [for_each]. unfold bind.
  by destruct (guarded_callback _ _ _ _) as [[[] | | |] ?].
Qed.

Lemma chain_appends (invoke : done_callback → nat → M unit) (a b : nat)
    (w : World) :
  state_done (fut_state w a) = false →
  chain invoke a b w
  = (Ok tt, put_future a
              (mkFuture (_state (get_future w a)) (_result (get_future w a))
                 (_exception (get_future w a))
                 (_done_callbacks (get_future w a) ++ [CbSetFrom b])) w).
Proof.
  intros Hd. unfold chain, add_done_callback. mrun. by rewrite Hd.
Qed.

(** [a.chain(b)], then [a] is resolved with [v]: [b] is resolved with
    [v]. *)
Lemma chain_propagates_result (a b : nat) (v : value) (w : World) :
  pending w a →
  Forall (λ cb, cb = CbUnregister) (_done_callbacks (get_future w a)) →
  pending w b →
  fulfilled (set_result inv1 a v (chain inv1 a b w).2).2 b v.
Proof.
  intros [Hsa Hea] Hall [Hsb Heb].
  rewrite chain_appends by by rewrite Hsa.
  cbn [snd]. set (w1 := put_future a _ w).
  assert (Hs1 : fut_state w1 a = PENDING).
  { unfold w1. rewrite fut_state_put_eq. exact Hsa. }
  destruct (decide (a = b)) as [<- | Hne].
  { apply set_result_fulfils; [apply inv_frame | apply inv_mild | |].
    - by rewrite Hs1.
    - unfold w1. by rewrite get_put_future_eq. }
  unfold set_result. mrun. rewrite Hs1. cbn [state_done]. mrun.
  set (w2 := put_future a _ w1).
  edestruct (cascade_into_chained a b) as (w3 & Hh & ->); [| exact Hall |].
  { unfold w2. rewrite get_put_future_eq. cbn. unfold w1.
    by rewrite get_put_future_eq. }
  assert (Hb3 : get_future w3 b = get_future w b).
  { rewrite (get_future_heap _ _ _ Hh). unfold w2, w1.
    by rewrite !get_put_future_ne. }
  assert (Ha3 : get_future w3 a
                = mkFuture FINISHED v None
                    (_done_callbacks (get_future w a) ++ [CbSetFrom b])).
  { rewrite (get_future_heap _ _ _ Hh). unfold w2.
    rewrite get_put_future_eq. unfold w1. rewrite get_put_future_eq. cbn.
    by rewrite Hea. }
  unfold guarded_callback. cbn [invoke_callback callback_body].
  destruct (set_from_copies others inv (inv_frame depth) (inv_mild depth) b a w3)
    as (Hok & Hs & He & Hr).
  { unfold fut_state. by rewrite Hb3. }
  { unfold fut_state. by rewrite Ha3. }
  rewrite (try_except_ok _ _ _ _ tt Hok).
  rewrite Ha3 in He, Hr. cbn in He, Hr. rewrite Hb3, Heb in He.
  done.
Qed.

(** [a.chain(b)], then [a] is cancelled: [b] is cancelled. *)
Lemma chain_propagates_cancel (a b : nat) (w : World) :
  pending w a →
  Forall (λ cb, cb = CbUnregister) (_done_callbacks (get_future w a)) →
  pending w b →
  is_cancelled (cancel inv1 a (chain inv1 a b w).2).2 b.
Proof.
  intros [Hsa Hea] Hall [Hsb Heb].
  rewrite chain_appends by by rewrite Hsa.
  cbn [snd]. set (w1 := put_future a _ w).
  assert (Hs1 : fut_state w1 a = PENDING).
  { unfold w1. rewrite fut_state_put_eq. exact Hsa. }
  destruct (decide (a = b)) as [<- | Hne].
  { by apply cancel_pending; [apply inv_frame | apply inv_mild |]. }
  unfold cancel. mrun. rewrite Hs1. mrun.
  set (w2 := put_future a _ w1).
  assert (Hw : ∀ r : bool, (bind (_invoke_callbacks inv1 a) (λ _, ret r) w2).2
               = (_invoke_callbacks inv1 a w2).2).
  { intros r. unfold bind. by destruct (_invoke_callbacks _ _ _) as [[| | |] ?]. }
  rewrite Hw.
  edestruct (cascade_into_chained a b) as (w3 & Hh & ->); [| exact Hall |].
  { unfold w2. rewrite get_put_future_eq. cbn. unfold w1.
    by rewrite get_put_future_eq. }
  assert (Hb3 : fut_state w3 b = PENDING).
  { unfold fut_state. rewrite (get_future_heap _ _ _ Hh). unfold w2, w1.
    by rewrite !get_put_future_ne. }
  assert (Ha3 : state_cancelled (fut_state w3 a) = true).
  { unfold fut_state. rewrite (get_future_heap _ _ _ Hh). unfold w2.
    by rewrite get_put_future_eq. }
  unfold guarded_callback. cbn [invoke_callback callback_body].
  rewrite (try_except_ok _ _ _ _ tt)
    by by rewrite set_from_source_cancelled;
         [| apply inv_frame | apply inv_mild |].
  rewrite set_from_source_cancelled by
    (first [ exact Ha3 | apply inv_frame | apply inv_mild ]).
  cbn [snd].
  by apply cancel_pending; [apply inv_frame | apply inv_mild |].
Qed.


End Chaining.

(** ** The task lists *)

Section TaskList.
Variable depth : nat.
Variable others : World → World.
Hypothesis others_frame : ∀ w, frame w (others w).

(** The loop thread drains the queues. *)
Local Abbreviation inv := (invoke_callback depth LoopThread others).

Lemma run_task_list_step (fuel : nat) (q : queue) (t : task)
    (rest : list task) (w : World) :
  queue_get q w = t :: rest →
  _run_task_list inv (S fuel) q w
  = bind (_run_task inv q t rest) (λ _, _run_task_list inv fuel q) w.
Proof. intros Hq. cbn [_run_task_list]. mrun. by rewrite Hq. Qed.

Lemma run_task_list_empty (fuel : nat) (q : queue) (w : World) :
  queue_get q w = [] → _run_task_list inv fuel q w = (Ok tt, w).
Proof. intros Hq. destruct fuel; cbn [_run_task_list]; mrun; by rewrite Hq. Qed.

(** [_run_task] by the outcome of the callable. *)
Lemma run_task_returned (q : queue) (future : nat) (f : callable)
    (args : list value) (kwds : kwargs) (rest : list task) (w : World)
    (rv : value) :
  (call f args kwds (queue_set q rest w)).1 = Ok rv →
  _run_task inv q (future, f, args, kwds) rest w
  = resolve_with inv future rv (call f args kwds (queue_set q rest w)).2.
Proof.
  intros Hc. unfold _run_task. mrun.
  unfold attempt, try_except, bind at 1 2, ret.
  destruct (call f args kwds _) as [r w1]; simpl in *. by subst r.
Qed.

Lemma run_task_raised (q : queue) (future : nat) (f : callable)
    (args : list value) (kwds : kwargs) (rest : list task) (w : World)
    (e : exn) :
  (call f args kwds (queue_set q rest w)).1 = Raise e →
  is_Exception e = true →
  _run_task inv q (future, f, args, kwds) rest w
  = bind (log EXCEPTION "Unhandled exception in async task function" [])
      (λ _, bind (_unregister_future (VFuture future) true)
              (λ _, set_exception inv future e))
      (call f args kwds (queue_set q rest w)).2.
Proof.
  intros Hc He. unfold _run_task. mrun.
  unfold attempt, try_except, bind at 1 2, ret.
  destruct (call f args kwds _) as [r w1]; simpl in *. subst r.
  by rewrite He.
Qed.

Lemma call_get_future (f : callable) (args : list value) (kwds : kwargs)
    (q : queue) (rest : list task) (w : World) (r : nat) :
  get_future (call f args kwds (queue_set q rest w)).2 r = get_future w r.
Proof.
  apply get_future_heap. rewrite call_heap. by destruct q.
Qed.

Lemma unregister_future_heap (f : value) (w : World) :
  (_unregister_future f true w).1 = Ok tt
  ∧ heap (_unregister_future f true w).2 = heap w
  ∧ ∃ l, (_unregister_future f true w).2 = set_futures l w.
Proof.
  unfold _unregister_future. mrun.
  destruct (list_remove f (futures w)) as [l |]; cbn.
  - eauto.
  - repeat split. exists (futures w). by destruct w.
Qed.

(** The turn of a task whose callable returns a plain value. *)
Lemma run_task_fulfils (q : queue) (future : nat) (f : callable)
    (args : list value) (kwds : kwargs) (rest : list task) (w : World)
    (v : value) :
  pending w future →
  (call f args kwds (queue_set q rest w)).1 = Ok v →
  is_Future v = false →
  (_run_task inv q (future, f, args, kwds) rest w).1 = Ok tt
  ∧ fulfilled (_run_task inv q (future, f, args, kwds) rest w).2 future v.
Proof.
  intros [Hs He] Hc Hv.
  pose proof (inv_frame LoopThread others others_frame depth) as Hfr.
  pose proof (inv_mild LoopThread others others_frame depth) as Hmi.
  rewrite (run_task_returned _ _ _ _ _ _ _ v Hc).
  replace (resolve_with inv future v) with (set_result inv future v)
    by (by destruct v).
  apply set_result_fulfils; auto.
  - unfold fut_state. rewrite call_get_future.
    fold (fut_state w future). by rewrite Hs.
  - by rewrite call_get_future.
Qed.


(** After [pop(0)], a turn of [_run_task_list] respects the frame. *)
Lemma run_task_frame (q : queue) (t : task) (rest : list task) (w : World) :
  frame (queue_set q rest w) (_run_task inv q t rest w).2.
Proof.
  pose proof (inv_frame LoopThread others others_frame depth) as Hfr.
  destruct t as [[[future f] args] kwds]. unfold _run_task. mrun.
  generalize (queue_set q rest w). apply preserves_bind.
  - apply preserves_attempt, preserves_call.
  - intros [e | v].
    + apply preserves_bind; [apply preserves_log |]. intros _.
      apply preserves_bind; [apply preserves_unregister_future |]. intros _.
      by apply preserves_set_exception.
    + by apply preserves_resolve_with.
Qed.

Lemma run_attempt_emit {A B : Type} (catches : exn → bool) (ev : event)
    (m : M A) (k : exn + A → M B) (w : World) :
  bind (attempt catches (bind (emit ev) (λ _, m))) k w
  = bind (attempt catches m) k (set_trace (trace w ++ [ev]) w).
Proof. reflexivity. Qed.

(** A turn starts with the call of the callable. *)
Lemma run_task_calls (q : queue) (future : nat) (f : callable)
    (args : list value) (kwds : kwargs) (rest : list task) (w : World) :
  ∃ t, trace (_run_task inv q (future, f, args, kwds) rest w).2
       = trace w ++ EvCall f args kwds :: t.
Proof.
  pose proof (inv_frame LoopThread others others_frame depth) as Hfr.
  unfold _run_task. mrun. unfold call.
  rewrite run_attempt_emit.
  set (w1 := set_trace _ (queue_set q rest w)).
  assert (Ht1 : trace w1 = trace w ++ [EvCall f args kwds]) by by destruct q.
  match goal with
  | |- ∃ t, trace (?m w1).2 = _ =>
      assert (Hp : preserves m); [| destruct (Hp w1) as (_ & [t Ht] & _)]
  end.
  { apply preserves_bind.
    - apply preserves_attempt, preserves_apply_callable.
    - intros [e | v].
      + apply preserves_bind; [apply preserves_log |]. intros _.
        apply preserves_bind; [apply preserves_unregister_future |]. intros _.
        by apply preserves_set_exception.
      + by apply preserves_resolve_with. }
  exists t. rewrite Ht, Ht1. by rewrite <- app_assoc.
Qed.

(** Draining the deferred queue: when the drain returns, the queue is
    empty and every task that was in it has been called. *)
Lemma run_task_list_deferred (fuel : nat) (w : World) :
  (_run_task_list inv fuel Deferred w).1 = Ok tt →
  deferred_pomp_task (_run_task_list inv fuel Deferred w).2 = []
  ∧ ∃ t, trace (_run_task_list inv fuel Deferred w).2 = trace w ++ t
         ∧ ∀ future f args kwds,
             (future, f, args, kwds) ∈ deferred_pomp_task w →
             EvCall f args kwds ∈ t.
Proof.
  revert w. induction fuel as [| fuel IH]; intros w.
  - cbn [_run_task_list]. mrun.
    destruct (deferred_pomp_task w) as [| t rest] eqn:Hq; [| done].
    intros _. cbn. split; [done |]. exists []. rewrite app_nil_r.
    split; [done |]. intros ? ? ? ? H. by apply elem_of_nil in H.
  - destruct (deferred_pomp_task w) as [| t rest] eqn:Hq.
    + rewrite run_task_list_empty by done. intros _. cbn.
      split; [done |]. exists []. rewrite app_nil_r.
      split; [done |]. intros ? ? ? ? H. by apply elem_of_nil in H.
    + rewrite (run_task_list_step fuel Deferred t rest w Hq).
      destruct t as [[[future0 f0] args0] kwds0].
      pose proof (run_task_frame Deferred (future0, f0, args0, kwds0) rest w)
        as (Hpre & _ & _).
      destruct (run_task_calls Deferred future0 f0 args0 kwds0 rest w)
        as [t1 Ht1].
      unfold bind.
      destruct (_run_task inv Deferred (future0, f0, args0, kwds0) rest w)
        as [[[] | | |] w1]; try done.
      cbn [snd] in *. intros Hok.
      destruct (IH w1 Hok) as (Hemp & t2 & Ht2 & Hall).
      split; [done |].
      exists ((EvCall f0 args0 kwds0 :: t1) ++ t2).
      split; [by rewrite Ht2, Ht1, <- app_assoc |].
      intros future f args kwds Hin.
      apply elem_of_cons in Hin as [Heq | Hin].
      * injection Heq as -> -> -> ->. apply elem_of_app. left.
        apply elem_of_cons. by left.
      * apply elem_of_app. right. apply (Hall future).
        destruct Hpre as [k Hk]. rewrite Hk. apply elem_of_app. by left.
Qed.

End TaskList.

(** ** Submission and shutdown *)

Section Submission.

Lemma get_future_set_futures (l : list value) (w : World) (r : nat) :
  get_future (set_futures l w) r = get_future w r.
Proof. done. Qed.

(** The store that [run_later] leaves. *)
Lemma run_later_world (invoke : done_callback → nat → M unit) (func : callable)
    (args : list value) (kwds : kwargs) (w : World) :
  let r := fresh (dom (heap w)) in
  run_later invoke func args kwds w
  = (Ok r,
     set_deferred_pomp_task (deferred_pomp_task w ++ [(r, func, args, kwds)])
       (put_future r (mkFuture PENDING VNone None [CbUnregister])
          (set_futures (futures w ++ [id_of r])
             (put_future r new_future w)))).
Proof.
  intros r. unfold run_later, _register, add_done_callback. mrun. fold r.
  unfold fut_state. rewrite !get_future_set_futures, !get_put_future_eq.
  cbn [new_future _state state_done negb _result _exception _done_callbacks app].
  mrun. by rewrite !get_future_set_futures, !get_put_future_eq.
Qed.

(** C8. [run_later], whoever calls it (the method does not look at the
    calling thread), returns at once a new Future that is still
    pending, having appended exactly one task entry at the tail of the
    deferred queue: the immediate queue, the native state and the trace
    are as before, so that the callable was not called and the
    wake-event was not signalled.  In an iteration of the loop the entry
    is still in its place in the deferred queue once the wait and the
    drain of the immediate queue are over; what is left of the iteration
    is the drain of the deferred queue, and when that drain returns the
    queue is empty and the callable has been called on its arguments. *)
Theorem run_later_defers (invoke : done_callback → nat → M unit)
    (func : callable) (args : list value) (kwds : kwargs) (w : World) :
  let r := fresh (dom (heap w)) in
  let out := run_later invoke func args kwds w in
  out.1 = Ok r
  ∧ deferred_pomp_task out.2 = deferred_pomp_task w ++ [(r, func, args, kwds)]
  ∧ async_pomp_task out.2 = async_pomp_task w
  ∧ trace out.2 = trace w
  ∧ pomp out.2 = pomp w
  ∧ (r ∉ dom (heap w))
  ∧ pending out.2 r
  ∧ (∀ r', r' ≠ r → get_future out.2 r' = get_future w r')
  ∧ ∀ (depth fuel : nat) (others : World → World),
      (∀ w0, frame w0 (others w0)) →
      let inv := invoke_callback depth LoopThread others in
      let first :=
        bind wait_and_process_logged
          (λ _, _run_task_list inv fuel Async) out.2 in
      ((deferred_pomp_task w ++ [(r, func, args, kwds)])
         `prefix_of` deferred_pomp_task first.2)
      ∧ (first.1 = Ok tt →
           run_iteration inv fuel out.2
           = _run_task_list inv fuel Deferred first.2)
      ∧ ((run_iteration inv fuel out.2).1 = Ok tt →
           deferred_pomp_task (run_iteration inv fuel out.2).2 = []
           ∧ ∃ t, trace (run_iteration inv fuel out.2).2 = trace first.2 ++ t
                  ∧ EvCall func args kwds ∈ t).
Proof.
  intros r out. unfold out. rewrite run_later_world. fold r. cbn [fst snd].
  set (w1 := set_deferred_pomp_task _ _).
  split; [done |]. split; [done |]. split; [done |]. split; [done |].
  split; [done |]. split; [apply is_fresh |].
  split; [| split].
  { unfold pending, fut_state, w1, get_future. cbn.
    by rewrite lookup_insert_eq. }
  { intros r' Hne. unfold w1, get_future. cbn.
    by rewrite !lookup_insert_ne. }
  intros depth fuel others Hof.
  set (inv := invoke_callback depth LoopThread others).
  set (first := bind _ _ w1).
  assert (Hq1 : deferred_pomp_task w1
                = deferred_pomp_task w ++ [(r, func, args, kwds)]) by done.
  assert (Hfirst : frame w1 first.2).
  { unfold first. apply preserves_bind.
    - apply preserves_try_except;
        [apply preserves_wait_and_process | intros; apply preserves_log].
    - intros _. apply preserves_run_task_list.
      by apply preserves_invoke_callback. }
  assert (Hrun : run_iteration inv fuel w1
                 = bind (λ w0, (bind wait_and_process_logged
                             (λ _, _run_task_list inv fuel Async) w0))
                     (λ _, _run_task_list inv fuel Deferred) w1).
  { unfold run_iteration. by rewrite run_bind_assoc. }
  split; [| split].
  - rewrite <- Hq1. apply Hfirst.
  - intros Hok. rewrite Hrun. unfold bind at 1. fold first.
    destruct first as [rf wf]. cbn in Hok. by subst rf.
  - intros Hok.
    assert (Hri : first.1 = Ok tt →
                  run_iteration inv fuel w1
                  = _run_task_list inv fuel Deferred first.2).
    { intros Hok1. rewrite Hrun. unfold bind at 1. fold first.
      destruct first as [rf wf]. cbn in Hok1. by subst rf. }
    assert (Hf1 : first.1 = Ok tt).
    { rewrite Hrun in Hok. unfold bind at 1 in Hok. fold first in Hok.
      by destruct first as [[[] | | |] wf]. }
    rewrite (Hri Hf1) in Hok |- *.
    destruct (run_task_list_deferred depth others Hof fuel first.2 Hok)
      as (Hemp & t & Ht & Hall).
    split; [exact Hemp |]. exists t. split; [exact Ht |].
    apply (Hall r). destruct Hfirst as ([k Hk] & _). rewrite Hk, Hq1.
    apply elem_of_app. left. apply elem_of_app. right.
    apply elem_of_cons. by left.
Qed.

(** C6. [stop] answers False and changes nothing when the loop is not
    running.  Otherwise it answers True after setting [running] to
    False; called from the loop thread it does nothing else; called from
    another thread it signals the wake-event and then joins the loop
    thread, whose exit is what the caller waits for. *)
Theorem stop_joins_unless_loop_thread (cur : thread) (others : World → World)
    (w : World) :
  (running w = false → stop cur others w = (Ok (VBool false), w))
  ∧ (running w = true →
       (stop cur others w).1 = Ok (VBool true)
       ∧ (cur = LoopThread → (stop cur others w).2 = set_running false w)
       ∧ (cur ≠ LoopThread →
            (stop cur others w).2
            = others
                match wakeup_evt w with
                | Some evt =>
                    set_trace
                      (trace w ++ [EvNative (Pomp_evt_signal evt); EvJoin])
                      (set_pomp (pomp_evt_signal evt (pomp w))
                         (set_running false w))
                | None =>
                    set_trace (trace w ++ [EvJoin]) (set_running false w)
                end)).
Proof.
  split; intros Hr; unfold stop; mrun; rewrite Hr; cbn [negb]; [done |].
  mrun. destruct cur as [| i]; cbn [is_loop_thread negb].
  - by mrun.
  - unfold _wake_up, join. mrun. split; [| split; [done |]].
    + by destruct (wakeup_evt w); mrun.
    + intros _. destruct (wakeup_evt w); mrun; unfold ret; cbn [snd];
        by rewrite <- ?app_assoc.
Qed.

End Submission.

(** ** [has_fd] *)

Section HasFd.

Lemma never_timeout {A : Type} (m : M A) (v : A) (w : World) :
  (try_except m (only TimeoutError) (λ _, ret v) w).1 ≠ Raise TimeoutError.
Proof.
  unfold try_except, only. destruct (m w) as [[a | e | |] w1]; try done.
  case_bool_decide as He; [done |]. cbn. congruence.
Qed.

Lemma register_new (invoke : done_callback → nat → M unit) (w : World) :
  let r := fresh (dom (heap w)) in
  _register invoke r (put_future r new_future w) = (Ok tt, registered r w).
Proof.
  intros r. unfold _register, add_done_callback, registered. mrun.
  unfold fut_state. rewrite !get_future_set_futures, !get_put_future_eq.
  cbn [new_future _state state_done negb _result _exception _done_callbacks app].
  unfold modify.
  by rewrite !get_future_set_futures, !get_put_future_eq.
Qed.

Lemma registered_pending (w : World) :
  pending (registered (fresh (dom (heap w))) w) (fresh (dom (heap w))).
Proof.
  unfold pending, fut_state, registered. by rewrite !get_put_future_eq.
Qed.

Lemma run_async_foreign_world (i : nat) (invoke : done_callback → nat → M unit)
    (func : callable) (args : list value) (kwds : kwargs) (w : World) :
  let r := fresh (dom (heap w)) in
  run_async (ForeignThread i) invoke func args kwds w
  = (Ok r, submitted r (r, func, args, kwds) w).
Proof.
  cbv zeta. unfold run_async. mrun.
  rewrite (run_bind_ok _ _ _ tt) by by rewrite register_new.
  rewrite register_new. cbn [snd is_loop_thread negb]. mrun.
  unfold _wake_up, submitted, woken. mrun.
  by destruct (wakeup_evt _); mrun.
Qed.

Lemma get_future_woken (w : World) (r : nat) :
  get_future (woken w) r = get_future w r.
Proof. unfold woken. by destruct (wakeup_evt w). Qed.

Lemma submitted_pending (t : task) (w : World) :
  pending (submitted (fresh (dom (heap w))) t w) (fresh (dom (heap w))).
Proof.
  pose proof (registered_pending w) as [Hs He].
  unfold pending, fut_state, submitted. rewrite get_future_woken.
  split; [exact Hs | exact He].
Qed.

Lemma call_has_fd (fd : Z) (w : World) :
  (call Method_has_fd [VInt fd] [] w).1
  = Ok (VBool (Z.eqb (pomp_loop_has_fd fd (pomp w)) 1)).
Proof. done. Qed.

Section Caller.
Variable depth : nat.
Variable cur : thread.
Variable others : World → World.
Hypothesis others_frame : ∀ w, frame w (others w).
Local Abbreviation inv := (invoke_callback depth cur others).

(** [run_async] on the loop thread itself: the callable runs in place. *)
Lemma run_async_inline (func : callable) (args : list value) (kwds : kwargs)
    (w : World) (v : value) :
  let invl := invoke_callback depth LoopThread others in
  let r := fresh (dom (heap w)) in
  (call func args kwds (registered r w)).1 = Ok v →
  is_Future v = false →
  (run_async LoopThread invl func args kwds w).1 = Ok r
  ∧ fulfilled (run_async LoopThread invl func args kwds w).2 r v.
Proof.
  intros invl r Hc Hv.
  pose proof (inv_frame LoopThread others others_frame depth) as Hfr.
  pose proof (inv_mild LoopThread others others_frame depth) as Hmi.
  unfold run_async. mrun.
  rewrite (run_bind_ok _ _ _ tt) by by rewrite register_new.
  rewrite register_new. cbn [snd is_loop_thread negb]. fold r.
  rewrite run_bind_assoc.
  assert (Ha : attempt is_Exception (call func args kwds) (registered r w)
               = (Ok (inr v), (call func args kwds (registered r w)).2)).
  { unfold attempt, try_except, bind, ret.
    destruct (call func args kwds _) as [rc wc]; cbn in *. by subst rc. }
  rewrite (run_bind_ok _ _ _ (inr v)) by by rewrite Ha.
  rewrite Ha. cbn [snd].
  replace (resolve_with invl r v) with (set_result invl r v)
    by (by destruct v).
  destruct (registered_pending w) as [Hs He]. fold r in Hs, He.
  destruct (set_result_fulfils invl Hfr Hmi r v
              (call func args kwds (registered r w)).2) as [Hok Hful].
  { unfold fut_state. rewrite (get_future_heap (registered r w))
      by apply call_heap. fold (fut_state (registered r w) r). by rewrite Hs. }
  { by rewrite (get_future_heap (registered r w)) by apply call_heap. }
  rewrite (run_bind_ok _ _ _ tt Hok). by mrun.
Qed.

(** Waiting for a future that is fulfilled. *)
Lemma result_or_cancel_fulfilled (r : nat) (timeout : option Z) (v : value)
    (w : World) :
  fulfilled w r v →
  result_or_cancel others inv r timeout w = (Ok v, w).
Proof.
  intros (Hs & Hr & He). unfold result_or_cancel.
  rewrite (try_except_ok _ _ _ _ v); rewrite result_finished; by subst.
Qed.

(** Waiting, with a timeout, for a future that nobody resolves. *)
Lemma result_or_cancel_timeout (r : nat) (t : Z) (w : World) :
  fut_state w r = PENDING →
  let w1 := others (set_trace (trace w ++ [EvWait r (Some t)]) w) in
  fut_state w1 r = PENDING →
  result_or_cancel others inv r (Some t) w
  = (Raise TimeoutError, (cancel inv r w1).2).
Proof.
  intros Hs w1 Hs1. unfold result_or_cancel, try_except, result, wait. mrun.
  rewrite Hs. cbn [state_cancelled]. rewrite bool_decide_eq_false_2 by done.
  mrun. fold w1. rewrite Hs1. cbn [state_cancelled].
  rewrite bool_decide_eq_false_2 by done. cbn [raise any_exception].
  pose proof (cancel_result inv (inv_frame cur others others_frame depth)
                (inv_mild cur others others_frame depth) r w1) as Hc.
  unfold bind. destruct (cancel inv r w1) as [rc wc]. cbn in *. by subst rc.
Qed.

(** Waiting for a future that another thread fulfils in the meantime. *)
Lemma result_or_cancel_served (r : nat) (t : Z) (v : value) (w : World) :
  fut_state w r = PENDING →
  let w1 := others (set_trace (trace w ++ [EvWait r (Some t)]) w) in
  fulfilled w1 r v →
  result_or_cancel others inv r (Some t) w = (Ok v, w1).
Proof.
  intros Hs w1 (Hs1 & Hr1 & He1).
  unfold result_or_cancel, try_except, result, wait. mrun.
  rewrite Hs. cbn [state_cancelled]. rewrite bool_decide_eq_false_2 by done.
  mrun. fold w1. rewrite Hs1. cbn [state_cancelled].
  rewrite bool_decide_eq_true_2 by done.
  unfold get_result. mrun. by rewrite He1, Hr1.
Qed.

End Caller.

(** The loop thread serving the immediate queue while a caller waits. *)
Lemma drain_frame (depth fuel : nat) (w : World) :
  frame w (_run_task_list (invoke_callback depth LoopThread (λ w0, w0)) fuel
             Async w).2.
Proof.
  apply preserves_run_task_list, preserves_invoke_callback.
  intros w0. apply frame_refl.
Qed.

Lemma drain_fulfils_has_fd (depth fuel : nat) (r : nat) (fd : Z) (w : World) :
  async_pomp_task w = [(r, Method_has_fd, [VInt fd], [])] →
  pending w r →
  fulfilled
    (_run_task_list (invoke_callback depth LoopThread (λ w0, w0)) (S fuel)
       Async w).2
    r (VBool (Z.eqb (pomp_loop_has_fd fd (pomp w)) 1)).
Proof.
  intros Hq Hp.
  assert (Hid : ∀ w0 : World, frame w0 ((λ w1, w1) w0))
    by (intros; apply frame_refl).
  rewrite (run_task_list_step depth (λ w0, w0) fuel Async _ [] w Hq).
  destruct (run_task_fulfils depth (λ w0, w0) Hid Async r Method_has_fd
              [VInt fd] [] [] w _ Hp (call_has_fd fd _) eq_refl) as [Hok Hful].
  rewrite (run_bind_ok _ _ _ tt Hok).
  eapply frame_fulfilled; [apply drain_frame | exact Hful].
Qed.

(** C9. [has_fd] asks the Reactor through [run_async] and waits for the
    answer with a timeout of 5: whoever the caller is and whatever the
    other threads do in the meantime, it does not raise TimeoutError.
    Called on the loop thread it answers at once what the Reactor says.
    Called from another thread while the immediate queue is empty and
    the loop drains it during the wait, it answers what the Reactor says
    on the loop thread; so for an fd that the Reactor does not know the
    answer is False.  When the wait of 5 times out with the Future still
    pending, the Future is cancelled and the answer is False. *)
Theorem has_fd_bounded_wait (depth : nat) (fd : Z) (w : World) :
  let r := fresh (dom (heap w)) in
  (∀ cur others invoke,
     (has_fd cur others invoke fd w).1 ≠ Raise TimeoutError)
  ∧ (∀ others, (∀ w0, frame w0 (others w0)) →
       (has_fd LoopThread others (invoke_callback depth LoopThread others) fd w).1
       = Ok (VBool (Z.eqb (pomp_loop_has_fd fd (pomp w)) 1)))
  ∧ (∀ i fuel depth',
       async_pomp_task w = [] →
       let loop := λ w0, (_run_task_list
                            (invoke_callback depth' LoopThread (λ w1, w1))
                            (S fuel) Async w0).2 in
       let asked := pomp (submitted r (r, Method_has_fd, [VInt fd], []) w) in
       (has_fd (ForeignThread i) loop
          (invoke_callback depth (ForeignThread i) loop) fd w).1
       = Ok (VBool (Z.eqb (pomp_loop_has_fd fd asked) 1))
       ∧ (pomp_loop_has_fd fd asked ≠ 1 →
            (has_fd (ForeignThread i) loop
               (invoke_callback depth (ForeignThread i) loop) fd w).1
            = Ok (VBool false)))
  ∧ (∀ i others, (∀ w0, frame w0 (others w0)) →
       let w1 := submitted r (r, Method_has_fd, [VInt fd], []) w in
       let out := has_fd (ForeignThread i) others
                    (invoke_callback depth (ForeignThread i) others) fd w in
       fut_state (others (set_trace (trace w1 ++ [EvWait r (Some 5)]) w1)) r
       = PENDING →
       out.1 = Ok (VBool false)
       ∧ is_cancelled out.2 r
       ∧ EvWait r (Some 5) ∈ trace out.2).
Proof.
  intros r. split; [| split; [| split]].
  - intros cur others invoke. apply never_timeout.
  - intros others Hof. unfold has_fd.
    destruct (run_async_inline depth others Hof Method_has_fd [VInt fd] [] w
                _ (call_has_fd fd _) eq_refl) as [Hok Hful].
    fold r in Hok, Hful.
    rewrite (try_except_ok _ _ _ _
               (VBool (Z.eqb (pomp_loop_has_fd fd (pomp w)) 1)));
      rewrite (run_bind_ok _ _ _ r Hok);
      by rewrite (result_or_cancel_fulfilled depth LoopThread others r
                    (Some 5) _ _ Hful).
  - intros i fuel depth' Hq loop asked.
    assert (Hloop : ∀ w0, frame w0 (loop w0)) by (intros; apply drain_frame).
    set (w1 := submitted r (r, Method_has_fd, [VInt fd], []) w).
    set (w2 := set_trace (trace w1 ++ [EvWait r (Some 5)]) w1).
    assert (Hful : fulfilled (loop w2) r
                     (VBool (Z.eqb (pomp_loop_has_fd fd asked) 1))).
    { apply drain_fulfils_has_fd.
      - unfold w2, w1, submitted, woken.
        destruct (wakeup_evt _); cbn; by rewrite Hq.
      - apply (submitted_pending (r, Method_has_fd, [VInt fd], []) w). }
    assert (Hres : (has_fd (ForeignThread i) loop
                      (invoke_callback depth (ForeignThread i) loop) fd w).1
                   = Ok (VBool (Z.eqb (pomp_loop_has_fd fd asked) 1))).
    { unfold has_fd.
      assert (Hbody :
        bind (run_async (ForeignThread i)
                (invoke_callback depth (ForeignThread i) loop) Method_has_fd
                [VInt fd] [])
          (λ f, result_or_cancel loop
                  (invoke_callback depth (ForeignThread i) loop) f (Some 5)) w
        = (Ok (VBool (Z.eqb (pomp_loop_has_fd fd asked) 1)), loop w2)).
      { rewrite (run_bind_ok _ _ _ r) by by rewrite run_async_foreign_world.
        rewrite run_async_foreign_world. cbn [snd]. fold r w1.
        destruct (submitted_pending (r, Method_has_fd, [VInt fd], []) w)
          as [Hs He]. fold r w1 in Hs, He.
        by apply result_or_cancel_served. }
      by rewrite (try_except_ok _ _ _ _
                    (VBool (Z.eqb (pomp_loop_has_fd fd asked) 1)));
        rewrite Hbody. }
    split; [exact Hres |].
    intros Hne. rewrite Hres. apply Z.eqb_neq in Hne. by rewrite Hne.
  - intros i others Hof w1 out Hpend.
    destruct (submitted_pending (r, Method_has_fd, [VInt fd], []) w)
      as [Hs He]. fold r w1 in Hs, He.
    set (w2 := others (set_trace (trace w1 ++ [EvWait r (Some 5)]) w1)) in *.
    assert (Hbody :
      bind (run_async (ForeignThread i)
              (invoke_callback depth (ForeignThread i) others) Method_has_fd
              [VInt fd] [])
        (λ f, result_or_cancel others
                (invoke_callback depth (ForeignThread i) others) f (Some 5)) w
      = (Raise TimeoutError,
         (cancel (invoke_callback depth (ForeignThread i) others) r w2).2)).
    { rewrite (run_bind_ok _ _ _ r) by by rewrite run_async_foreign_world.
      rewrite run_async_foreign_world. cbn [snd]. fold r w1.
      by apply result_or_cancel_timeout. }
    assert (Hout : out = (Ok (VBool false),
                (cancel (invoke_callback depth (ForeignThread i) others) r w2).2)).
    { unfold out, has_fd, try_except. rewrite Hbody. unfold only.
      by rewrite bool_decide_eq_true_2. }
    rewrite Hout. cbn [fst snd]. split; [done |]. split.
    + apply cancel_pending; [by apply inv_frame | by apply inv_mild | done].
    + pose proof (preserves_cancel _
                    (inv_frame (ForeignThread i) others Hof depth) r w2)
        as (_ & [k Hk] & _).
      destruct (Hof (set_trace (trace w1 ++ [EvWait r (Some 5)]) w1))
        as (_ & [k' Hk'] & _).
      rewrite Hk. fold w2 in Hk'. rewrite Hk'. cbn.
      apply elem_of_app. left. apply elem_of_app. left.
      apply elem_of_app. right. apply elem_of_cons. by left.
Qed.

End HasFd.

(** ** The fd registry and the Reactor *)

Section RegistryInvariant.
Context {Laws : LibpompLaws L}.

Lemma add_fd_null_callback (fd fd_events : Z) (userdata : value) (w : World) :
  _add_fd_to_loop fd VNone fd_events userdata w
  = (Ok VNone,
     set_trace
       (trace w
        ++ [EvLog INFO
              "Cannot add fd '{}' to pomp loop without a valid callback function"
              [VInt fd]]) w).
Proof. done. Qed.

(** [_add_fd_to_loop] with a callback: the entries are written, then the
    Reactor is asked. *)
Lemma add_fd_with_callback (fd fd_events : Z) (cb userdata : value) (w : World) :
  cb ≠ VNone →
  let st := pomp_loop_add (c_int32 fd) (uint32_t fd_events) (pomp w) in
  let w' := (_add_fd_to_loop fd cb fd_events userdata w).2 in
  (_add_fd_to_loop fd cb fd_events userdata w).1
  = (if Z.eqb st.1 0 then Ok VNone
     else Raise (RuntimeError "Cannot add fd '{}' to pomp loop: {} ({})"))
  ∧ pomp_fd_callbacks w' = <[fd := VCFunc cb]> (pomp_fd_callbacks w)
  ∧ fd_userdata w' = <[fd := userdata]> (fd_userdata w)
  ∧ c_fd_userdata w' = <[fd := VPtr userdata]> (c_fd_userdata w)
  ∧ pomp w' = st.2.
Proof.
  intros Hcb. unfold _add_fd_to_loop.
  replace (is_None cb) with false by (by destruct cb).
  cbv zeta. mrun. destruct (Z.eqb _ 0); unfold raise, ret; wsimpl; repeat split; done.
Qed.

Lemma remove_fd_steps (fd : Z) (w : World) :
  _remove_fd_from_loop fd w
  = (if negb (is_None (default VNone (pomp_fd_callbacks w !! fd))) then
       bind (native_status (Pomp_loop_remove fd) (pomp_loop_remove fd))
         (λ res, if negb (Z.eqb res 0) then
                   bind (log ERROR "Cannot remove fd '{}' from pomp loop" [VInt fd])
                     (λ _, ret (VBool false))
                 else ret (VBool true))
     else ret (VBool true)) (forgotten fd w).
Proof. done. Qed.

Lemma add_fd_keeps_invariant (fd fd_events : Z) (cb userdata : value)
    (w : World) :
  registry_inv w →
  cb ≠ VNone →
  c_int32 fd = fd →
  (_add_fd_to_loop fd cb fd_events userdata w).1 = Ok VNone →
  registry_inv (_add_fd_to_loop fd cb fd_events userdata w).2.
Proof.
  intros [Hwf Hinv] Hcb Hfd Hok.
  destruct (add_fd_with_callback fd fd_events cb userdata w Hcb)
    as (Hres & Htab & _ & _ & Hpomp).
  rewrite Hres in Hok. rewrite Hfd in *.
  destruct (Z.eqb_spec (pomp_loop_add fd (uint32_t fd_events) (pomp w)).1 0)
    as [Hst | Hst]; [| done].
  destruct (pomp_loop_add_ok fd (uint32_t fd_events) (pomp w) Hst) as [Hin Hout].
  split.
  - intros fd' cb'. rewrite Htab.
    destruct (decide (fd = fd')) as [<- | Hne].
    + rewrite lookup_insert_eq. by intros [= <-].
    + rewrite lookup_insert_ne by done. apply Hwf.
  - intros fd'. rewrite Htab, Hpomp.
    destruct (decide (fd = fd')) as [<- | Hne].
    + rewrite lookup_insert_eq. split; [done | by eexists].
    + rewrite lookup_insert_ne by done. rewrite Hout by done. apply Hinv.
Qed.

Lemma remove_fd_keeps_invariant (fd : Z) (w : World) :
  registry_inv w →
  (_remove_fd_from_loop fd w).1 = Ok (VBool true) →
  registry_inv (_remove_fd_from_loop fd w).2.
Proof.
  intros [Hwf Hinv] Hok. rewrite remove_fd_steps in Hok |- *.
  destruct (pomp_fd_callbacks w !! fd) as [cb |] eqn:Hcb; cbn [default from_option id] in *.
  - pose proof (Hwf fd cb Hcb) as Hnn.
    replace (is_None cb) with false in * by (by destruct cb).
    cbn [negb] in *. rewrite run_native_status in Hok |- *.
    change (pomp (forgotten fd w)) with (pomp w) in *.
    destruct (Z.eqb_spec (pomp_loop_remove fd (pomp w)).1 0) as [Hst | Hst];
      cbn [negb] in *; [| by rewrite run_log in Hok].
    destruct (pomp_loop_remove_ok fd (pomp w) Hst) as [Hin Hout].
    unfold ret, forgotten, registry_inv. wsimpl. split.
    + intros fd' cb' Hl. apply lookup_delete_Some in Hl as [_ Hl]. by eapply Hwf.
    + intros fd'. destruct (decide (fd = fd')) as [<- | Hne].
      * rewrite lookup_delete_eq. split; [by intros [? ?] | done].
      * rewrite lookup_delete_ne by done. rewrite Hout by done. apply Hinv.
  - unfold ret, forgotten, registry_inv. cbn [is_None negb]. wsimpl. split.
    + intros fd' cb' Hl. apply lookup_delete_Some in Hl as [_ Hl]. by eapply Hwf.
    + intros fd'. rewrite delete_id by done. apply Hinv.
Qed.

(** C2, as amended.  The fd registry agrees with the Reactor after every
    add and every remove whose Reactor call succeeded: an add that
    returns (for an fd in the range of a C int) leaves the fd in the
    callback table and attached, a remove that answers True leaves it in
    neither, and the other fds are untouched.  [_remove_fd_from_loop]
    deletes the registry entries first and asks the Reactor to detach
    second, on a store that has no entry for the fd any more, and only
    if there was a callback.  An add with a null callback is logged and
    returns None without touching the registry or the Reactor. *)
Theorem fd_registry_follows_reactor (fd fd_events : Z) (cb userdata : value)
    (w : World) :
  (registry_inv w → cb ≠ VNone → c_int32 fd = fd →
     (_add_fd_to_loop fd cb fd_events userdata w).1 = Ok VNone →
     registry_inv (_add_fd_to_loop fd cb fd_events userdata w).2
     ∧ is_Some (pomp_fd_callbacks
                  (_add_fd_to_loop fd cb fd_events userdata w).2 !! fd))
  ∧ (registry_inv w →
       (_remove_fd_from_loop fd w).1 = Ok (VBool true) →
       registry_inv (_remove_fd_from_loop fd w).2
       ∧ pomp_fd_callbacks (_remove_fd_from_loop fd w).2 !! fd = None)
  ∧ (pomp_fd_callbacks (forgotten fd w) !! fd = None
     ∧ pomp (forgotten fd w) = pomp w
     ∧ trace (forgotten fd w) = trace w
     ∧ _remove_fd_from_loop fd w
       = (if negb (is_None (default VNone (pomp_fd_callbacks w !! fd))) then
            bind (native_status (Pomp_loop_remove fd) (pomp_loop_remove fd))
              (λ res, if negb (Z.eqb res 0) then
                        bind (log ERROR "Cannot remove fd '{}' from pomp loop"
                                [VInt fd])
                          (λ _, ret (VBool false))
                      else ret (VBool true))
          else ret (VBool true)) (forgotten fd w))
  ∧ _add_fd_to_loop fd VNone fd_events userdata w
    = (Ok VNone,
       set_trace
         (trace w
          ++ [EvLog INFO
                "Cannot add fd '{}' to pomp loop without a valid callback function"
                [VInt fd]]) w).
Proof.
  split; [| split; [| split]].
  - intros Hinv Hcb Hfd Hok. split; [by apply add_fd_keeps_invariant |].
    destruct (add_fd_with_callback fd fd_events cb userdata w Hcb)
      as (_ & -> & _). rewrite lookup_insert_eq. by eexists.
  - intros Hinv Hok. split; [by apply remove_fd_keeps_invariant |].
    apply remove_fd_drops.
  - split; [apply lookup_delete_eq |]. split; [done |]. split; [done |].
    apply remove_fd_steps.
  - apply add_fd_null_callback.
Qed.

End RegistryInvariant.

(** ** The list of live futures *)

Section LiveFutures.

Lemma py_eq_refl (x : value) : py_eq x x = true.
Proof. destruct x; cbn; by rewrite ?bool_decide_eq_true_2. Qed.

Lemma list_remove_absent (x : value) (l : list value) :
  absent x l → list_remove x l = None.
Proof.
  induction 1 as [| y l Hy _ IH]; [done |].
  cbn [list_remove]. by rewrite Hy, IH.
Qed.

Lemma list_remove_first (x y : value) (l1 l2 : list value) :
  absent x l1 → py_eq y x = true →
  list_remove x (l1 ++ y :: l2) = Some (l1 ++ l2).
Proof.
  intros Hab Hy. induction Hab as [| z l1 Hz _ IH]; cbn [app list_remove].
  - by rewrite Hy.
  - by rewrite Hz, IH.
Qed.

Lemma list_remove_None (x : value) (l : list value) :
  list_remove x l = None → absent x l.
Proof.
  induction l as [| y l IH]; [by constructor |].
  cbn [list_remove]. destruct (py_eq y x) eqn:Hy; [done |].
  destruct (list_remove x l); [done |]. intros _.
  constructor; [done | by apply IH].
Qed.

Lemma set_futures_same (w : World) : set_futures (futures w) w = w.
Proof. by destruct w. Qed.

(** An identity is not equal to a Future object. *)
Lemma identities_absent_future (l : list value) (r : nat) :
  identities l → absent (VFuture r) l.
Proof.
  induction 1 as [| y l [z ->] _ IH]; constructor; [| done].
  cbn. by rewrite bool_decide_eq_false_2.
Qed.

(** X1. [_unregister_future(f, ignore_error)] removes the first element
    of the list of live futures that is equal to [f], and only that
    one.  When no element is equal to [f] the list and the rest of the
    store are as before, and the call raises ValueError unless
    [ignore_error] is set.  Hence [_register_future(f)] followed by
    [_unregister_future(f)] gives back the store when [f] was not in the
    list, and when [f] was in it already it is the older entry that
    goes, the new one stays at the tail. *)
Theorem unregister_future_removes_first (f : value) (ignore_error : bool)
    (w : World) :
  (absent f (futures w) →
     _unregister_future f ignore_error w
     = (if ignore_error then Ok tt else Raise ValueError, w))
  ∧ (∀ l1 y l2, futures w = l1 ++ y :: l2 → absent f l1 → py_eq y f = true →
       _unregister_future f ignore_error w = (Ok tt, set_futures (l1 ++ l2) w))
  ∧ (absent f (futures w) →
       _unregister_future f ignore_error (_register_future f w).2 = (Ok tt, w))
  ∧ (∀ l1 y l2, futures w = l1 ++ y :: l2 → absent f l1 → py_eq y f = true →
       _unregister_future f ignore_error (_register_future f w).2
       = (Ok tt, set_futures (l1 ++ l2 ++ [f]) w)).
Proof.
  repeat split.
  - intros Hab. unfold _unregister_future. mrun.
    rewrite list_remove_absent by done. by destruct ignore_error.
  - intros l1 y l2 Hl Hab Hy. unfold _unregister_future. mrun.
    by rewrite Hl, list_remove_first.
  - intros Hab. unfold _unregister_future, _register_future, modify. mrun.
    replace (futures w ++ [f]) with (futures w ++ f :: []) by done.
    rewrite list_remove_first by auto using py_eq_refl.
    mrun. rewrite app_nil_r. unfold modify. by destruct w.
  - intros l1 y l2 Hl Hab Hy.
    unfold _unregister_future, _register_future, modify. mrun.
    rewrite Hl, <- app_assoc. cbn [app].
    rewrite list_remove_first by done. by mrun.
Qed.

End LiveFutures.

(** ** Resolving a registered future *)

Section Registered.
Variable depth : nat.
Variable cur : thread.
Variable others : World → World.
Local Abbreviation inv1 := (invoke_callback (S depth) cur others).

Lemma attempt_run {A : Type} (catches : exn → bool) (m : M A) (w : World) :
  attempt catches m w
  = (match (m w).1 with
     | Ok a => Ok (inr a)
     | Raise e => if catches e then Ok (inl e) else Raise e
     | Blocked => Blocked
     | OutOfFuel => OutOfFuel
     end, (m w).2).
Proof.
  unfold attempt, try_except, bind, ret.
  destruct (m w) as [[a | e | |] w1]; cbn; try done. by destruct (catches e).
Qed.

(** What a call leaves alone. *)
Lemma add_fd_keeps (fd : Z) (cb : value) (fd_events : Z) (userdata : value)
    (w : World) :
  let w' := (_add_fd_to_loop fd cb fd_events userdata w).2 in
  futures w' = futures w
  ∧ async_pomp_task w' = async_pomp_task w
  ∧ deferred_pomp_task w' = deferred_pomp_task w
  ∧ running w' = running w.
Proof.
  unfold _add_fd_to_loop. destruct (is_None cb); cbv zeta; mrun; [done |].
  by destruct (negb _).
Qed.

Lemma remove_fd_keeps (fd : Z) (w : World) :
  let w' := (_remove_fd_from_loop fd w).2 in
  futures w' = futures w
  ∧ async_pomp_task w' = async_pomp_task w
  ∧ deferred_pomp_task w' = deferred_pomp_task w
  ∧ running w' = running w.
Proof.
  unfold _remove_fd_from_loop. mrun.
  destruct (negb (is_None _)); mrun; [| done].
  destruct (negb _); by mrun.
Qed.

Lemma call_keeps (f : callable) (args : list value) (kwds : kwargs) (w : World) :
  futures (call f args kwds w).2 = futures w
  ∧ async_pomp_task (call f args kwds w).2 = async_pomp_task w
  ∧ deferred_pomp_task (call f args kwds w).2 = deferred_pomp_task w
  ∧ running (call f args kwds w).2 = running w.
Proof.
  unfold call. mrun. unfold apply_callable.
  destruct f; repeat case_match; try done;
    match goal with
    | |- context [_add_fd_to_loop ?a ?b ?c ?d ?w1] =>
        exact (add_fd_keeps a b c d w1)
    | |- context [_remove_fd_from_loop ?a ?w1] => exact (remove_fd_keeps a w1)
    end.
Qed.

Lemma run_unregistered (r : nat) (w : World) :
  _unregister_future (id_of r) true w = (Ok tt, unregistered r w).
Proof.
  unfold _unregister_future, unregistered. mrun.
  destruct (list_remove _ _); cbn [default]; [done |].
  by rewrite set_futures_same.
Qed.

(** The cascade of a future that carries the callback of [_register]
    only. *)
Lemma invoke_callbacks_registered (r : nat) (w : World) :
  _done_callbacks (get_future w r) = [CbUnregister] →
  _invoke_callbacks inv1 r w = (Ok tt, unregistered r w).
Proof.
  intros Hcb. unfold _invoke_callbacks. mrun. rewrite Hcb.
  cbn [for_each]. unfold guarded_callback, try_except.
  cbn [invoke_callback callback_body]. unfold bind.
  by rewrite run_unregistered.
Qed.

Lemma resolved_callbacks (r : nat) (s : fstate) (v : value) (e : option exn)
    (w : World) :
  _done_callbacks (get_future (resolved r s v e w) r)
  = _done_callbacks (get_future w r).
Proof. unfold resolved. by rewrite get_put_future_eq. Qed.

Lemma set_result_registered (r : nat) (v : value) (w : World) :
  _done_callbacks (get_future w r) = [CbUnregister] →
  state_done (fut_state w r) = false →
  set_result inv1 r v w
  = (Ok tt, unregistered r
              (resolved r FINISHED v (_exception (get_future w r)) w)).
Proof.
  intros Hcb Hd. unfold set_result. mrun. rewrite Hd. mrun.
  apply invoke_callbacks_registered. by rewrite resolved_callbacks.
Qed.

Lemma set_exception_registered (r : nat) (e : exn) (w : World) :
  _done_callbacks (get_future w r) = [CbUnregister] →
  state_done (fut_state w r) = false →
  set_exception inv1 r e w
  = (Ok tt, unregistered r
              (resolved r FINISHED (_result (get_future w r)) (Some e) w)).
Proof.
  intros Hcb Hd. unfold set_exception. mrun. rewrite Hd. mrun.
  apply invoke_callbacks_registered. by rewrite resolved_callbacks.
Qed.

Lemma cancel_registered (r : nat) (w : World) :
  _done_callbacks (get_future w r) = [CbUnregister] →
  fut_state w r = PENDING →
  cancel inv1 r w
  = (Ok true, unregistered r
                (resolved r CANCELLED (_result (get_future w r))
                   (_exception (get_future w r)) w)).
Proof.
  intros Hcb Hs. unfold cancel, set_state. rewrite run_gets, Hs, run_modify.
  change (put_future r (with_state CANCELLED (get_future w r)) w)
    with (resolved r CANCELLED (_result (get_future w r))
            (_exception (get_future w r)) w).
  unfold bind.
  by rewrite invoke_callbacks_registered by (by rewrite resolved_callbacks).
Qed.

Lemma get_future_unregistered (r r' : nat) (w : World) :
  get_future (unregistered r w) r' = get_future w r'.
Proof. done. Qed.

Lemma get_future_resolved (r : nat) (s : fstate) (v : value) (e : option exn)
    (w : World) :
  get_future (resolved r s v e w) r
  = mkFuture s v e (_done_callbacks (get_future w r)).
Proof. unfold resolved. by rewrite get_put_future_eq. Qed.

End Registered.

(** ** [run_async], by the calling thread *)

Section RunAsync.
Variable depth : nat.
Variable others : World → World.
Local Abbreviation invl := (invoke_callback (S depth) LoopThread others).

Lemma run_async_loop_steps (func : callable) (args : list value)
    (kwds : kwargs) (w : World) :
  let r := fresh (dom (heap w)) in
  run_async LoopThread invl func args kwds w
  = bind (attempt is_Exception (call func args kwds))
      (λ r0, bind (match r0 with
                   | inl e =>
                       bind (log EXCEPTION
                               "Unhandled exception in async task function" [])
                         (λ _, set_exception invl r e)
                   | inr rv => resolve_with invl r rv
                   end) (λ _, ret r))
      (registered r w).
Proof.
  intros r. unfold run_async. mrun.
  rewrite (run_bind_ok _ _ _ tt) by by rewrite register_new.
  rewrite register_new. cbn [snd is_loop_thread negb]. fold r.
  by rewrite run_bind_assoc.
Qed.

Lemma registered_get (w : World) :
  get_future (registered (fresh (dom (heap w))) w) (fresh (dom (heap w)))
  = mkFuture PENDING VNone None [CbUnregister].
Proof. unfold registered. by rewrite get_put_future_eq. Qed.

Lemma unregister_last (r : nat) (l : list value) :
  absent (id_of r) l →
  default (l ++ [id_of r]) (list_remove (id_of r) (l ++ [id_of r])) = l.
Proof.
  intros Hab. rewrite list_remove_first by auto using py_eq_refl.
  cbn. by rewrite app_nil_r.
Qed.

(** The store that [run_async] leaves on the loop thread, by the outcome
    of the callable. *)
Lemma run_async_loop_world (func : callable) (args : list value)
    (kwds : kwargs) (w : World) :
  let r := fresh (dom (heap w)) in
  let c := call func args kwds (registered r w) in
  let out := run_async LoopThread invl func args kwds w in
  (∀ v, c.1 = Ok v → is_Future v = false →
     out = (Ok r, unregistered r (resolved r FINISHED v None c.2)))
  ∧ (∀ e, c.1 = Raise e → is_Exception e = true →
     out = (Ok r, unregistered r
                    (resolved r FINISHED VNone (Some e)
                       (set_trace
                          (trace c.2
                           ++ [EvLog EXCEPTION
                                 "Unhandled exception in async task function"
                                 []]) c.2))))
  ∧ (∀ e, c.1 = Raise e → is_Exception e = false → out = (Raise e, c.2))
  ∧ get_future c.2 r = mkFuture PENDING VNone None [CbUnregister].
Proof.
  intros r c out.
  assert (Hget : get_future c.2 r = mkFuture PENDING VNone None [CbUnregister]).
  { unfold c. rewrite (get_future_heap (registered r w)) by apply call_heap.
    apply registered_get. }
  assert (Hnd : state_done (fut_state c.2 r) = false)
    by (unfold fut_state; by rewrite Hget).
  assert (Hcb : _done_callbacks (get_future c.2 r) = [CbUnregister])
    by by rewrite Hget.
  assert (Hout : out = bind (attempt is_Exception (call func args kwds))
      (λ r0, bind (match r0 with
                   | inl e =>
                       bind (log EXCEPTION
                               "Unhandled exception in async task function" [])
                         (λ _, set_exception invl r e)
                   | inr rv => resolve_with invl r rv
                   end) (λ _, ret r))
      (registered r w)) by apply run_async_loop_steps.
  unfold bind at 1 in Hout. rewrite attempt_run in Hout. fold c in Hout.
  split; [| split; [| split; [| done]]].
  - intros v Hc Hv. rewrite Hout, Hc. cbn [fst snd].
    replace (resolve_with invl r v) with (set_result invl r v)
      by (by destruct v).
    unfold bind. rewrite set_result_registered by done. by rewrite Hget.
  - intros e Hc He. rewrite Hout, Hc, He. cbn [fst snd]. mrun.
    unfold bind. rewrite set_exception_registered by done.
    cbn [fst snd ret]. by rewrite get_future_heap with (w := c.2), Hget.
  - intros e Hc He. by rewrite Hout, Hc, He.
Qed.

Lemma unregistered_resolved_futures (r : nat) (s : fstate) (v : value)
    (e : option exn) (w w1 : World) :
  absent (id_of r) (futures w) →
  futures w1 = futures w ++ [id_of r] →
  futures (unregistered r (resolved r s v e w1)) = futures w.
Proof.
  intros Hab Hw1. unfold unregistered, resolved. wsimpl.
  rewrite Hw1. by apply unregister_last.
Qed.

(** X2. [run_async] called on the loop thread runs the callable in
    place, on the Future that it has just created and registered.
    - The callable returns a value that is no Future: the Future
      returned by [run_async] is FULFILLED with it.
    - The callable raises an Exception: the error is logged and the
      Future returned is FAILED with it; [run_async] itself returns.
    In both cases nothing is queued, the native library is not called
    and nothing is waited for beyond what the callable did itself, and
    the Future is no longer in the list of live futures.
    - The callable raises an exception that is no Exception: it
      propagates to the caller of [run_async], and the Future stays
      pending and in the list of live futures. *)
Theorem run_async_on_loop_thread (func : callable) (args : list value)
    (kwds : kwargs) (w : World) :
  let r := fresh (dom (heap w)) in
  let c := call func args kwds (registered r w) in
  let out := run_async LoopThread invl func args kwds w in
  absent (id_of r) (futures w) →
  (∀ v, c.1 = Ok v → is_Future v = false →
     out.1 = Ok r ∧ fulfilled out.2 r v
     ∧ futures out.2 = futures w ∧ same_queues w out.2
     ∧ pomp out.2 = pomp c.2 ∧ trace out.2 = trace c.2)
  ∧ (∀ e, c.1 = Raise e → is_Exception e = true →
     out.1 = Ok r ∧ failed out.2 r e
     ∧ futures out.2 = futures w ∧ same_queues w out.2
     ∧ pomp out.2 = pomp c.2
     ∧ trace out.2
       = trace c.2
         ++ [EvLog EXCEPTION "Unhandled exception in async task function" []])
  ∧ (∀ e, c.1 = Raise e → is_Exception e = false →
     out.1 = Raise e ∧ pending out.2 r
     ∧ futures out.2 = futures w ++ [id_of r] ∧ same_queues w out.2).
Proof.
  intros r c out Hab.
  destruct (call_keeps func args kwds (registered r w))
    as (Hfu & Has & Hde & _).
  fold c in Hfu, Has, Hde.
  destruct (run_async_loop_world func args kwds w)
    as (Hval & Hexc & Hbase & Hget).
  fold r c out in Hval, Hexc, Hbase, Hget.
  assert (Hreg : futures c.2 = futures w ++ [id_of r]) by by rewrite Hfu.
  split; [| split].
  - intros v Hc Hv. rewrite (Hval v Hc Hv). cbn [fst snd].
    split; [done |]. split.
    { unfold fulfilled, fut_state.
      by rewrite get_future_unregistered, get_future_resolved. }
    split; [by apply unregistered_resolved_futures |]. by repeat split.
  - intros e Hc He. rewrite (Hexc e Hc He). cbn [fst snd].
    split; [done |]. split.
    { unfold failed, fut_state.
      by rewrite get_future_unregistered, get_future_resolved. }
    split; [by apply unregistered_resolved_futures |]. by repeat split.
  - intros e Hc He. rewrite (Hbase e Hc He). cbn [fst snd].
    split; [done |]. split.
    { unfold pending, fut_state. by rewrite Hget. }
    by repeat split.
Qed.

End RunAsync.

(** ** The turn of a registered task *)

Section TaskTurn.
Variable depth : nat.
Variable others : World → World.
Local Abbreviation invl := (invoke_callback (S depth) LoopThread others).

Lemma run_task_steps (invoke : done_callback → nat → M unit) (q : queue)
    (future : nat) (f : callable) (args : list value) (kwds : kwargs)
    (rest : list task) (w : World) :
  let c := call f args kwds (queue_set q rest w) in
  _run_task invoke q (future, f, args, kwds) rest w
  = match c.1 with
    | Ok rv => resolve_with invoke future rv c.2
    | Raise e =>
        if is_Exception e then
          bind (_unregister_future (VFuture future) true)
            (λ _, set_exception invoke future e)
            (set_trace
               (trace c.2
                ++ [EvLog EXCEPTION
                      "Unhandled exception in async task function" []]) c.2)
        else (Raise e, c.2)
    | Blocked => (Blocked, c.2)
    | OutOfFuel => (OutOfFuel, c.2)
    end.
Proof.
  intros c. unfold _run_task. rewrite run_modify.
  unfold bind at 1. rewrite attempt_run. fold c.
  destruct c.1 as [rv | e | |]; cbn [fst snd]; try done.
  destruct (is_Exception e); [| done]. by mrun.
Qed.

Lemma unregister_object_noop (r : nat) (w : World) :
  identities (futures w) →
  _unregister_future (VFuture r) true w = (Ok tt, w).
Proof.
  intros Hid. unfold _unregister_future. mrun.
  by rewrite list_remove_absent by by apply identities_absent_future.
Qed.

(** The turn of a task whose Future is as [run_async] and [run_later]
    leave it. *)
Lemma run_task_registered (q : queue) (future : nat) (f : callable)
    (args : list value) (kwds : kwargs) (rest : list task) (w : World) :
  let c := call f args kwds (queue_set q rest w) in
  identities (futures w) →
  _done_callbacks (get_future w future) = [CbUnregister] →
  state_done (fut_state w future) = false →
  (∀ v, c.1 = Ok v → is_Future v = false →
     _run_task invl q (future, f, args, kwds) rest w
     = (Ok tt, unregistered future
                 (resolved future FINISHED v
                    (_exception (get_future w future)) c.2)))
  ∧ (∀ e, c.1 = Raise e → is_Exception e = true →
     _run_task invl q (future, f, args, kwds) rest w
     = (Ok tt, unregistered future
                 (resolved future FINISHED (_result (get_future w future))
                    (Some e)
                    (set_trace
                       (trace c.2
                        ++ [EvLog EXCEPTION
                              "Unhandled exception in async task function" []])
                       c.2)))).
Proof.
  intros c Hid Hcb Hnd.
  destruct (call_keeps f args kwds (queue_set q rest w)) as (Hfu & _).
  fold c in Hfu.
  assert (Hget : get_future c.2 future = get_future w future)
    by apply call_get_future.
  assert (Hfw : futures c.2 = futures w) by (rewrite Hfu; by destruct q).
  split.
  - intros v Hc Hv. rewrite run_task_steps. fold c. rewrite Hc.
    replace (resolve_with invl future v) with (set_result invl future v)
      by (by destruct v).
    rewrite set_result_registered; unfold fut_state; rewrite Hget; done.
  - intros e Hc He. rewrite run_task_steps. fold c. rewrite Hc, He.
    unfold bind. rewrite unregister_object_noop by (wsimpl; by rewrite Hfw).
    rewrite set_exception_registered.
    + by rewrite (get_future_heap c.2), Hget.
    + by rewrite (get_future_heap c.2), Hget.
    + unfold fut_state. by rewrite (get_future_heap c.2), Hget.
Qed.


End TaskTurn.

(** ** Submission from another thread *)

Section Foreign.

Lemma submitted_fields (r : nat) (t : task) (w : World) :
  async_pomp_task (submitted r t w) = async_pomp_task w ++ [t]
  ∧ deferred_pomp_task (submitted r t w) = deferred_pomp_task w
  ∧ futures (submitted r t w) = futures w ++ [id_of r]
  ∧ trace (submitted r t w)
    = trace w ++ match wakeup_evt w with
                 | Some evt => [EvNative (Pomp_evt_signal evt)]
                 | None => []
                 end
  ∧ heap (submitted r t w) = heap (registered r w).
Proof.
  unfold submitted, woken, registered. wsimpl.
  destruct (wakeup_evt w); wsimpl; by rewrite ?app_nil_r.
Qed.


End Foreign.

(** ** The outcome of a future that is done *)

Section Final.
Variable depth : nat.
Variable cur : thread.
Variable others : World → World.
Hypothesis others_frame : ∀ w, frame w (others w).
Local Abbreviation inv := (invoke_callback depth cur others).
Local Abbreviation invl := (invoke_callback depth LoopThread others).

Lemma frame_outcomes_kept (w w' : World) : frame w w' → outcomes_kept w w'.
Proof.
  intros Hf r. split; [| split].
  - intros v. by apply frame_fulfilled.
  - intros e. by apply frame_failed.
  - by apply frame_cancelled.
Qed.

Lemma outcomes_kept_trans (w1 w2 w3 : World) :
  outcomes_kept w1 w2 → outcomes_kept w2 w3 → outcomes_kept w1 w3.
Proof.
  intros H12 H23 r. destruct (H12 r) as (A1 & B1 & C1).
  destruct (H23 r) as (A2 & B2 & C2). split; [| split]; intros; auto.
Qed.

Lemma outcomes_kept_bind {A B : Type} (m : M A) (k : A → M B) (w : World) :
  outcomes_kept w (m w).2 →
  (∀ a, outcomes_kept (m w).2 (k a (m w).2).2) →
  outcomes_kept w (bind m k w).2.
Proof.
  intros Hm Hk. unfold bind.
  destruct (m w) as [[a | e | |] w1] eqn:E; cbn [snd] in *; try done.
  eapply outcomes_kept_trans; [exact Hm | apply Hk].
Qed.

(** A turn of [_run_task_list] pops the queue, which is no future. *)
Lemma run_task_outcomes (q : queue) (t : task) (rest : list task) (w : World) :
  outcomes_kept w (_run_task invl q t rest w).2.
Proof.
  eapply outcomes_kept_trans;
    [| apply frame_outcomes_kept, (run_task_frame depth others others_frame)].
  intros r. by destruct q.
Qed.

Lemma run_task_list_outcomes (fuel : nat) (q : queue) (w : World) :
  outcomes_kept w (_run_task_list invl fuel q w).2.
Proof.
  revert w. induction fuel as [| fuel IH]; intros w.
  - cbn [_run_task_list]. mrun. by destruct (queue_get q w).
  - destruct (queue_get q w) as [| t rest] eqn:Hq.
    + by rewrite run_task_list_empty.
    + rewrite (run_task_list_step depth others fuel q t rest w Hq).
      apply outcomes_kept_bind; [apply run_task_outcomes |].
      intros _. apply IH.
Qed.

Lemma preserves_wait_and_process_logged : preserves wait_and_process_logged.
Proof.
  unfold wait_and_process_logged.
  apply preserves_try_except; [apply preserves_wait_and_process |].
  intros e. apply preserves_log.
Qed.

Lemma run_iteration_outcomes (fuel : nat) (w : World) :
  outcomes_kept w (run_iteration invl fuel w).2.
Proof.
  unfold run_iteration.
  apply outcomes_kept_bind;
    [apply frame_outcomes_kept, preserves_wait_and_process_logged |].
  intros _. apply outcomes_kept_bind; [apply run_task_list_outcomes |].
  intros _. apply run_task_list_outcomes.
Qed.

Lemma preserves_result_or_cancel (self : nat) (timeout : option Z) :
  preserves (result_or_cancel others inv self timeout).
Proof.
  pose proof (inv_frame cur others others_frame depth) as Hfr.
  unfold result_or_cancel. apply preserves_try_except.
  - by apply preserves_result.
  - intros e. apply preserves_bind; [by apply preserves_cancel |].
    intros _. apply preserves_raise.
Qed.

Lemma preserves_has_fd_method (fd : Z) :
  preserves (has_fd cur others inv fd).
Proof.
  pose proof (inv_frame cur others others_frame depth) as Hfr.
  unfold has_fd. apply preserves_try_except.
  - apply preserves_bind; [by apply preserves_run_async |].
    intros f. apply preserves_result_or_cancel.
  - intros _. apply preserves_ret.
Qed.

Lemma preserves_stop : preserves (stop cur others).
Proof.
  unfold stop, join. apply preserves_bind; [apply preserves_gets |].
  intros r. destruct (negb r); [apply preserves_ret |].
  apply preserves_bind; [by apply preserves_modify |]. intros _.
  apply preserves_bind; [| intros _; apply preserves_ret].
  destruct (negb _); [| apply preserves_ret].
  apply preserves_bind; [apply preserves_wake_up |]. intros _.
  apply preserves_bind; [apply preserves_emit |]. intros _ w.
  apply others_frame.
Qed.


End Final.

(** ** [result_or_cancel] *)

Section ResultOrCancel.
Variable depth : nat.
Variable cur : thread.
Variable others : World → World.
Hypothesis others_frame : ∀ w, frame w (others w).
Local Abbreviation inv := (invoke_callback depth cur others).

Lemma result_not_done (self : nat) (timeout : option Z) (w : World) :
  state_done (fut_state w self) = false →
  let w1 := others (set_trace (trace w ++ [EvWait self timeout]) w) in
  result others self timeout w
  = (if state_done (fut_state w1 self) then outcome_of w1 self
     else match timeout with
          | Some _ => Raise TimeoutError
          | None => Blocked
          end, w1).
Proof.
  intros Hd w1. unfold result, wait, outcome_of. mrun.
  destruct (fut_state w self) eqn:Hs; try done;
    cbn [state_cancelled]; rewrite bool_decide_eq_false_2 by done; mrun;
    fold w1; destruct (fut_state w1 self) eqn:Hs1; cbn;
    rewrite ?bool_decide_eq_false_2 by done;
    rewrite ?bool_decide_eq_true_2 by done;
    try done; unfold get_result; mrun;
    try (by destruct (_exception _)); by destruct timeout.
Qed.

Lemma outcome_of_cases (w : World) (self : nat) :
  state_done (fut_state w self) = true →
  (∀ v, outcome_of w self = Ok v → fulfilled w self v)
  ∧ (∀ e, outcome_of w self = Raise e →
       failed w self e ∨ (is_cancelled w self ∧ e = CancelledError))
  ∧ terminates (outcome_of w self).
Proof.
  intros Hd. unfold outcome_of, fulfilled, failed, is_cancelled.
  destruct (fut_state w self) eqn:Hs; try done; cbn.
  - split; [done |]. split; [| done]. intros e [= <-]. by right.
  - split; [done |]. split; [| done]. intros e [= <-]. by right.
  - destruct (_exception (get_future w self)) as [e0 |] eqn:He.
    + split; [done |]. split; [| done]. intros e [= <-]. by left.
    + split; [| done]. by intros v [= <-].
Qed.

(** Raising again after [cancel], on a future that is done. *)
Lemma cancel_then_raise_done (self : nat) (e : exn) (w : World) :
  state_done (fut_state w self) = true →
  bind (cancel inv self) (λ _, raise e : M value) w = (Raise e, w).
Proof.
  intros Hd. unfold cancel. mrun. by destruct (fut_state w self).
Qed.

Lemma result_or_cancel_done (self : nat) (timeout : option Z) (w : World) :
  state_done (fut_state w self) = true →
  result_or_cancel others inv self timeout w = (outcome_of w self, w).
Proof.
  intros Hd. unfold result_or_cancel, try_except.
  rewrite result_done by done. fold (outcome_of w self).
  destruct (outcome_of w self) as [v | e | |] eqn:Ho; try done.
  cbn [any_exception]. by apply cancel_then_raise_done.
Qed.


End ResultOrCancel.

(** ** The fd methods *)

Section FdMethods.
Variable depth : nat.
Variable others : World → World.
Local Abbreviation invl := (invoke_callback (S depth) LoopThread others).

Lemma call_add_fd (fd : Z) (cb : value) (fd_events : Z) (userdata : value)
    (w : World) :
  call Method_add_fd_to_loop [VInt fd; cb; VInt fd_events]
    [("userdata", userdata)] w
  = _add_fd_to_loop fd cb fd_events userdata
      (set_trace
         (trace w
          ++ [EvCall Method_add_fd_to_loop [VInt fd; cb; VInt fd_events]
                [("userdata", userdata)]]) w).
Proof. done. Qed.

Lemma call_remove_fd (fd : Z) (w : World) :
  call Method_remove_fd_from_loop [VInt fd] [] w
  = _remove_fd_from_loop fd
      (set_trace
         (trace w ++ [EvCall Method_remove_fd_from_loop [VInt fd] []]) w).
Proof. done. Qed.

Lemma remove_fd_answers (fd : Z) (w : World) :
  (_remove_fd_from_loop fd w).1
  = Ok (VBool (is_None (default VNone (pomp_fd_callbacks w !! fd))
               || Z.eqb (pomp_loop_remove fd (pomp w)).1 0)).
Proof.
  unfold _remove_fd_from_loop. mrun.
  destruct (is_None _); cbn [negb orb]; [done |]. mrun.
  by destruct (Z.eqb _ 0).
Qed.

(** X7. The public fd methods on the loop thread.  [add_fd_to_loop] and
    [remove_fd_from_loop] go through [run_async]: called on the loop
    thread they do the work in place and hand back a Future that is
    resolved already, and they never raise.
    - [add_fd_to_loop] with a null callback: the Future is FULFILLED
      with None, the fd tables and the Reactor are untouched.
    - With a callback that the Reactor accepts: FULFILLED with None, the
      callback is in the table.
    - With a callback that the Reactor refuses: the RuntimeError of
      [_add_fd_to_loop] does not reach the caller, the Future is FAILED
      with it, and the entry written before the Reactor was asked is
      still in the table.
    - [remove_fd_from_loop]: the Future is FULFILLED with the answer of
      [_remove_fd_from_loop], which is False only when the fd had a
      callback and the Reactor failed to detach it; the fd has no entry
      left. *)
Theorem fd_methods_on_loop_thread (fd fd_events : Z) (cb userdata : value)
    (w : World) :
  let r := fresh (dom (heap w)) in
  let st := pomp_loop_add (c_int32 fd) (uint32_t fd_events) (pomp w) in
  let added := add_fd_to_loop LoopThread invl fd cb fd_events userdata w in
  let removed := remove_fd_from_loop LoopThread invl fd w in
  added.1 = Ok r
  ∧ (cb = VNone →
       fulfilled added.2 r VNone
       ∧ pomp_fd_callbacks added.2 = pomp_fd_callbacks w
       ∧ fd_userdata added.2 = fd_userdata w
       ∧ c_fd_userdata added.2 = c_fd_userdata w
       ∧ pomp added.2 = pomp w)
  ∧ (cb ≠ VNone → st.1 = 0 →
       fulfilled added.2 r VNone
       ∧ pomp_fd_callbacks added.2 = <[fd := VCFunc cb]> (pomp_fd_callbacks w)
       ∧ pomp added.2 = st.2)
  ∧ (cb ≠ VNone → st.1 ≠ 0 →
       failed added.2 r
         (RuntimeError "Cannot add fd '{}' to pomp loop: {} ({})")
       ∧ pomp_fd_callbacks added.2 = <[fd := VCFunc cb]> (pomp_fd_callbacks w)
       ∧ pomp added.2 = st.2)
  ∧ removed.1 = Ok r
  ∧ fulfilled removed.2 r
      (VBool (is_None (default VNone (pomp_fd_callbacks w !! fd))
              || Z.eqb (pomp_loop_remove fd (pomp w)).1 0))
  ∧ pomp_fd_callbacks removed.2 !! fd = None.
Proof.
  intros r st added removed.
  set (args := [VInt fd; cb; VInt fd_events]).
  set (kwds := [("userdata", userdata)]).
  destruct (run_async_loop_world depth others Method_add_fd_to_loop args kwds w)
    as (Hval & Hexc & _ & _).
  fold r in Hval, Hexc. unfold args, kwds in Hval, Hexc.
  rewrite call_add_fd in Hval, Hexc.
  set (w0 := set_trace _ (registered r w)) in Hval, Hexc.
  fold args kwds in Hval, Hexc.
  change (run_async LoopThread invl Method_add_fd_to_loop args kwds w)
    with added in Hval, Hexc.
  destruct (run_async_loop_world depth others Method_remove_fd_from_loop
              [VInt fd] [] w) as (Hrem & _ & _ & _).
  fold r in Hrem. rewrite call_remove_fd in Hrem.
  set (w0' := set_trace _ (registered r w)) in Hrem.
  change (run_async LoopThread invl Method_remove_fd_from_loop [VInt fd] [] w)
    with removed in Hrem.
  assert (Hful : ∀ v w1,
            fulfilled (unregistered r (resolved r FINISHED v None w1)) r v).
  { intros v w1. unfold fulfilled, fut_state.
    by rewrite !get_future_unregistered, !get_future_resolved. }
  assert (Hfail : ∀ v e w1,
            failed (unregistered r (resolved r FINISHED v (Some e) w1)) r e).
  { intros v e w1. unfold failed, fut_state.
    by rewrite !get_future_unregistered, !get_future_resolved. }
  assert (Hadd : cb ≠ VNone →
            (_add_fd_to_loop fd cb fd_events userdata w0).1
            = (if Z.eqb st.1 0 then Ok VNone
               else Raise (RuntimeError
                             "Cannot add fd '{}' to pomp loop: {} ({})"))
            ∧ pomp_fd_callbacks (_add_fd_to_loop fd cb fd_events userdata w0).2
              = <[fd := VCFunc cb]> (pomp_fd_callbacks w)
            ∧ pomp (_add_fd_to_loop fd cb fd_events userdata w0).2 = st.2).
  { intros Hcb.
    destruct (add_fd_with_callback fd fd_events cb userdata w0 Hcb)
      as (H1 & H2 & _ & _ & H5).
    by repeat split. }
  split; [| split; [| split; [| split; [| split; [| split]]]]].
  - destruct (decide (cb = VNone)) as [-> | Hcb].
    + by rewrite (Hval VNone).
    + destruct (Hadd Hcb) as (H1 & _). destruct (Z.eqb st.1 0).
      * by rewrite (Hval VNone).
      * by rewrite (Hexc _ H1).
  - intros ->. rewrite (Hval VNone) by done. cbn [snd].
    split; [apply Hful |]. rewrite add_fd_null_callback. by repeat split.
  - intros Hcb Hst. destruct (Hadd Hcb) as (H1 & H2 & H3).
    rewrite Hst in H1. cbn in H1. rewrite (Hval VNone) by done. cbn [snd].
    split; [apply Hful |]. by split.
  - intros Hcb Hst. destruct (Hadd Hcb) as (H1 & H2 & H3).
    apply Z.eqb_neq in Hst. rewrite Hst in H1.
    rewrite (Hexc _ H1) by done. cbn [snd].
    split; [apply Hfail |]. by split.
  - by rewrite (Hrem _ (remove_fd_answers fd w0')).
  - rewrite (Hrem _ (remove_fd_answers fd w0')) by done. cbn [snd].
    apply Hful.
  - rewrite (Hrem _ (remove_fd_answers fd w0')) by done. cbn [snd].
    apply (remove_fd_drops w0' fd).
Qed.

End FdMethods.

(** ** The order of the tasks

    No method takes an entry out of the immediate queue, [_run_task]
    apart, which pops the head: the queue only grows at its tail. *)

Section AsyncGrowth.

Lemma async_grows_refl (w : World) : async_grows w w.
Proof. by unfold async_grows. Qed.

Lemma async_grows_trans (w1 w2 w3 : World) :
  async_grows w1 w2 → async_grows w2 w3 → async_grows w1 w3.
Proof. unfold async_grows. by etrans. Qed.

Lemma appends_bind {A B : Type} (m : M A) (k : A → M B) :
  appends m → (∀ a, appends (k a)) → appends (bind m k).
Proof.
  intros Hm Hk w. unfold bind. specialize (Hm w).
  destruct (m w) as [[a | e | |] w1]; cbn [snd] in *; try done.
  eapply async_grows_trans; [exact Hm | apply Hk].
Qed.

Lemma appends_try_except {A : Type} (m : M A) (catches : exn → bool)
    (handler : exn → M A) :
  appends m → (∀ e, appends (handler e)) →
  appends (try_except m catches handler).
Proof.
  intros Hm Hh w. unfold try_except. specialize (Hm w).
  destruct (m w) as [[a | e | |] w1]; cbn [snd] in *; try done.
  destruct (catches e); [| done].
  eapply async_grows_trans; [exact Hm | apply Hh].
Qed.

Lemma appends_attempt {A : Type} (m : M A) (catches : exn → bool) :
  appends m → appends (attempt catches m).
Proof. intros Hm w. unfold async_grows. rewrite attempt_world. apply Hm. Qed.

Lemma appends_for_each {A : Type} (l : list A) (body : A → M unit) :
  (∀ x, appends (body x)) → appends (for_each l body).
Proof.
  intros Hb. induction l as [| x l IH]; cbn [for_each].
  - intros w. apply async_grows_refl.
  - apply appends_bind; [apply Hb | by intros _].
Qed.

(** A step that does not write the immediate queue. *)
Lemma appends_same {A : Type} (m : M A) :
  (∀ w, async_pomp_task (m w).2 = async_pomp_task w) → appends m.
Proof. intros H w. unfold async_grows. by rewrite H. Qed.

Ltac grow_seq :=
  repeat first
    [ solve [auto with grows]
    | solve [apply appends_same; intros ?; reflexivity]
    | apply appends_bind; [| intros ?]
    | apply appends_try_except; [| intros ?]
    | apply appends_attempt
    | apply appends_for_each; intros ?
    | match goal with
      | |- appends (if ?c then _ else _) => destruct c
      | |- appends (match ?x with _ => _ end) => destruct x
      end ].

Lemma appends_call (f : callable) (args : list value) (kwds : kwargs) :
  appends (call f args kwds).
Proof. apply appends_same. intros w. apply call_keeps. Qed.

Lemma appends_wait_and_process_logged : appends wait_and_process_logged.
Proof.
  unfold wait_and_process_logged, _wait_and_process. grow_seq.
Qed.

Lemma appends_wake_up : appends _wake_up.
Proof. unfold _wake_up. grow_seq. Qed.

Lemma appends_unregister_future (f : value) (ignore_error : bool) :
  appends (_unregister_future f ignore_error).
Proof. unfold _unregister_future. grow_seq. Qed.

Lemma appends_Future_new : appends Future_new.
Proof. unfold Future_new. grow_seq. Qed.

Lemma appends_set_running_or_notify_cancel (self : nat) :
  appends (set_running_or_notify_cancel self).
Proof. unfold set_running_or_notify_cancel, set_state. grow_seq. Qed.

Hint Resolve appends_call appends_wait_and_process_logged appends_wake_up
  appends_unregister_future appends_Future_new
  appends_set_running_or_notify_cancel : grows.

Section GrowthMethods.
Variable cur : thread.
Variable others : World → World.
Variable invoke : done_callback → nat → M unit.
Hypothesis others_grows : ∀ w, async_grows w (others w).
Hypothesis invoke_grows : ∀ cb self, appends (invoke cb self).

Lemma appends_wait (self : nat) (timeout : option Z) :
  appends (wait others self timeout).
Proof.
  unfold wait. apply appends_bind; [grow_seq |]. intros _ w.
  apply others_grows.
Qed.

Hint Resolve appends_wait : grows.

Lemma appends_result (self : nat) (timeout : option Z) :
  appends (result others self timeout).
Proof. unfold result, get_result. grow_seq. Qed.

Lemma appends_exception (self : nat) (timeout : option Z) :
  appends (exception others self timeout).
Proof. unfold exception. grow_seq. Qed.

Lemma appends_invoke_callbacks (self : nat) :
  appends (_invoke_callbacks invoke self).
Proof. unfold _invoke_callbacks, guarded_callback. grow_seq. Qed.

Hint Resolve appends_result appends_exception appends_invoke_callbacks
  : grows.

Lemma appends_cancel (self : nat) : appends (cancel invoke self).
Proof. unfold cancel, set_state. grow_seq. Qed.

Lemma appends_set_result (self : nat) (v : value) :
  appends (set_result invoke self v).
Proof. unfold set_result. grow_seq. Qed.

Lemma appends_set_exception (self : nat) (e : exn) :
  appends (set_exception invoke self e).
Proof. unfold set_exception. grow_seq. Qed.

Lemma appends_add_done_callback (self : nat) (fn : done_callback) :
  appends (add_done_callback invoke self fn).
Proof. unfold add_done_callback, guarded_callback. grow_seq. Qed.

Hint Resolve appends_cancel appends_set_result appends_set_exception
  appends_add_done_callback : grows.

Lemma appends_set_from (self source : nat) :
  appends (set_from others invoke self source).
Proof. unfold set_from, set_from_commit, cancelled, done. grow_seq. Qed.

Lemma appends_register (self : nat) : appends (_register invoke self).
Proof. unfold _register, _register_future. grow_seq. Qed.

Lemma appends_chain (self next_ : nat) : appends (chain invoke self next_).
Proof. unfold chain. grow_seq. Qed.

Hint Resolve appends_set_from appends_register appends_chain : grows.

Lemma appends_run_later (func : callable) (args : list value) (kwds : kwargs) :
  appends (run_later invoke func args kwds).
Proof. unfold run_later. grow_seq. Qed.

Lemma appends_resolve_with (future : nat) (rv : value) :
  appends (resolve_with invoke future rv).
Proof. unfold resolve_with. destruct rv; auto with grows. Qed.

Hint Resolve appends_run_later appends_resolve_with : grows.

Lemma appends_run_async (func : callable) (args : list value) (kwds : kwargs) :
  appends (run_async cur invoke func args kwds).
Proof.
  unfold run_async. grow_seq.
  intros w. unfold async_grows. cbn. by apply prefix_app_r.
Qed.

Hint Resolve appends_run_async : grows.

Lemma appends_callback_body (cb : done_callback) (self : nat) :
  appends (callback_body cur others invoke cb self).
Proof.
  unfold callback_body, then_callback, Future_logging_exception. grow_seq.
Qed.

Hint Resolve appends_callback_body : grows.

(** After [pop(0)], a turn of [_run_task_list] only appends. *)
Lemma async_grows_run_task (q : queue) (t : task) (rest : list task)
    (w : World) :
  async_grows (queue_set q rest w) (_run_task invoke q t rest w).2.
Proof.
  destruct t as [[[future f] args] kwds]. unfold _run_task.
  rewrite run_modify. generalize (queue_set q rest w).
  apply appends_bind; [grow_seq |]. intros r0. grow_seq.
Qed.

End GrowthMethods.

Lemma appends_invoke_callback (depth : nat) (cur : thread)
    (others : World → World) :
  (∀ w, async_grows w (others w)) →
  ∀ cb self, appends (invoke_callback depth cur others cb self).
Proof.
  intros Ho. induction depth as [| depth IH]; intros cb self;
    cbn [invoke_callback].
  - intros w. apply async_grows_refl.
  - by apply appends_callback_body.
Qed.

End AsyncGrowth.

Section Fifo.
Variable depth : nat.
Variable others : World → World.
Hypothesis others_frame : ∀ w, frame w (others w).
Hypothesis others_grows : ∀ w, async_grows w (others w).
Local Abbreviation invl := (invoke_callback depth LoopThread others).

(** What was behind the head of the queue is still at the front of the
    queue after the turn of the head. *)
Lemma run_task_queue_prefix (q : queue) (t : task) (rest : list task)
    (w : World) :
  rest `prefix_of` queue_get q (_run_task invl q t rest w).2.
Proof.
  destruct q.
  - apply (async_grows_run_task invl (appends_invoke_callback depth LoopThread
             others others_grows) Async t rest w).
  - apply (run_task_frame depth others others_frame Deferred t rest w).
Qed.


End Fifo.

(** ** [then], deferred *)

Section Then.
Variable depth : nat.
Variable cur : thread.
Variable others : World → World.
Hypothesis others_frame : ∀ w, frame w (others w).
Local Abbreviation inv := (invoke_callback depth cur others).
Local Abbreviation inv1 := (invoke_callback (S depth) cur others).

Lemma for_each_unregister_world (self : nat) (cbs : list done_callback)
    (w : World) :
  Forall (λ cb, cb = CbUnregister) cbs →
  ∃ l, for_each cbs (guarded_callback inv1 self) w = (Ok tt, set_futures l w).
Proof.
  intros Hall. revert w. induction Hall as [| cb cbs -> _ IH]; intros w.
  - exists (futures w). cbn. by rewrite set_futures_same.
  - assert (Hg : guarded_callback inv1 self CbUnregister w
                 = (Ok tt, unregistered self w)).
    { unfold guarded_callback, try_except.
      cbn [invoke_callback callback_body]. by rewrite run_unregistered. }
    cbn [for_each]. unfold bind. rewrite Hg.
    destruct (IH (unregistered self w)) as [l Hl]. exists l. by rewrite Hl.
Qed.

(** Resolving a future [a] that carries the callbacks of [_register]
    and then the one of [a.chain(b)]. *)
Lemma resolve_chained (a b : nat) (cbs : list done_callback) (w : World)
    (o : FutureObj) :
  a ≠ b →
  _state o = FINISHED →
  _done_callbacks o = cbs ++ [CbSetFrom b] →
  Forall (λ cb, cb = CbUnregister) cbs →
  pending w b →
  let w' := (_invoke_callbacks inv1 a (put_future a o w)).2 in
  fut_state w' b = FINISHED
  ∧ _exception (get_future w' b) = _exception o
  ∧ (_exception o = None → _result (get_future w' b) = _result o).
Proof.
  intros Hne Hso Hcbs Hall [Hsb Heb] w'.
  edestruct (cascade_into_chained depth cur others a b cbs (put_future a o w))
    as (w3 & Hh & Hw3); [by rewrite get_put_future_eq | exact Hall |].
  unfold w'. rewrite Hw3.
  assert (Hb3 : get_future w3 b = get_future w b).
  { rewrite (get_future_heap _ _ _ Hh). by rewrite get_put_future_ne. }
  assert (Ha3 : get_future w3 a = o).
  { rewrite (get_future_heap _ _ _ Hh). by rewrite get_put_future_eq. }
  unfold guarded_callback. cbn [invoke_callback callback_body].
  destruct (set_from_copies others inv
              (inv_frame cur others others_frame depth)
              (inv_mild cur others others_frame depth) b a w3)
    as (Hok & Hs & He & Hr).
  { unfold fut_state. by rewrite Hb3. }
  { unfold fut_state. by rewrite Ha3. }
  rewrite (try_except_ok _ _ _ _ tt Hok).
  rewrite Ha3 in He, Hr. rewrite Hb3, Heb in He.
  split; [exact Hs |]. split.
  - rewrite He. by destruct (_exception o).
  - intros Hnone. rewrite Hr. by rewrite Hnone.
Qed.

Lemma set_result_chained (a b : nat) (cbs : list done_callback) (v : value)
    (w : World) :
  a ≠ b →
  pending w a →
  _done_callbacks (get_future w a) = cbs ++ [CbSetFrom b] →
  Forall (λ cb, cb = CbUnregister) cbs →
  pending w b →
  (set_result inv1 a v w).1 = Ok tt
  ∧ fulfilled (set_result inv1 a v w).2 b v.
Proof.
  intros Hne [Hsa Hea] Hcbs Hall Hb.
  split.
  { apply set_result_ok; [apply inv_frame | apply inv_mild |]; try done.
    by rewrite Hsa. }
  unfold set_result. rewrite run_gets, Hsa. cbn [state_done]. rewrite run_modify.
  cbv zeta.
  destruct (resolve_chained a b cbs w
              (mkFuture FINISHED v (_exception (get_future w a))
                 (_done_callbacks (get_future w a))))
    as (H1 & H2 & H3); try done.
  cbn [_exception _result] in H2, H3.
  unfold fulfilled. rewrite H1, H3, H2 by done. by rewrite Hea.
Qed.

Lemma set_exception_chained (a b : nat) (cbs : list done_callback) (e : exn)
    (w : World) :
  a ≠ b →
  pending w a →
  _done_callbacks (get_future w a) = cbs ++ [CbSetFrom b] →
  Forall (λ cb, cb = CbUnregister) cbs →
  pending w b →
  (set_exception inv1 a e w).1 = Ok tt
  ∧ failed (set_exception inv1 a e w).2 b e.
Proof.
  intros Hne [Hsa Hea] Hcbs Hall Hb.
  split.
  { apply set_exception_ok; [apply inv_frame | apply inv_mild |]; try done.
    by rewrite Hsa. }
  unfold set_exception. rewrite run_gets, Hsa. cbn [state_done].
  rewrite run_modify. cbv zeta.
  destruct (resolve_chained a b cbs w
              (mkFuture FINISHED (_result (get_future w a)) (Some e)
                 (_done_callbacks (get_future w a))))
    as (H1 & H2 & H3); done.
Qed.

Lemma fresh_ne (w : World) (r : nat) :
  is_Some (heap w !! r) → fresh (dom (heap w)) ≠ r.
Proof.
  intros Hin Heq. apply elem_of_dom in Hin. rewrite <- Heq in Hin.
  by apply is_fresh in Hin.
Qed.

(** The store that [then] leaves when [self] is not done. *)
Lemma then_world (invoke : done_callback → nat → M unit) (a : nat)
    (fn : callable) (deferred : bool) (w : World) :
  state_done (fut_state w a) = false →
  is_Some (heap w !! a) →
  let c := fresh (dom (heap w)) in
  then_ invoke a fn deferred w
  = (Ok c, put_future a
             (mkFuture (_state (get_future w a)) (_result (get_future w a))
                (_exception (get_future w a))
                (_done_callbacks (get_future w a) ++ [CbThen fn deferred c]))
             (registered c w)).
Proof.
  intros Hd Hin c. pose proof (fresh_ne w a Hin) as Hne. fold c in Hne.
  assert (Hget : get_future (registered c w) a = get_future w a).
  { unfold registered. rewrite get_put_future_ne by done.
    rewrite get_future_set_futures. by rewrite get_put_future_ne. }
  unfold then_. rewrite run_Future_new.
  rewrite (run_bind_ok _ _ _ tt) by by rewrite register_new.
  rewrite register_new. cbn [snd]. fold c.
  assert (Hadd : add_done_callback invoke a (CbThen fn deferred c)
                   (registered c w)
                 = (Ok tt, put_future a
                     (mkFuture (_state (get_future w a))
                        (_result (get_future w a))
                        (_exception (get_future w a))
                        (_done_callbacks (get_future w a)
                         ++ [CbThen fn deferred c]))
                     (registered c w))).
  { unfold add_done_callback. rewrite run_gets. unfold fut_state at 1.
    rewrite Hget. fold (fut_state w a). rewrite Hd. cbn [negb].
    unfold modify. by rewrite Hget. }
  unfold bind. by rewrite Hadd.
Qed.

(** The callback of [then(fn, deferred=True)] on a future that is
    FULFILLED: [fn] is queued with the value, and the Future of the
    task is chained into the one that [then] returned. *)
Lemma then_callback_deferred (invoke : done_callback → nat → M unit)
    (a c : nat) (fn : callable) (v : value) (w : World) :
  fulfilled w a v →
  let temp := fresh (dom (heap w)) in
  then_callback cur others invoke a fn true c w
  = (Ok tt,
     put_future temp (mkFuture PENDING VNone None [CbUnregister; CbSetFrom c])
       (set_deferred_pomp_task
          (deferred_pomp_task w ++ [(temp, fn, [v], [])])
          (registered temp w))).
Proof.
  intros (Hs & Hr & He) temp. unfold then_callback.
  rewrite (try_except_ok _ _ _ _ tt).
  - unfold bind at 1. rewrite result_finished by done. rewrite Hr.
    unfold bind. rewrite run_later_world. fold temp.
    rewrite chain_appends.
    + unfold get_future at 1 2 3 4. wsimpl. rewrite !lookup_insert_eq. done.
    + unfold fut_state, get_future. wsimpl. by rewrite !lookup_insert_eq.
  - unfold bind at 1. rewrite result_finished by done. rewrite Hr.
    unfold bind. rewrite run_later_world. fold temp.
    rewrite chain_appends; [done |].
    unfold fut_state, get_future. wsimpl. by rewrite !lookup_insert_eq.
Qed.

End Then.

Section ThenDeferred.
Variable depth : nat.
Variable cur : thread.
Variable others : World → World.
Hypothesis others_frame : ∀ w, frame w (others w).
Local Abbreviation inv1 := (invoke_callback (S depth) cur others).
Local Abbreviation invl := (invoke_callback (S depth) LoopThread others).

Lemma call_fn (body : list value → kwargs → pyret) (args : list value)
    (kwds : kwargs) (w : World) :
  call (Fn body) args kwds w
  = (match body args kwds with Returns v => Ok v | Raises e => Raise e end,
     set_trace (trace w ++ [EvCall (Fn body) args kwds]) w).
Proof.
  unfold call. rewrite run_emit. cbn [apply_callable].
  by destruct (body args kwds).
Qed.

(** Resolving a pending future [a] on which [then(fn, deferred=True)]
    was called: the task is queued. *)
Lemma set_result_then_deferred (a c : nat) (fn : callable)
    (cbs : list done_callback) (v : value) (w : World) :
  pending w a →
  _done_callbacks (get_future w a) = cbs ++ [CbThen fn true c] →
  Forall (λ cb, cb = CbUnregister) cbs →
  ∃ wX, heap wX = heap (resolved a FINISHED v None w)
        ∧ deferred_pomp_task wX = deferred_pomp_task w
        ∧ trace wX = trace w
        ∧ let temp := fresh (dom (heap wX)) in
          set_result inv1 a v w
          = (Ok tt,
             put_future temp
               (mkFuture PENDING VNone None [CbUnregister; CbSetFrom c])
               (set_deferred_pomp_task
                  (deferred_pomp_task wX ++ [(temp, fn, [v], [])])
                  (registered temp wX))).
Proof.
  intros [Hsa Hea] Hcbs Hall.
  unfold set_result. rewrite run_gets, Hsa. cbn [state_done].
  rewrite run_modify. cbv zeta. rewrite Hea.
  change (put_future a (mkFuture FINISHED v None
                          (_done_callbacks (get_future w a))) w)
    with (resolved a FINISHED v None w).
  set (w1 := resolved a FINISHED v None w).
  assert (Hcb1 : _done_callbacks (get_future w1 a)
                 = cbs ++ [CbThen fn true c])
    by (unfold w1; by rewrite resolved_callbacks).
  unfold _invoke_callbacks. rewrite run_gets, Hcb1, for_each_app.
  destruct (for_each_unregister_world depth cur others a cbs w1 Hall)
    as [l Hl].
  unfold bind at 1. rewrite Hl.
  exists (set_futures l w1). split; [done |]. split; [done |].
  split; [done |]. cbn [for_each]. unfold bind, guarded_callback, try_except.
  cbn [invoke_callback callback_body].
  rewrite (then_callback_deferred cur others _ a c fn v); [done |].
  unfold fulfilled, fut_state. rewrite get_future_set_futures.
  unfold w1. by rewrite get_future_resolved.
Qed.

(** X9. [then] with [deferred=True] delivers the outcome of the
    callable.  Let [a] be a pending future of the store that carries
    only the callbacks of [_register], and [c = a.then(fn,
    deferred=True)] for a function [fn] of the caller.  [c] is a new
    Future, pending.  When [a] is resolved with [v], by whatever
    thread, [c] is still pending and [fn] has not been called: it is
    queued with [v].  When the loop thread then drains the deferred
    queue, which held nothing before:
    - if [fn(v)] returns a value that is no Future, [c] is FULFILLED
      with it;
    - if [fn(v)] raises an Exception, [c] is FAILED with it. *)
Theorem then_deferred_delivers (body : list value → kwargs → pyret)
    (a : nat) (v : value) (fuel : nat) (w : World) :
  let c := fresh (dom (heap w)) in
  let w1 := (then_ inv1 a (Fn body) true w).2 in
  let w2 := (set_result inv1 a v w1).2 in
  let w3 := (_run_task_list invl (S fuel) Deferred w2).2 in
  pending w a →
  is_Some (heap w !! a) →
  Forall (λ cb, cb = CbUnregister) (_done_callbacks (get_future w a)) →
  deferred_pomp_task w = [] →
  (then_ inv1 a (Fn body) true w).1 = Ok c
  ∧ pending w1 c
  ∧ fulfilled w2 a v
  ∧ pending w2 c
  ∧ trace w2 = trace w
  ∧ (∀ rv, body [v] [] = Returns rv → is_Future rv = false →
       fulfilled w3 c rv)
  ∧ (∀ e, body [v] [] = Raises e → is_Exception e = true → failed w3 c e).
Proof.
  intros c w1 w2 w3 [Hsa Hea] Hin Hall Hemp.
  pose proof (fresh_ne w a Hin) as Hne. fold c in Hne.
  assert (Hthen : then_ inv1 a (Fn body) true w
                  = (Ok c, put_future a
                      (mkFuture (_state (get_future w a))
                         (_result (get_future w a))
                         (_exception (get_future w a))
                         (_done_callbacks (get_future w a)
                          ++ [CbThen (Fn body) true c]))
                      (registered c w)))
    by (apply then_world; [by rewrite Hsa | done]).
  split; [by rewrite Hthen |].
  assert (Hw1 : w1 = put_future a
                      (mkFuture (_state (get_future w a))
                         (_result (get_future w a))
                         (_exception (get_future w a))
                         (_done_callbacks (get_future w a)
                          ++ [CbThen (Fn body) true c]))
                      (registered c w)) by (unfold w1; by rewrite Hthen).
  assert (Hc1 : get_future w1 c = mkFuture PENDING VNone None [CbUnregister]).
  { rewrite Hw1, get_put_future_ne by done. apply registered_get. }
  assert (Ha1 : get_future w1 a
                = mkFuture PENDING (_result (get_future w a)) None
                    (_done_callbacks (get_future w a)
                     ++ [CbThen (Fn body) true c])).
  { rewrite Hw1, get_put_future_eq. unfold fut_state in Hsa.
    by rewrite Hsa, Hea. }
  split; [unfold pending, fut_state; by rewrite Hc1 |].
  destruct (set_result_then_deferred a c (Fn body)
              (_done_callbacks (get_future w a)) v w1)
    as (wX & HhX & HdX & HtX & Hset);
    [unfold pending, fut_state; by rewrite Ha1 | by rewrite Ha1 | done |].
  set (temp := fresh (dom (heap wX))) in *.
  assert (HaX : get_future wX a
                = mkFuture FINISHED v None
                    (_done_callbacks (get_future w a)
                     ++ [CbThen (Fn body) true c])).
  { rewrite (get_future_heap _ _ _ HhX), get_future_resolved. by rewrite Ha1. }
  assert (HcX : get_future wX c = mkFuture PENDING VNone None [CbUnregister]).
  { rewrite (get_future_heap _ _ _ HhX). unfold resolved.
    by rewrite get_put_future_ne. }
  assert (Hta : temp ≠ a).
  { apply fresh_ne. rewrite HhX. unfold resolved. wsimpl.
    by rewrite lookup_insert_eq. }
  assert (Htc : temp ≠ c).
  { apply fresh_ne. rewrite HhX. unfold resolved. wsimpl.
    rewrite lookup_insert_ne by done. rewrite Hw1. wsimpl.
    rewrite lookup_insert_ne by done. unfold registered. wsimpl.
    by rewrite lookup_insert_eq. }
  assert (Hw2 : w2 = put_future temp
                       (mkFuture PENDING VNone None [CbUnregister; CbSetFrom c])
                       (set_deferred_pomp_task
                          (deferred_pomp_task wX
                           ++ [(temp, Fn body, [v], [])])
                          (registered temp wX)))
    by (unfold w2; by rewrite Hset).
  assert (Hget2 : ∀ r, r ≠ temp → get_future w2 r = get_future wX r).
  { intros r Hr. rewrite Hw2, get_put_future_ne by done.
    change (get_future (registered temp wX) r = get_future wX r).
    unfold registered. rewrite get_put_future_ne by done.
    rewrite get_future_set_futures. by rewrite get_put_future_ne. }
  assert (Ht2 : get_future w2 temp
                = mkFuture PENDING VNone None [CbUnregister; CbSetFrom c])
    by by rewrite Hw2, get_put_future_eq.
  split; [unfold fulfilled, fut_state; by rewrite Hget2, HaX |].
  split; [unfold pending, fut_state; by rewrite Hget2, HcX |].
  split; [rewrite Hw2; cbn; by rewrite HtX, Hw1 |].
  assert (Hq : queue_get Deferred w2 = [(temp, Fn body, [v], [])]).
  { rewrite Hw2. cbn. rewrite HdX, Hw1. cbn. by rewrite Hemp. }
  assert (Hrun : _run_task_list invl (S fuel) Deferred w2
                 = bind (_run_task invl Deferred (temp, Fn body, [v], []) [])
                     (λ _, _run_task_list invl fuel Deferred) w2)
    by by apply run_task_list_step.
  assert (Hp : ∀ wc, heap wc = heap w2 → pending wc temp ∧ pending wc c
               ∧ _done_callbacks (get_future wc temp)
                 = [CbUnregister] ++ [CbSetFrom c]).
  { intros wc Hh. unfold pending, fut_state.
    rewrite !(get_future_heap _ _ _ Hh), Ht2, Hget2, HcX by done. done. }
  assert (Hkeep : ∀ w', outcomes_kept w' (_run_task_list invl fuel Deferred w').2)
    by (intros w'; by apply run_task_list_outcomes).
  split.
  - intros rv Hb Hv. unfold w3. rewrite Hrun. unfold bind at 1.
    rewrite run_task_steps. rewrite call_fn, Hb.
    cbn [fst snd].
    replace (resolve_with invl temp rv) with (set_result invl temp rv)
      by (by destruct rv).
    match goal with
    | |- context [set_result _ _ _ ?wc] =>
        destruct (Hp wc) as (Hpt & Hpc & Hcb); [done |];
        destruct (set_result_chained depth LoopThread others others_frame
                    temp c [CbUnregister] rv wc) as [Hok Hful]; try done
    end.
    { by repeat constructor. }
    destruct (set_result invl temp rv _) as [r0 w4]. cbn [fst snd] in *.
    subst r0. by apply Hkeep.
  - intros e Hb He. unfold w3. rewrite Hrun. unfold bind at 1.
    rewrite run_task_steps. rewrite call_fn, Hb.
    cbn [fst snd]. rewrite He.
    match goal with
    | |- context [bind (_unregister_future ?f true) _ ?wc] =>
        destruct (unregister_future_heap f wc) as (Hu1 & Hu2 & _);
        rewrite (run_bind_ok _ _ _ tt Hu1);
        destruct (Hp (_unregister_future f true wc).2) as (Hpt & Hpc & Hcb);
          [by rewrite Hu2 |];
        destruct (set_exception_chained depth LoopThread others others_frame
                    temp c [CbUnregister] e (_unregister_future f true wc).2)
          as [Hok Hfail]; try done
    end.
    { by repeat constructor. }
    destruct (set_exception invl temp e _) as [r0 w4]. cbn [fst snd] in *.
    subst r0. by apply Hkeep.
Qed.

End ThenDeferred.

(** ** [then] on a future that fails *)

Section ThenFailure.
Variable depth : nat.
Variable cur : thread.
Variable others : World → World.
Hypothesis others_frame : ∀ w, frame w (others w).
Local Abbreviation inv := (invoke_callback depth cur others).
Local Abbreviation inv1 := (invoke_callback (S depth) cur others).

(** The three branches of the callback of [then] start with
    [self.result()]. *)
Lemma then_callback_steps (invoke : done_callback → nat → M unit) (a c : nat)
    (fn : callable) (deferred : bool) (w : World) :
  state_done (fut_state w a) = true →
  then_callback cur others invoke a fn deferred c w
  = match outcome_of w a with
    | Ok v =>
        try_except
          (if deferred then
             bind (run_later invoke fn [v] []) (λ temp, chain invoke temp c)
           else if negb (is_loop_thread cur) then
             bind (run_async cur invoke fn [v] [])
               (λ temp, chain invoke temp c)
           else bind (call fn [v] []) (λ r, set_result invoke c r))
          any_exception
          (λ e, if is_Exception e then
                  bind (Future_logging_exception a
                          "Unhandled exception while chaining futures")
                    (λ _, set_exception invoke c e)
                else bind (cancel invoke c) (λ _, ret tt)) w
    | Raise e =>
        if is_Exception e then (Raise (AttributeError "logging"), w)
        else bind (cancel invoke c) (λ _, ret tt) w
    | Blocked => (Blocked, w)
    | OutOfFuel => (OutOfFuel, w)
    end.
Proof.
  intros Hd. unfold then_callback, try_except.
  destruct deferred; [| destruct (negb (is_loop_thread cur))];
    unfold bind at 1 4; rewrite !result_done by done;
    fold (outcome_of w a); destruct (outcome_of w a) as [v | e | |];
    try done; cbn [any_exception]; by destruct (is_Exception e).
Qed.

(** The callback of [then], run by [_invoke_callbacks] on a future that
    is cancelled or FAILED with an Exception. *)
Lemma guarded_then_lost (a c : nat) (fn : callable) (deferred : bool)
    (e : exn) (w : World) :
  state_done (fut_state w a) = true →
  outcome_of w a = Raise e →
  is_Exception e = true →
  guarded_callback inv1 a (CbThen fn deferred c) w
  = (Ok tt, set_trace (trace w ++ [EvFuturesLog a]) w).
Proof.
  intros Hd Ho He. unfold guarded_callback, try_except.
  cbn [invoke_callback callback_body].
  rewrite then_callback_steps by done. by rewrite Ho, He.
Qed.

Lemma cascade_then_lost (a c : nat) (fn : callable) (deferred : bool)
    (cbs : list done_callback) (e : exn) (w : World) :
  _done_callbacks (get_future w a) = cbs ++ [CbThen fn deferred c] →
  Forall (λ cb, cb = CbUnregister) cbs →
  state_done (fut_state w a) = true →
  outcome_of w a = Raise e →
  is_Exception e = true →
  ∃ l, _invoke_callbacks inv1 a w
       = (Ok tt, set_trace (trace w ++ [EvFuturesLog a]) (set_futures l w)).
Proof.
  intros Hcbs Hall Hd Ho He.
  unfold _invoke_callbacks. rewrite run_gets, Hcbs, for_each_app.
  destruct (for_each_unregister_world depth cur others a cbs w Hall) as [l Hl].
  unfold bind at 1. rewrite Hl. exists l.
  cbn [for_each]. unfold bind.
  by rewrite (guarded_then_lost a c fn deferred e).
Qed.

(** X10. [then] does not pass on the failure of its source.  Let
    [c = a.then(fn, deferred)], whatever [deferred] and the threads
    involved.  When [a] is cancelled or FAILED with an Exception, be it
    before the call of [then] or after it, the done-callback of [then]
    raises at [self.logging], an attribute that a Future does not have:
    the error is logged by [concurrent.futures], [fn] is neither called
    nor queued, and [c] is left pending: it is not FAILED and not
    cancelled. *)
Theorem then_loses_the_failure_of_its_source (a : nat) (fn : callable)
    (deferred : bool) (e : exn) (w : World) :
  let c := fresh (dom (heap w)) in
  let now := then_ inv1 a fn deferred w in
  let later := set_exception inv1 a e now.2 in
  let cancelled_later := cancel inv1 a now.2 in
  is_Some (heap w !! a) →
  is_Exception e = true →
  (state_done (fut_state w a) = true → outcome_of w a = Raise e →
     now.1 = Ok c ∧ pending now.2 c
     ∧ trace now.2 = trace w ++ [EvFuturesLog a]
     ∧ same_queues w now.2)
  ∧ (pending w a →
     Forall (λ cb, cb = CbUnregister) (_done_callbacks (get_future w a)) →
     (later.1 = Ok tt ∧ failed later.2 a e ∧ pending later.2 c
      ∧ trace later.2 = trace w ++ [EvFuturesLog a]
      ∧ same_queues w later.2)
     ∧ (cancelled_later.1 = Ok true ∧ is_cancelled cancelled_later.2 a
        ∧ pending cancelled_later.2 c
        ∧ trace cancelled_later.2 = trace w ++ [EvFuturesLog a]
        ∧ same_queues w cancelled_later.2)).
Proof.
  intros c now later cancelled_later Hin He.
  pose proof (fresh_ne w a Hin) as Hne. fold c in Hne.
  assert (Hget : get_future (registered c w) a = get_future w a).
  { unfold registered. rewrite get_put_future_ne by done.
    rewrite get_future_set_futures. by rewrite get_put_future_ne. }
  assert (Hreg : get_future (registered c w) c
                 = mkFuture PENDING VNone None [CbUnregister])
    by apply registered_get.
  split.
  - intros Hd Ho.
    assert (Hnow : now = (Ok c, set_trace (trace w ++ [EvFuturesLog a])
                                  (registered c w))).
    { unfold now, then_. rewrite run_Future_new.
      rewrite (run_bind_ok _ _ _ tt) by by rewrite register_new.
      rewrite register_new. cbn [snd]. fold c.
      assert (Hadd : add_done_callback inv1 a (CbThen fn deferred c)
                       (registered c w)
                     = (Ok tt, set_trace (trace w ++ [EvFuturesLog a])
                                 (registered c w))).
      { unfold add_done_callback. rewrite run_gets. unfold fut_state at 1.
        rewrite Hget. fold (fut_state w a). rewrite Hd. cbn [negb].
        rewrite (guarded_then_lost a c fn deferred e); [done | | | done].
        - unfold fut_state. by rewrite Hget.
        - unfold outcome_of, fut_state. by rewrite Hget. }
      unfold bind. by rewrite Hadd. }
    rewrite Hnow. cbn [fst snd]. split; [done |]. split.
    { unfold pending, fut_state.
      change (get_future (set_trace (trace w ++ [EvFuturesLog a])
                            (registered c w)) c)
        with (get_future (registered c w) c).
      by rewrite Hreg. }
    by repeat split.
  - intros [Hsa Hea] Hall.
    assert (Hnow : now = (Ok c, put_future a
                      (mkFuture (_state (get_future w a))
                         (_result (get_future w a))
                         (_exception (get_future w a))
                         (_done_callbacks (get_future w a)
                          ++ [CbThen fn deferred c]))
                      (registered c w)))
      by (apply then_world; [by rewrite Hsa | done]).
    set (w1 := now.2).
    assert (Hw1 : w1 = put_future a
                      (mkFuture (_state (get_future w a))
                         (_result (get_future w a))
                         (_exception (get_future w a))
                         (_done_callbacks (get_future w a)
                          ++ [CbThen fn deferred c]))
                      (registered c w)) by (unfold w1; by rewrite Hnow).
    assert (Ha1 : get_future w1 a
                  = mkFuture PENDING (_result (get_future w a)) None
                      (_done_callbacks (get_future w a)
                       ++ [CbThen fn deferred c])).
    { rewrite Hw1, get_put_future_eq. unfold fut_state in Hsa.
      by rewrite Hsa, Hea. }
    assert (Hc1 : get_future w1 c = mkFuture PENDING VNone None [CbUnregister]).
    { rewrite Hw1, get_put_future_ne by done. apply registered_get. }
    assert (Hs1 : fut_state w1 a = PENDING)
      by (unfold fut_state; by rewrite Ha1).
    assert (Hq1 : same_queues w w1) by (rewrite Hw1; by split).
    assert (Ht1 : trace w1 = trace w) by by rewrite Hw1.
    assert (Hend : ∀ (s : fstate) (x : option exn) (e0 : exn),
              state_done s = true →
              outcome_of (resolved a s (_result (get_future w a)) x w1) a
              = Raise e0 →
              is_Exception e0 = true →
              ∃ l, _invoke_callbacks inv1 a
                     (resolved a s (_result (get_future w a)) x w1)
                   = (Ok tt,
                      set_trace (trace w ++ [EvFuturesLog a])
                        (set_futures l
                           (resolved a s (_result (get_future w a)) x w1)))).
    { intros s x e0 Hs Ho He0.
      destruct (cascade_then_lost a c fn deferred
                  (_done_callbacks (get_future w a)) e0
                  (resolved a s (_result (get_future w a)) x w1))
        as [l Hl]; try done.
      - by rewrite resolved_callbacks, Ha1.
      - unfold fut_state. by rewrite get_future_resolved.
      - exists l. rewrite Hl. unfold resolved. cbn. by rewrite Ht1. }
    assert (Hcr : ∀ s x w2 l,
              w2 = set_trace (trace w ++ [EvFuturesLog a])
                     (set_futures l
                        (resolved a s (_result (get_future w a)) x w1)) →
              get_future w2 a
              = mkFuture s (_result (get_future w a)) x
                  (_done_callbacks (get_future w1 a))
              ∧ pending w2 c ∧ trace w2 = trace w ++ [EvFuturesLog a]
              ∧ same_queues w w2).
    { intros s x w2 l ->.
      change (get_future (set_trace ?t (set_futures ?l0 ?w0)) ?r)
        with (get_future w0 r).
      split; [by rewrite get_future_resolved |].
      split.
      { unfold pending, fut_state.
        change (get_future (set_trace ?t (set_futures ?l0 ?w0)) ?r)
          with (get_future w0 r).
        unfold resolved. by rewrite get_put_future_ne, Hc1 by done. }
      split; [done |]. exact Hq1. }
    split.
    + destruct (Hend FINISHED (Some e) e) as [l Hl]; try done.
      { unfold outcome_of, fut_state. by rewrite get_future_resolved. }
      assert (Hlater : later
                = (Ok tt,
                   set_trace (trace w ++ [EvFuturesLog a])
                     (set_futures l
                        (resolved a FINISHED (_result (get_future w a))
                           (Some e) w1)))).
      { unfold later. fold w1. unfold set_exception.
        rewrite run_gets, Hs1. cbn [state_done]. rewrite run_modify.
        cbv zeta. rewrite <- Hl. f_equal. unfold resolved.
        by rewrite Ha1. }
      destruct (Hcr FINISHED (Some e) later.2 l) as (H1 & H2 & H3 & H4);
        [by rewrite Hlater |].
      split; [by rewrite Hlater |].
      split; [unfold failed, fut_state; by rewrite H1 |]. done.
    + destruct (Hend CANCELLED None CancelledError) as [l Hl]; try done.
      { unfold outcome_of, fut_state. by rewrite get_future_resolved. }
      assert (Hcl : cancelled_later
                = (Ok true,
                   set_trace (trace w ++ [EvFuturesLog a])
                     (set_futures l
                        (resolved a CANCELLED (_result (get_future w a))
                           None w1)))).
      { unfold cancelled_later. fold w1. unfold cancel, set_state.
        rewrite run_gets, Hs1. rewrite run_modify.
        replace (put_future a (with_state CANCELLED (get_future w1 a)) w1)
          with (resolved a CANCELLED (_result (get_future w a)) None w1)
          by (unfold resolved; by rewrite Ha1).
        unfold bind. by rewrite Hl. }
      destruct (Hcr CANCELLED None cancelled_later.2 l) as (H1 & H2 & H3 & H4);
        [by rewrite Hcl |].
      split; [by rewrite Hcl |].
      split; [unfold is_cancelled, fut_state; by rewrite H1 |]. done.
Qed.

End ThenFailure.

(** ** A task whose Future is done before its turn *)

Section DoneTask.
Variable depth : nat.
Variable others : World → World.
Local Abbreviation invl := (invoke_callback depth LoopThread others).

Lemma wait_and_process_logged_world (w : World) :
  ∃ p t, wait_and_process_logged w
         = (Ok tt, set_trace (trace w ++ t) (set_pomp p w)).
Proof.
  unfold wait_and_process_logged, try_except, _wait_and_process.
  rewrite run_gets, run_emit, run_gets, run_modify.
  destruct (pomp_loop_wait_and_process _ _) as [[msg |] p]; cbn.
  - exists p. eexists [_; _]. unfold log, emit, modify. cbn.
    by rewrite <- app_assoc.
  - exists p. by eexists [_].
Qed.

(** A method of the loop returns a boolean or None, or raises an
    Exception, on every store. *)
Lemma method_call_outcome (f : callable) (args : list value) (kwds : kwargs)
    (w : World) :
  match f with
  | Fn _ => True
  | _ => mild (call f args kwds w).1
         ∧ ∀ r, (call f args kwds w).1 ≠ Ok (VFuture r)
  end.
Proof.
  unfold call. rewrite run_emit. unfold apply_callable.
  destruct f; [| | | done]; repeat case_match; try done;
    unfold _has_fd, _add_fd_to_loop, _remove_fd_from_loop; cbv zeta; mrun;
    repeat case_match; mrun; try done;
    repeat match goal with
           | |- context [if ?x then _ else _] => destruct x; mrun
           end; done.
Qed.

(** Whether a call returns a value that is no Future, or raises an
    Exception, does not depend on the store. *)
Lemma call_outcome_kind (f : callable) (args : list value) (kwds : kwargs)
    (w w' : World) :
  mild (call f args kwds w).1 →
  (∀ r, (call f args kwds w).1 ≠ Ok (VFuture r)) →
  mild (call f args kwds w').1
  ∧ ∀ r, (call f args kwds w').1 ≠ Ok (VFuture r).
Proof.
  intros Hm Hnf. pose proof (method_call_outcome f args kwds w') as H.
  destruct f; try done.
  rewrite call_fn in Hm, Hnf. rewrite call_fn. done.
Qed.

(** X11. A task whose Future is done already when its turn comes, for
    instance because the caller of [has_fd] or of [result_or_cancel]
    gave up and cancelled it: the callable is called all the same, and
    when it returns a value that is no Future or raises an Exception,
    the attempt to resolve the Future raises InvalidStateError.  The
    error is not caught: it leaves [_run_task_list] with the tasks that
    were behind still in the queue and the Future as it was, and for a
    task of the immediate queue it ends the iteration of [run] before
    the deferred queue is looked at. *)
Theorem done_task_stops_the_drain (fuel : nat) (q : queue) (future : nat)
    (f : callable) (args : list value) (kwds : kwargs) (rest : list task)
    (w : World) :
  let c := call f args kwds (queue_set q rest w) in
  let out := _run_task_list invl (S fuel) q w in
  queue_get q w = (future, f, args, kwds) :: rest →
  state_done (fut_state w future) = true →
  mild c.1 →
  (∀ r, c.1 ≠ Ok (VFuture r)) →
  out.1 = Raise InvalidStateError
  ∧ queue_get q out.2 = rest
  ∧ get_future out.2 future = get_future w future
  ∧ (∃ t, trace out.2 = trace w ++ EvCall f args kwds :: t)
  ∧ (q = Async →
     (run_iteration invl (S fuel) w).1 = Raise InvalidStateError
     ∧ deferred_pomp_task (run_iteration invl (S fuel) w).2
       = deferred_pomp_task w).
Proof.
  intros c out Hq Hd Hmild Hnf.
  assert (Hturn : ∀ w0 : World,
            queue_get q w0 = (future, f, args, kwds) :: rest →
            get_future w0 future = get_future w future →
            mild (call f args kwds (queue_set q rest w0)).1 →
            (∀ r, (call f args kwds (queue_set q rest w0)).1
                  ≠ Ok (VFuture r)) →
            ∃ l t,
              _run_task_list invl (S fuel) q w0
              = (Raise InvalidStateError,
                 set_futures l
                   (set_trace
                      ((trace (call f args kwds (queue_set q rest w0)).2) ++ t)
                      (call f args kwds (queue_set q rest w0)).2))).
  { intros w0 Hq0 Hg0 Hm0 Hnf0.
    rewrite (run_task_list_step depth others fuel q _ rest w0 Hq0).
    unfold bind. rewrite run_task_steps.
    set (c0 := call f args kwds (queue_set q rest w0)) in *.
    assert (Hgc : get_future c0.2 future = get_future w future).
    { unfold c0. by rewrite call_get_future. }
    destruct c0.1 as [v | e | |] eqn:Hc; try done.
    - replace (resolve_with invl future v) with (set_result invl future v)
        by (destruct v; try done; by destruct (Hnf0 ref)).
      rewrite set_result_done by (unfold fut_state; by rewrite Hgc).
      exists (futures c0.2), []. rewrite app_nil_r.
      f_equal. by destruct c0.2.
    - cbn in Hm0. rewrite Hm0.
      match goal with
      | |- context [bind (_unregister_future ?x true) _ ?wc] =>
          destruct (unregister_future_heap x wc) as (Hu1 & Hu2 & l & Hu3);
          rewrite (run_bind_ok _ _ _ tt Hu1), Hu3
      end.
      rewrite set_exception_done.
      + by exists l, [EvLog EXCEPTION
                        "Unhandled exception in async task function" []].
      + unfold fut_state.
        change (get_future (set_futures l (set_trace ?t ?w1)) ?r)
          with (get_future w1 r).
        by rewrite Hgc. }
  destruct (call_keeps f args kwds (queue_set q rest w)) as (_ & Has & Hde & _).
  fold c in Has, Hde.
  destruct (Hturn w Hq eq_refl Hmild Hnf) as (l & t & Hout). fold c in Hout.
  split; [unfold out; by rewrite Hout |].
  split; [unfold out; rewrite Hout; cbn [snd]; destruct q; cbn;
          by rewrite ?Has, ?Hde |].
  split.
  { unfold out. rewrite Hout. cbn [snd].
    change (get_future (set_futures l (set_trace ?t0 ?w1)) ?r)
      with (get_future w1 r).
    apply call_get_future. }
  split.
  { unfold out. rewrite Hout. cbn [snd trace set_futures set_trace].
    destruct (preserves_apply_callable f args kwds
                (set_trace (trace (queue_set q rest w) ++ [EvCall f args kwds])
                   (queue_set q rest w))) as (_ & [t' Ht'] & _).
    exists (t' ++ t). unfold c, call. rewrite run_emit, Ht'.
    cbn [trace set_trace].
    replace (trace (queue_set q rest w)) with (trace w) by by destruct q.
    by rewrite <- !app_assoc. }
  intros ->.
  destruct (wait_and_process_logged_world w) as (p & t0 & Hwait).
  set (w0 := set_trace (trace w ++ t0) (set_pomp p w)) in *.
  destruct (call_outcome_kind f args kwds (queue_set Async rest w)
              (queue_set Async rest w0) Hmild Hnf) as [Hm0 Hnf0].
  destruct (Hturn w0 Hq eq_refl Hm0 Hnf0) as (l0 & t1 & Hout0).
  destruct (call_keeps f args kwds (queue_set Async rest w0))
    as (_ & _ & Hde0 & _).
  assert (Hit : run_iteration invl (S fuel) w
                = (Raise InvalidStateError,
                   set_futures l0
                     (set_trace
                        (trace (call f args kwds (queue_set Async rest w0)).2
                         ++ t1)
                        (call f args kwds (queue_set Async rest w0)).2))).
  { unfold run_iteration, bind. by rewrite Hwait, Hout0. }
  rewrite Hit. cbn [fst snd]. split; [done |].
  cbn [deferred_pomp_task set_futures set_trace]. by rewrite Hde0.
Qed.

End DoneTask.

(** * Properties of the rest of the loop *)

Section RestProperties.
Context {X : LibpompMore L}.

(** ** Running a method on a loop *)

Section LRun.
Context {A B : Type}.

Lemma run_lret (a : A) (k : A → ML B) (s : Loop) : lbind (lret a) k s = k a s.
Proof. reflexivity. Qed.

Lemma run_lraise (e : exn) (k : A → ML B) (s : Loop) :
  lbind (lraise e) k s = (Raise e, s).
Proof. reflexivity. Qed.

Lemma run_lgets (f : Loop → A) (k : A → ML B) (s : Loop) :
  lbind (lgets f) k s = k (f s) s.
Proof. reflexivity. Qed.

Lemma run_lmodify (f : Loop → Loop) (k : unit → ML B) (s : Loop) :
  lbind (lmodify f) k s = k tt (f s).
Proof. reflexivity. Qed.

Lemma run_more_status (c : more_call) (f : native → Z * native)
    (k : Z → ML B) (s : Loop) :
  lbind (more_status c f) k s
  = k (f (pomp (world s))).1
      (set_world (set_pomp (f (pomp (world s))).2 (world s))
         (set_native_log (native_log s ++ [c]) s)).
Proof. reflexivity. Qed.

Lemma run_lift_log (lvl : log_level) (fmt : string) (args : list value)
    (k : unit → ML B) (s : Loop) :
  lbind (lift (log lvl fmt args)) k s
  = k tt (set_world
            (set_trace (trace (world s) ++ [EvLog lvl fmt args]) (world s)) s).
Proof. reflexivity. Qed.

Lemma run_lift_modify (f : World → World) (k : unit → ML B) (s : Loop) :
  lbind (lift (modify f)) k s = k tt (set_world (f (world s)) s).
Proof. reflexivity. Qed.

Lemma run_lift_ok (m : M A) (k : A → ML B) (s : Loop) (a : A) :
  (m (world s)).1 = Ok a →
  lbind (lift m) k s = k a (set_world (m (world s)).2 s).
Proof. intros H. unfold lbind, lift. by rewrite H. Qed.

Lemma run_lift_raise (m : M A) (k : A → ML B) (s : Loop) (e : exn) :
  (m (world s)).1 = Raise e →
  lbind (lift m) k s = (Raise e, set_world (m (world s)).2 s).
Proof. intros H. unfold lbind, lift. by rewrite H. Qed.

Lemma run_lbind_assoc {C : Type} (m : ML A) (k1 : A → ML B) (k2 : B → ML C)
    (s : Loop) :
  lbind (lbind m k1) k2 s = lbind m (λ a, lbind (k1 a) k2) s.
Proof. unfold lbind. by destruct (m s) as [[a | e | |] s1]. Qed.

Lemma run_lbind_ok (m : ML A) (k : A → ML B) (s : Loop) (a : A) :
  (m s).1 = Ok a → lbind m k s = k a (m s).2.
Proof. unfold lbind. destruct (m s) as [r s1]; simpl. by intros ->. Qed.

End LRun.

(** Reduction of the projections of [Loop] over its updates. *)
Ltac lsimpl :=
  cbn [world pomp_loop pomp_events pomp_event_callbacks evt_userdata
       c_evt_userdata cleanup_functions native_log
       set_world set_pomp_loop set_pomp_events set_pomp_event_callbacks
       set_evt_userdata set_c_evt_userdata set_cleanup_functions
       set_native_log fst snd negb] in *.

Ltac lrun :=
  repeat (first
    [ rewrite run_lret | rewrite run_lraise | rewrite run_lgets
    | rewrite run_lmodify | rewrite run_more_status | rewrite run_lift_log
    | rewrite run_lift_modify | rewrite run_lbind_assoc
    | progress lsimpl | progress wsimpl ]).

(** ** The event registry *)

Section Events.

Lemma alist_get_set_eq {V : Type} (k : nat) (v : V) (d : list (nat * V)) :
  alist_get k (alist_set k v d) = Some v.
Proof.
  induction d as [| [k' v'] d IH]; cbn.
  - by rewrite Nat.eqb_refl.
  - destruct (Nat.eqb k' k) eqn:E; cbn; [by rewrite Nat.eqb_refl |].
    by rewrite E.
Qed.

Lemma alist_get_del_eq {V : Type} (k : nat) (d : list (nat * V)) :
  alist_get k (alist_del k d) = None.
Proof.
  induction d as [| [k' v'] d IH]; cbn; [done |].
  destruct (Nat.eqb k' k) eqn:E; cbn; [done |]. by rewrite E.
Qed.

Lemma alist_del_absent {V : Type} (k : nat) (d : list (nat * V)) :
  alist_get k d = None → alist_del k d = d.
Proof.
  induction d as [| [k' v'] d IH]; cbn; [done |].
  destruct (Nat.eqb k' k) eqn:E; [done |]. intros H. by rewrite IH.
Qed.

Lemma alist_del_set_absent {V : Type} (k : nat) (v : V) (d : list (nat * V)) :
  alist_get k d = None → alist_del k (alist_set k v d) = d.
Proof.
  induction d as [| [k' v'] d IH]; cbn.
  - by rewrite Nat.eqb_refl.
  - destruct (Nat.eqb k' k) eqn:E; [done |]. intros H. cbn.
    by rewrite E, IH.
Qed.

(** The loop once the four [pop] of [_remove_event_from_loop] are
    done. *)
Lemma remove_event_steps (pomp_evt : option nat) (s : Loop) :
  let s1 := set_pomp_events (alist_del (evt_id pomp_evt) (pomp_events s))
              (set_pomp_event_callbacks
                 (delete (evt_id pomp_evt) (pomp_event_callbacks s))
                 (set_c_evt_userdata
                    (delete (evt_id pomp_evt) (c_evt_userdata s))
                    (set_evt_userdata
                       (delete (evt_id pomp_evt) (evt_userdata s)) s))) in
  let st := pomp_evt_detach_from_loop pomp_evt (pomp (world s)) in
  _remove_event_from_loop pomp_evt s
  = (Ok tt,
     match alist_get (evt_id pomp_evt) (pomp_events s) with
     | None => s1
     | Some _ =>
         set_world
           (let w1 := set_pomp st.2 (world s) in
            if Z.eqb st.1 0 then w1
            else set_trace
                   (trace w1
                    ++ [EvLog ERROR cannot_remove_event
                          [VInt (Z.of_nat (evt_id pomp_evt))]]) w1)
           (set_native_log
              (native_log s ++ [Pomp_evt_detach_from_loop pomp_evt]) s1)
     end).
Proof.
  unfold _remove_event_from_loop. cbv zeta. lrun.
  destruct (alist_get _ _); [| done]. lrun.
  destruct (Z.eqb _ 0); cbn [negb]; [done |].
  unfold lift, log, emit, modify. by lsimpl.
Qed.

End Events.

Section EventRegistry.

(** The loop that [_add_event_to_loop] leaves. *)
Lemma add_event_world (pomp_evt : option nat) (cb userdata : value)
    (s : Loop) :
  let k := evt_id pomp_evt in
  let st := pomp_evt_attach_to_loop pomp_evt (pomp (world s)) in
  _add_event_to_loop pomp_evt cb userdata s
  = ((if Z.eqb st.1 0 then Ok tt
      else Raise (RuntimeError "Cannot add eventfd to pomp loop")),
     set_world (set_pomp st.2 (world s))
       (set_native_log
          (native_log s
           ++ [Pomp_evt_attach_to_loop pomp_evt (VCFunc cb) (VPtr userdata)])
          (set_c_evt_userdata (<[k := VPtr userdata]> (c_evt_userdata s))
             (set_evt_userdata (<[k := userdata]> (evt_userdata s))
                (set_pomp_event_callbacks
                   (<[k := VCFunc cb]> (pomp_event_callbacks s))
                   (set_pomp_events
                      (alist_set k pomp_evt (pomp_events s)) s)))))).
Proof.
  intros k st. unfold _add_event_to_loop. cbv zeta. fold k. lrun.
  rewrite lookup_insert_eq. cbn [default from_option id]. fold st.
  by destruct (Z.eqb st.1 0).
Qed.

(** X12. The event registry.  [_remove_event_from_loop] never raises and
    leaves no entry for the event in any of the four event
    dictionaries, whatever libpomp answers; it asks libpomp to detach
    the event only when the event was in [pomp_events], so that a
    second removal right after the first changes nothing.
    [_add_event_to_loop] files the event, its ctypes callback and its
    userdata under the identity of the event before it asks libpomp to
    attach it, and raises RuntimeError when libpomp refuses: the four
    entries are there in both cases.  Adding an event that had no entry
    and removing it again gives back the four dictionaries. *)
Theorem event_registry_add_remove (pomp_evt : option nat) (cb userdata : value)
    (s : Loop) :
  let k := evt_id pomp_evt in
  let removed := _remove_event_from_loop pomp_evt s in
  let again := _remove_event_from_loop pomp_evt removed.2 in
  let added := _add_event_to_loop pomp_evt cb userdata s in
  let st := pomp_evt_attach_to_loop pomp_evt (pomp (world s)) in
  removed.1 = Ok tt
  ∧ no_event_entry removed.2 k
  ∧ native_log removed.2
    = native_log s
      ++ match alist_get k (pomp_events s) with
         | Some _ => [Pomp_evt_detach_from_loop pomp_evt]
         | None => []
         end
  ∧ again = (Ok tt, removed.2)
  ∧ added.1 = (if Z.eqb st.1 0 then Ok tt
               else Raise (RuntimeError "Cannot add eventfd to pomp loop"))
  ∧ alist_get k (pomp_events added.2) = Some pomp_evt
  ∧ pomp_event_callbacks added.2 !! k = Some (VCFunc cb)
  ∧ evt_userdata added.2 !! k = Some userdata
  ∧ c_evt_userdata added.2 !! k = Some (VPtr userdata)
  ∧ native_log added.2
    = native_log s
      ++ [Pomp_evt_attach_to_loop pomp_evt (VCFunc cb) (VPtr userdata)]
  ∧ (no_event_entry s k →
     same_event_tables s (_remove_event_from_loop pomp_evt added.2).2).
Proof.
  intros k removed again added st.
  assert (Hrem : ∀ s0, (_remove_event_from_loop pomp_evt s0).1 = Ok tt
            ∧ no_event_entry (_remove_event_from_loop pomp_evt s0).2 k
            ∧ native_log (_remove_event_from_loop pomp_evt s0).2
              = native_log s0
                ++ match alist_get k (pomp_events s0) with
                   | Some _ => [Pomp_evt_detach_from_loop pomp_evt]
                   | None => []
                   end
            ∧ pomp_events (_remove_event_from_loop pomp_evt s0).2
              = alist_del k (pomp_events s0)
            ∧ pomp_event_callbacks (_remove_event_from_loop pomp_evt s0).2
              = delete k (pomp_event_callbacks s0)
            ∧ evt_userdata (_remove_event_from_loop pomp_evt s0).2
              = delete k (evt_userdata s0)
            ∧ c_evt_userdata (_remove_event_from_loop pomp_evt s0).2
              = delete k (c_evt_userdata s0)).
  { intros s0. rewrite remove_event_steps. cbn [fst snd]. fold k.
    split; [done |]. unfold no_event_entry.
    destruct (alist_get k (pomp_events s0)) eqn:Hg; lsimpl;
      rewrite ?alist_get_del_eq, ?lookup_delete_eq, ?app_nil_r; done. }
  assert (Hadd : added
            = ((if Z.eqb st.1 0 then Ok tt
                else Raise (RuntimeError "Cannot add eventfd to pomp loop")),
               set_world (set_pomp st.2 (world s))
                 (set_native_log
                    (native_log s
                     ++ [Pomp_evt_attach_to_loop pomp_evt (VCFunc cb)
                           (VPtr userdata)])
                    (set_c_evt_userdata (<[k := VPtr userdata]> (c_evt_userdata s))
                       (set_evt_userdata (<[k := userdata]> (evt_userdata s))
                          (set_pomp_event_callbacks
                             (<[k := VCFunc cb]> (pomp_event_callbacks s))
                             (set_pomp_events
                                (alist_set k pomp_evt (pomp_events s)) s))))))).
  { unfold added, _add_event_to_loop. cbv zeta. fold k. lrun.
    rewrite lookup_insert_eq. cbn [default from_option id]. fold st.
    by destruct (Z.eqb st.1 0). }
  destruct (Hrem s) as (H1 & H2 & H3 & H4 & H5 & H6 & H7).
  split; [exact H1 |]. split; [exact H2 |]. split; [exact H3 |].
  split.
  { unfold again. rewrite remove_event_steps. fold k.
    destruct H2 as (G1 & G2 & G3 & G4). fold removed in G1, G2, G3, G4.
    rewrite G1. f_equal. rewrite alist_del_absent by done.
    rewrite !delete_id by done. by destruct removed.2. }
  rewrite Hadd. cbn [fst snd]. lsimpl.
  rewrite alist_get_set_eq, !lookup_insert_eq.
  do 6 (split; [done |]).
  intros (G1 & G2 & G3 & G4).
  match goal with
  | |- same_event_tables s (_remove_event_from_loop pomp_evt ?s1).2 =>
      destruct (Hrem s1) as (_ & _ & _ & E1 & E2 & E3 & E4)
  end.
  lsimpl. unfold same_event_tables. rewrite E1, E2, E3, E4.
  rewrite alist_del_set_absent by done.
  by rewrite !delete_insert_id by done.
Qed.

End EventRegistry.

(** ** Shutdown: the registries *)

Section DestroyFds.

(** The parts that a step leaves alone, through a sequence of steps. *)
Ltac same_unfold :=
  unfold same_fd_tables, same_timer_tables, same_tasks, same_attributes,
    same_event_tables in *.

Lemma same_fd_tables_trans (w1 w2 w3 : World) :
  same_fd_tables w1 w2 → same_fd_tables w2 w3 → same_fd_tables w1 w3.
Proof. same_unfold. intuition congruence. Qed.

Lemma same_timer_tables_trans (w1 w2 w3 : World) :
  same_timer_tables w1 w2 → same_timer_tables w2 w3 →
  same_timer_tables w1 w3.
Proof. same_unfold. intuition congruence. Qed.

Lemma same_tasks_trans (w1 w2 w3 : World) :
  same_tasks w1 w2 → same_tasks w2 w3 → same_tasks w1 w3.
Proof. same_unfold. intuition congruence. Qed.

Lemma same_attributes_trans (s1 s2 s3 : Loop) :
  same_attributes s1 s2 → same_attributes s2 s3 → same_attributes s1 s3.
Proof. same_unfold. intuition congruence. Qed.

Lemma same_event_tables_trans (s1 s2 s3 : Loop) :
  same_event_tables s1 s2 → same_event_tables s2 s3 →
  same_event_tables s1 s3.
Proof. same_unfold. intuition congruence. Qed.

(** What [_remove_event_from_loop] leaves alone and what it deletes. *)
Lemma remove_event_effect (pomp_evt : option nat) (s : Loop) :
  let out := _remove_event_from_loop pomp_evt s in
  out.1 = Ok tt
  ∧ pomp_events out.2 = alist_del (evt_id pomp_evt) (pomp_events s)
  ∧ pomp_event_callbacks out.2
    = delete (evt_id pomp_evt) (pomp_event_callbacks s)
  ∧ evt_userdata out.2 = delete (evt_id pomp_evt) (evt_userdata s)
  ∧ c_evt_userdata out.2 = delete (evt_id pomp_evt) (c_evt_userdata s)
  ∧ same_attributes s out.2
  ∧ same_fd_tables (world s) (world out.2)
  ∧ same_timer_tables (world s) (world out.2)
  ∧ same_tasks (world s) (world out.2).
Proof.
  intros out. unfold out. rewrite remove_event_steps. cbn [fst snd].
  same_unfold.
  destruct (alist_get _ _); lsimpl; [| by repeat split].
  destruct (Z.eqb _ 0); by repeat split.
Qed.

Lemma alist_del_elem {V : Type} (k : nat) (d : list (nat * V))
    (kv : nat * V) :
  kv ∈ alist_del k d → kv ∈ d ∧ kv.1 ≠ k.
Proof.
  induction d as [| [k' v'] d IH]; cbn; [by intros ?%elem_of_nil |].
  destruct (Nat.eqb k' k) eqn:E.
  - intros H. destruct (IH H). split; [by apply elem_of_cons; right | done].
  - intros [-> | H]%elem_of_cons.
    + split; [by apply elem_of_cons; left |]. by apply Nat.eqb_neq.
    + destruct (IH H). split; [by apply elem_of_cons; right | done].
Qed.

Lemma delete_shrinks (m : gmap nat value) (k0 k : nat) (v : value) :
  delete k0 m !! k = Some v → m !! k = Some v ∧ k ≠ k0.
Proof.
  destruct (decide (k = k0)) as [-> | Hne].
  - by rewrite lookup_delete_eq.
  - by rewrite lookup_delete_ne.
Qed.

Lemma delete_shrinks_Z (m : gmap Z value) (k0 k : Z) (v : value) :
  delete k0 m !! k = Some v → m !! k = Some v ∧ k ≠ k0.
Proof.
  destruct (decide (k = k0)) as [-> | Hne].
  - by rewrite lookup_delete_eq.
  - by rewrite lookup_delete_ne.
Qed.

(** The loop over the events of [_destroy_pomp_loop_fds]: it deletes,
    and nothing but the entries of the events it is given. *)
Lemma remove_events_loop (evts : list (option nat)) (s : Loop) :
  let out := lfor_each evts _remove_event_from_loop s in
  out.1 = Ok tt
  ∧ (∀ kv, kv ∈ pomp_events out.2 →
       kv ∈ pomp_events s ∧ ∀ e, e ∈ evts → kv.1 ≠ evt_id e)
  ∧ (∀ k v, pomp_event_callbacks out.2 !! k = Some v →
       pomp_event_callbacks s !! k = Some v ∧ ∀ e, e ∈ evts → k ≠ evt_id e)
  ∧ (∀ k v, evt_userdata out.2 !! k = Some v →
       evt_userdata s !! k = Some v ∧ ∀ e, e ∈ evts → k ≠ evt_id e)
  ∧ (∀ k v, c_evt_userdata out.2 !! k = Some v →
       c_evt_userdata s !! k = Some v ∧ ∀ e, e ∈ evts → k ≠ evt_id e)
  ∧ same_attributes s out.2
  ∧ same_fd_tables (world s) (world out.2)
  ∧ same_timer_tables (world s) (world out.2)
  ∧ same_tasks (world s) (world out.2).
Proof.
  revert s. induction evts as [| e0 evts IH]; intros s out.
  - unfold out. cbn. split; [done |].
    split; [intros ? H; split; [done |]; by intros e ?%elem_of_nil |].
    do 3 (split; [intros ? ? H; split; [done |]; by intros e ?%elem_of_nil |]).
    by repeat split.
  - unfold out. cbn [lfor_each].
    destruct (remove_event_effect e0 s)
      as (H1 & H2 & H3 & H4 & H5 & H6 & H7 & H8 & H9).
    rewrite (run_lbind_ok _ _ _ tt H1).
    destruct (IH (_remove_event_from_loop e0 s).2)
      as (I1 & I2 & Ia & Ib & Ic & I6 & I7 & I8 & I9).
    split; [exact I1 |]. split.
    { intros kv Hkv. destruct (I2 kv Hkv) as [Hin Hne].
      rewrite H2 in Hin. apply alist_del_elem in Hin as [Hin Hk].
      split; [done |]. intros e [-> | He]%elem_of_cons; auto. }
    split.
    { intros k v Hk. destruct (Ia k v Hk) as [Hin Hne].
      rewrite H3 in Hin. apply delete_shrinks in Hin as [Hin Hk0].
      split; [done |]. intros e [-> | He]%elem_of_cons; auto. }
    split.
    { intros k v Hk. destruct (Ib k v Hk) as [Hin Hne].
      rewrite H4 in Hin. apply delete_shrinks in Hin as [Hin Hk0].
      split; [done |]. intros e [-> | He]%elem_of_cons; auto. }
    split.
    { intros k v Hk. destruct (Ic k v Hk) as [Hin Hne].
      rewrite H5 in Hin. apply delete_shrinks in Hin as [Hin Hk0].
      split; [done |]. intros e [-> | He]%elem_of_cons; auto. }
    split; [by eapply same_attributes_trans |].
    split; [by eapply same_fd_tables_trans |].
    split; [by eapply same_timer_tables_trans |].
    by eapply same_tasks_trans.
Qed.

(** What [_remove_fd_from_loop] does to the three fd dictionaries. *)
Lemma remove_fd_tables (fd : Z) (w : World) :
  let out := _remove_fd_from_loop fd w in
  (∃ b, out.1 = Ok (VBool b))
  ∧ pomp_fd_callbacks out.2 = delete fd (pomp_fd_callbacks w)
  ∧ fd_userdata out.2 = delete fd (fd_userdata w)
  ∧ c_fd_userdata out.2 = delete fd (c_fd_userdata w)
  ∧ same_timer_tables w out.2
  ∧ same_tasks w out.2.
Proof.
  intros out. unfold out, _remove_fd_from_loop. same_unfold. mrun.
  destruct (negb (is_None _)); mrun; [| by split; [eexists |]].
  destruct (negb _); mrun; by split; [eexists |].
Qed.

(** The loop over the fds of [_destroy_pomp_loop_fds]. *)
Lemma remove_fds_loop (fds : list Z) (s : Loop) :
  let out := lfor_each fds
               (λ fd, lbind (lift (_remove_fd_from_loop fd)) (λ _, lret tt))
               s in
  out.1 = Ok tt
  ∧ (∀ k v, pomp_fd_callbacks (world out.2) !! k = Some v →
       pomp_fd_callbacks (world s) !! k = Some v ∧ k ∉ fds)
  ∧ (∀ k v, fd_userdata (world out.2) !! k = Some v →
       fd_userdata (world s) !! k = Some v ∧ k ∉ fds)
  ∧ (∀ k v, c_fd_userdata (world out.2) !! k = Some v →
       c_fd_userdata (world s) !! k = Some v ∧ k ∉ fds)
  ∧ same_event_tables s out.2
  ∧ same_attributes s out.2
  ∧ same_timer_tables (world s) (world out.2)
  ∧ same_tasks (world s) (world out.2).
Proof.
  revert s. induction fds as [| fd fds IH]; intros s out.
  - unfold out. cbn. split; [done |].
    do 3 (split; [intros ? ? H; split; [done |]; by intros ?%elem_of_nil |]).
    by repeat split.
  - unfold out. cbn [lfor_each].
    destruct (remove_fd_tables fd (world s))
      as ([b Hb] & H2 & H3 & H4 & H5 & H6).
    rewrite run_lbind_assoc, (run_lift_ok _ _ _ _ Hb), run_lret.
    set (s1 := set_world (_remove_fd_from_loop fd (world s)).2 s).
    destruct (IH s1) as (I1 & Ia & Ib & Ic & I4 & I5 & I6 & I7).
    split; [exact I1 |]. split.
    { intros k v Hk. destruct (Ia k v Hk) as [Hin Hne]. unfold s1 in Hin.
      lsimpl. rewrite H2 in Hin. apply delete_shrinks_Z in Hin as [Hin Hk0].
      split; [done |]. intros [-> | He]%elem_of_cons; auto. }
    split.
    { intros k v Hk. destruct (Ib k v Hk) as [Hin Hne]. unfold s1 in Hin.
      lsimpl. rewrite H3 in Hin. apply delete_shrinks_Z in Hin as [Hin Hk0].
      split; [done |]. intros [-> | He]%elem_of_cons; auto. }
    split.
    { intros k v Hk. destruct (Ic k v Hk) as [Hin Hne]. unfold s1 in Hin.
      lsimpl. rewrite H4 in Hin. apply delete_shrinks_Z in Hin as [Hin Hk0].
      split; [done |]. intros [-> | He]%elem_of_cons; auto. }
    split; [exact I4 |]. split; [exact I5 |].
    split; [by eapply same_timer_tables_trans; [| exact I6] |].
    by eapply same_tasks_trans; [| exact I7].
Qed.

Lemma alist_get_elem {V : Type} (k : nat) (d : list (nat * V)) :
  alist_get k d ≠ None → ∃ v, (k, v) ∈ d.
Proof.
  induction d as [| [k' v'] d IH]; cbn; [done |].
  destruct (Nat.eqb k' k) eqn:E.
  - apply Nat.eqb_eq in E as ->. intros _. exists v'. apply elem_of_cons.
    by left.
  - intros H. destruct (IH H) as [v Hv]. exists v. apply elem_of_cons.
    by right.
Qed.

(** [_destroy_pomp_loop_fds], in full. *)
Lemma destroy_fds_effect (fd_keys : World → list Z) (s : Loop) :
  let out := _destroy_pomp_loop_fds fd_keys s in
  events_keyed s →
  (∀ w, lists_keys (fd_keys w) (pomp_fd_callbacks w)) →
  out.1 = Ok tt
  ∧ pomp_events out.2 = []
  ∧ (∀ k, alist_get k (pomp_events s) ≠ None →
       pomp_event_callbacks out.2 !! k = None
       ∧ evt_userdata out.2 !! k = None
       ∧ c_evt_userdata out.2 !! k = None)
  ∧ pomp_fd_callbacks (world out.2) = ∅
  ∧ (∀ fd, is_Some (pomp_fd_callbacks (world s) !! fd) →
       fd_userdata (world out.2) !! fd = None
       ∧ c_fd_userdata (world out.2) !! fd = None)
  ∧ same_attributes s out.2
  ∧ same_timer_tables (world s) (world out.2)
  ∧ same_tasks (world s) (world out.2).
Proof.
  intros out Hkeyed Hkeys.
  unfold out, _destroy_pomp_loop_fds. rewrite run_lgets.
  destruct (remove_events_loop (pomp_events s).*2 s)
    as (E1 & E2 & Ea & Eb & Ec & E6 & E7 & E8 & E9).
  rewrite (run_lbind_ok _ _ _ tt E1). rewrite run_lgets.
  set (s1 := (lfor_each (pomp_events s).*2 _remove_event_from_loop s).2) in *.
  destruct (remove_fds_loop (fd_keys (world s1)) s1)
    as (F1 & Fa & Fb & Fc & (G1 & G2 & G3 & G4) & F5 & F6 & F7).
  set (s2 := (lfor_each (fd_keys (world s1)) _ s1).2) in *.
  assert (Hev : ∀ k e, (k, e) ∈ pomp_events s →
            k = evt_id e ∧ e ∈ (pomp_events s).*2).
  { intros k e Hin. split.
    - unfold events_keyed in Hkeyed. rewrite Forall_forall in Hkeyed.
      apply (Hkeyed (k, e) Hin).
    - apply (list_elem_of_fmap_2 snd _ _ Hin). }
  split; [exact F1 |]. split.
  { rewrite G1. destruct (pomp_events s1) as [| [k e] d] eqn:Hd; [done |].
    destruct (E2 (k, e)) as [Hin Hne]; [by apply elem_of_cons; left |].
    destruct (Hev k e Hin) as [Hk He]. by destruct (Hne e He). }
  split.
  { intros k Hk. destruct (alist_get_elem k _ Hk) as [e Hin].
    destruct (Hev k e Hin) as [-> He].
    rewrite G2, G3, G4. repeat split.
    - destruct (pomp_event_callbacks s1 !! evt_id e) as [v |] eqn:Hv; [| done].
      destruct (Ea _ _ Hv) as [_ Hne]. by destruct (Hne e He).
    - destruct (evt_userdata s1 !! evt_id e) as [v |] eqn:Hv; [| done].
      destruct (Eb _ _ Hv) as [_ Hne]. by destruct (Hne e He).
    - destruct (c_evt_userdata s1 !! evt_id e) as [v |] eqn:Hv; [| done].
      destruct (Ec _ _ Hv) as [_ Hne]. by destruct (Hne e He). }
  split.
  { apply map_empty. intros fd.
    destruct (pomp_fd_callbacks (world s2) !! fd) as [v |] eqn:Hv; [| done].
    destruct (Fa _ _ Hv) as [Hin Hne]. destruct Hne.
    apply Hkeys. by rewrite Hin. }
  split.
  { intros fd Hfd. destruct E7 as (E7a & _). rewrite <- E7a in Hfd.
    apply Hkeys in Hfd. split.
    - destruct (fd_userdata (world s2) !! fd) as [v |] eqn:Hv; [| done].
      by destruct (Fb _ _ Hv) as [_ Hne].
    - destruct (c_fd_userdata (world s2) !! fd) as [v |] eqn:Hv; [| done].
      by destruct (Fc _ _ Hv) as [_ Hne]. }
  split; [by eapply same_attributes_trans |].
  split; [by eapply same_timer_tables_trans |].
  by eapply same_tasks_trans.
Qed.

(** X13. [_destroy_pomp_loop_fds] empties the registries and does not
    raise, whatever libpomp answers when it is asked to detach an event
    or an fd.  When every event is filed under its own identity, no
    event is left in [pomp_events], and the events that were there have
    no callback and no userdata left; no fd is left in
    [pomp_fd_callbacks], and the fds that were there have no userdata
    left.  The timers, the clean-up functions, the handle of the loop,
    the task lists and the [running] flag are not touched. *)
Theorem destroy_fds_empties_the_registries (fd_keys : World → list Z)
    (s : Loop) :
  let out := _destroy_pomp_loop_fds fd_keys s in
  events_keyed s →
  (∀ w, lists_keys (fd_keys w) (pomp_fd_callbacks w)) →
  out.1 = Ok tt
  ∧ pomp_events out.2 = []
  ∧ (∀ k, alist_get k (pomp_events s) ≠ None →
       pomp_event_callbacks out.2 !! k = None
       ∧ evt_userdata out.2 !! k = None
       ∧ c_evt_userdata out.2 !! k = None)
  ∧ pomp_fd_callbacks (world out.2) = ∅
  ∧ (∀ fd, is_Some (pomp_fd_callbacks (world s) !! fd) →
       fd_userdata (world out.2) !! fd = None
       ∧ c_fd_userdata (world out.2) !! fd = None)
  ∧ same_attributes s out.2
  ∧ same_timer_tables (world s) (world out.2)
  ∧ same_tasks (world s) (world out.2).
Proof. apply destroy_fds_effect. Qed.

End DestroyFds.

(** ** Timers *)

Section Timers.

(** [destroy_timer] when the two timer dictionaries have the same
    keys. *)
Lemma destroy_timer_cases (t : nat) (w : World) :
  timers_inv w →
  let out := destroy_timer t w in
  ((out.1 = Ok (VBool false)
    ∧ pomp_timers out.2 = pomp_timers w
    ∧ pomp_timer_callbacks out.2 = pomp_timer_callbacks w
    ∧ (is_Some (pomp_timers w !! t) → (pomp_timer_destroy t (pomp w)).1 ≠ 0))
   ∨ (out.1 = Ok (VBool true)
      ∧ is_Some (pomp_timers w !! t)
      ∧ (pomp_timer_destroy t (pomp w)).1 = 0
      ∧ pomp_timers out.2 = delete t (pomp_timers w)
      ∧ pomp_timer_callbacks out.2 = delete t (pomp_timer_callbacks w))).
Proof.
  intros Hinv out.
  destruct (pomp_timers w !! t) as [tm |] eqn:Ht.
  - destruct (decide ((pomp_timer_destroy t (pomp w)).1 = 0)) as [Hst | Hst].
    + assert (Hcb : is_Some (pomp_timer_callbacks w !! t))
        by (apply Hinv; by rewrite Ht).
      destruct Hcb as [cb Hcb].
      destruct (destroy_timer_success w t tm cb Ht Hcb Hst) as (H1 & H2 & H3).
      right. by repeat split.
    + destruct (destroy_timer_failure w t tm Ht Hst) as (H1 & H2 & H3).
      left. by repeat split.
  - left. unfold out. rewrite destroy_timer_unknown by done.
    by repeat split.
Qed.

Lemma destroy_timer_keeps_inv (t : nat) (w : World) :
  timers_inv w → timers_inv (destroy_timer t w).2.
Proof.
  intros Hinv.
  destruct (destroy_timer_cases t w Hinv)
    as [(_ & H1 & H2 & _) | (_ & _ & _ & H1 & H2)];
    intros t'; rewrite H1, H2; [apply Hinv |].
  destruct (decide (t' = t)) as [-> | Hne].
  - rewrite !lookup_delete_eq. split; by intros [? ?].
  - rewrite !lookup_delete_ne by done. apply Hinv.
Qed.


End Timers.

Section DestroyTimers.

Ltac same_unfold :=
  unfold same_fd_tables, same_timer_tables, same_tasks, same_attributes,
    same_event_tables in *.

Lemma destroy_timer_other_fields (t : nat) (w : World) :
  let out := destroy_timer t w in
  same_fd_tables w out.2 ∧ same_tasks w out.2.
Proof.
  intros out. unfold out, destroy_timer. same_unfold. mrun.
  destruct (negb (bool_decide _)); mrun; [done |].
  destruct (negb (Z.eqb _ 0)); mrun; [done |].
  unfold dict_del. mrun.
  destruct (pomp_timers w !! t); mrun; [| done].
  destruct (pomp_timer_callbacks w !! t); by mrun.
Qed.

(** The loop of [_destroy_pomp_loop_timers]. *)
Lemma destroy_timers_loop (ts : list nat) (s : Loop) :
  timers_inv (world s) →
  let out := lfor_each ts
               (λ t, lbind (lift (destroy_timer t)) (λ _, lret tt)) s in
  out.1 = Ok tt
  ∧ timers_inv (world out.2)
  ∧ (∀ t v, pomp_timers (world out.2) !! t = Some v →
       pomp_timers (world s) !! t = Some v)
  ∧ ((∀ t n, (pomp_timer_destroy t n).1 = 0) →
     ∀ t, t ∈ ts → pomp_timers (world out.2) !! t = None)
  ∧ same_event_tables s out.2
  ∧ same_attributes s out.2
  ∧ same_fd_tables (world s) (world out.2)
  ∧ same_tasks (world s) (world out.2).
Proof.
  revert s. induction ts as [| t ts IH]; intros s Hinv out.
  - unfold out. cbn. split; [done |]. split; [done |]. split; [done |].
    split; [by intros _ t ?%elem_of_nil |]. by repeat split.
  - unfold out. cbn [lfor_each].
    destruct (destroy_timer_other_fields t (world s)) as (O1 & O2).
    pose proof (destroy_timer_keeps_inv t (world s) Hinv) as Hinv1.
    set (s1 := set_world (destroy_timer t (world s)).2 s).
    assert (Hstep : ∃ b, (destroy_timer t (world s)).1 = Ok (VBool b)).
    { destruct (destroy_timer_cases t (world s) Hinv)
        as [(H1 & _) | (H1 & _)]; by eexists. }
    destruct Hstep as [b Hb].
    rewrite run_lbind_assoc, (run_lift_ok _ _ _ _ Hb), run_lret. fold s1.
    destruct (IH s1 Hinv1) as (I1 & I2 & I3 & I4 & I5 & I6 & I7 & I8).
    assert (Hshr : ∀ t' v, pomp_timers (world s1) !! t' = Some v →
              pomp_timers (world s) !! t' = Some v).
    { intros t' v. unfold s1. lsimpl.
      destruct (destroy_timer_cases t (world s) Hinv)
        as [(_ & H2 & _) | (_ & _ & _ & H2 & _)]; rewrite H2; [done |].
      intros H. by apply delete_shrinks in H as [H _]. }
    split; [exact I1 |]. split; [exact I2 |]. split; [by auto |].
    split.
    { intros Hcoop t' [-> | Hin]%elem_of_cons; [| by apply I4].
      destruct (pomp_timers (world _) !! t) as [v |] eqn:Hv; [| done].
      apply I3 in Hv. unfold s1 in Hv. lsimpl.
      destruct (destroy_timer_cases t (world s) Hinv)
        as [(_ & H2 & _ & Hfail) | (_ & _ & _ & H2 & _)].
      - rewrite H2 in Hv. destruct Hfail; [by rewrite Hv | apply Hcoop].
      - rewrite H2 in Hv. by rewrite lookup_delete_eq in Hv. }
    split; [exact I5 |]. split; [exact I6 |].
    split; [by eapply same_fd_tables_trans; [| exact I7] |].
    by eapply same_tasks_trans; [| exact I8].
Qed.

(** [_destroy_pomp_loop_timers], in full. *)
Lemma destroy_timers_effect (timer_values : World → list nat) (s : Loop) :
  let out := _destroy_pomp_loop_timers timer_values s in
  timers_inv (world s) →
  (∀ w, lists_keys (timer_values w) (pomp_timers w)) →
  out.1 = Ok tt
  ∧ timers_inv (world out.2)
  ∧ (∀ t v, pomp_timers (world out.2) !! t = Some v →
       pomp_timers (world s) !! t = Some v)
  ∧ ((∀ t n, (pomp_timer_destroy t n).1 = 0) →
     pomp_timers (world out.2) = ∅ ∧ pomp_timer_callbacks (world out.2) = ∅)
  ∧ same_event_tables s out.2
  ∧ same_attributes s out.2
  ∧ same_fd_tables (world s) (world out.2)
  ∧ same_tasks (world s) (world out.2).
Proof.
  intros out Hinv Hkeys. unfold out, _destroy_pomp_loop_timers.
  rewrite run_lgets.
  destruct (destroy_timers_loop (timer_values (world s)) s Hinv)
    as (I1 & I2 & I3 & I4 & I5 & I6 & I7 & I8).
  split; [exact I1 |]. split; [exact I2 |]. split; [exact I3 |].
  split; [| done].
  intros Hcoop.
  assert (Hemp : ∀ t, pomp_timers
                        (world (lfor_each (timer_values (world s))
                                  (λ t0, lbind (lift (destroy_timer t0))
                                           (λ _, lret tt)) s).2) !! t = None).
  { intros t.
    destruct (pomp_timers (world _) !! t) as [v |] eqn:Hv; [| done].
    pose proof (I3 _ _ Hv) as Hin.
    rewrite (I4 Hcoop t) in Hv; [done |]. apply Hkeys. by rewrite Hin. }
  split; apply map_empty; intros t; [apply Hemp |].
  destruct (pomp_timer_callbacks (world _) !! t) as [v |] eqn:Hv; [| done].
  assert (Hs : is_Some (pomp_timers
                          (world (lfor_each (timer_values (world s))
                                    (λ t0, lbind (lift (destroy_timer t0))
                                             (λ _, lret tt)) s).2) !! t))
    by (apply I2; by rewrite Hv).
  rewrite Hemp in Hs. by destruct Hs.
Qed.


End DestroyTimers.

(** ** Clean-up *)

Section Cleanup.
Variable invoke : done_callback → nat → M unit.

Lemma call_cleanup (f : pyfunc) (w : World) :
  call (func_code f) [] [] w
  = (match cleanup_outcome f with Returns v => Ok v | Raises e => Raise e end,
     set_trace (trace w ++ [EvCall (func_code f) [] []]) w).
Proof.
  unfold cleanup_outcome. destruct (func_code f); try done. apply call_fn.
Qed.

(** The body of the [for] of [_cleanup]. *)
Lemma cleanup_step (f : pyfunc) (w : World) :
  try_except (bind (call (func_code f) [] []) (λ _, ret tt)) is_Exception
    (λ _, log EXCEPTION "Unhandled exception in cleanup function" []) w
  = (match cleanup_outcome f with
     | Returns _ => Ok tt
     | Raises e => if is_Exception e then Ok tt else Raise e
     end,
     set_trace
       (trace w
        ++ (if cleanup_mild f then cleanup_events f
            else [EvCall (func_code f) [] []])) w).
Proof.
  unfold try_except, bind. rewrite call_cleanup.
  unfold cleanup_mild, cleanup_events.
  destruct (cleanup_outcome f) as [v | e]; [done |].
  destruct (is_Exception e); [| done].
  unfold log, emit, modify. cbn. by rewrite <- app_assoc.
Qed.

Lemma cleanup_for (fns : list pyfunc) (s : Loop) :
  Forall (λ f, cleanup_mild f = true) fns →
  lfor_each fns
    (λ cleanup,
       lift (try_except
               (bind (call (func_code cleanup) [] []) (λ _, ret tt))
               is_Exception
               (λ _, log EXCEPTION
                       "Unhandled exception in cleanup function" []))) s
  = (Ok tt,
     set_world
       (set_trace (trace (world s) ++ concat (map cleanup_events fns))
          (world s)) s).
Proof.
  intros Hall. revert s. induction Hall as [| f fns Hf _ IH]; intros s.
  - cbn. rewrite app_nil_r. by destruct s as [[] ? ? ? ? ? ? ?].
  - cbn [lfor_each map concat].
    assert (Hok : (try_except
                     (bind (call (func_code f) [] []) (λ _, ret tt))
                     is_Exception
                     (λ _, log EXCEPTION
                             "Unhandled exception in cleanup function" [])
                     (world s)).1 = Ok tt).
    { rewrite cleanup_step. cbn [fst]. unfold cleanup_mild in Hf.
      destruct (cleanup_outcome f); [done |]. by rewrite Hf. }
    rewrite (run_lift_ok _ _ _ _ Hok), IH. rewrite cleanup_step, Hf.
    cbn [snd]. lsimpl. wsimpl. by rewrite <- app_assoc.
Qed.

(** The [while] of [_cleanup] does 32 rounds at most: at the round
    that starts with [count = 31] it gives up. *)
Lemma cleanup_loop_bounded (tfuel : nat) (m : nat) :
  ∀ (count : Z) (fuel : nat) (w : World),
    0 ≤ count ≤ 31 →
    m = Z.to_nat (31 - count) →
    (S m ≤ fuel)%nat →
    _cleanup_loop invoke fuel tfuel count w
    = _cleanup_loop invoke (S m) tfuel count w.
Proof.
  induction m as [| m IH]; intros count fuel w Hc Hm Hfuel;
    (destruct fuel as [| fuel]; [lia |]); cbn [_cleanup_loop];
    rewrite !run_gets; destruct (negb (work_left w)); try done;
    apply bind_ext; intros _ w1; apply bind_ext; intros _ w2;
    apply bind_ext; intros _ w3.
  - assert (count = 31) as -> by lia. done.
  - destruct (Z.ltb 30 count) eqn:Hlt; [done |].
    apply Z.ltb_ge in Hlt. apply IH; lia.
Qed.

(** [_cleanup] once the clean-up functions have been called. *)
Lemma cleanup_steps (fuel tfuel : nat) (s : Loop) :
  Forall (λ f, cleanup_mild f = true) (cleanup_functions s) →
  let w1 := set_trace
              (trace (world s)
               ++ concat (map cleanup_events (rev (cleanup_functions s))))
              (world s) in
  let drain := _cleanup_loop invoke fuel tfuel 0 w1 in
  _cleanup invoke fuel tfuel s
  = (drain.1,
     set_world
       (match drain.1 with
        | Ok _ =>
            set_futures []
              (set_deferred_pomp_task [] (set_async_pomp_task [] drain.2))
        | _ => drain.2
        end)
       (set_cleanup_functions [] s)).
Proof.
  intros Hall w1 drain. unfold _cleanup. rewrite run_lgets.
  rewrite (run_lbind_ok _ _ _ tt)
    by (rewrite cleanup_for; [done | by apply Forall_rev]).
  rewrite cleanup_for by by apply Forall_rev.
  cbn [snd]. fold w1. rewrite run_lmodify.
  unfold lbind at 1, lift at 1. lsimpl. fold drain.
  destruct drain as [[[] | e | |] w2]; try done.
Qed.


Lemma func_remove_absent (f : pyfunc) (l : list pyfunc) :
  func_absent f l → func_remove f l = None.
Proof.
  induction 1 as [| g l Hg _ IH]; [done |].
  cbn [func_remove]. by rewrite Hg, IH.
Qed.

Lemma func_remove_first (f g : pyfunc) (l1 l2 : list pyfunc) :
  func_absent f l1 → func_id g = func_id f →
  func_remove f (l1 ++ g :: l2) = Some (l1 ++ l2).
Proof.
  intros Hab Hg. induction Hab as [| h l1 Hh _ IH]; cbn [app func_remove].
  - by rewrite Hg, Nat.eqb_refl.
  - by rewrite Hh, IH.
Qed.

Lemma set_cleanup_functions_same (s : Loop) :
  set_cleanup_functions (cleanup_functions s) s = s.
Proof. by destruct s. Qed.

(** X17. The list of clean-up functions.  [register_cleanup] appends at
    the tail, so that the function registered last is the first that
    [_cleanup] calls.  [unregister_cleanup] removes the first entry
    that is equal to the function, and only that one; when there is
    none it changes nothing and raises ValueError unless [ignore_error]
    is set.  Registering a function that was not in the list and
    unregistering it gives back the loop as it was: [_cleanup] will not
    call it. *)
Theorem cleanup_registration (f : pyfunc) (ignore_error : bool) (s : Loop) :
  let registered := (register_cleanup f s).2 in
  cleanup_functions registered = cleanup_functions s ++ [f]
  ∧ concat (map cleanup_events (rev (cleanup_functions registered)))
    = cleanup_events f
      ++ concat (map cleanup_events (rev (cleanup_functions s)))
  ∧ (func_absent f (cleanup_functions s) →
       unregister_cleanup f ignore_error s
       = (if ignore_error then Ok tt else Raise ValueError, s)
       ∧ unregister_cleanup f ignore_error registered = (Ok tt, s))
  ∧ (∀ l1 g l2, cleanup_functions s = l1 ++ g :: l2 → func_absent f l1 →
       func_id g = func_id f →
       unregister_cleanup f ignore_error s
       = (Ok tt, set_cleanup_functions (l1 ++ l2) s)).
Proof.
  intros registered. split; [done |]. split.
  { unfold registered, register_cleanup, lmodify. lsimpl.
    rewrite rev_app_distr. done. }
  split.
  - intros Hab. split.
    + unfold unregister_cleanup. rewrite run_lgets.
      rewrite func_remove_absent by done. by destruct ignore_error.
    + unfold unregister_cleanup, registered, register_cleanup, lmodify.
      rewrite run_lgets. lsimpl.
      rewrite func_remove_first by (done || apply eq_refl).
      rewrite app_nil_r. unfold lmodify. by destruct s.
  - intros l1 g l2 Hl Hab Hg. unfold unregister_cleanup.
    rewrite run_lgets, Hl. by rewrite func_remove_first.
Qed.

End Cleanup.

(** ** [destroy] *)

Section Destroy.
Variable fd_keys : World → list Z.
Variable timer_values : World → list nat.

Ltac same_unfold :=
  unfold same_fd_tables, same_timer_tables, same_tasks, same_attributes,
    same_event_tables in *.

(** [stop] on the loop thread, or when the loop is not running: no
    wake-up and no join. *)
Lemma stop_without_join (cur : thread) (others : World → World) (w : World) :
  is_loop_thread cur = true ∨ running w = false →
  stop cur others w = (Ok (VBool (running w)), set_running false w).
Proof.
  intros H. unfold stop. mrun. destruct (running w) eqn:Hr; cbn [negb].
  - destruct H as [-> | ?]; [| done]. by mrun.
  - unfold ret. f_equal. destruct w. cbn in *. by subst.
Qed.

Lemma events_keyed_del (k : nat) (d : list (nat * option nat)) :
  Forall (λ kv : nat * option nat, kv.1 = evt_id kv.2) d →
  Forall (λ kv : nat * option nat, kv.1 = evt_id kv.2) (alist_del k d).
Proof.
  induction 1 as [| [k' e] d Hk _ IH]; cbn; [constructor |].
  destruct (Nat.eqb k' k); [done | by constructor].
Qed.

Lemma events_keyed_set (e : option nat) (d : list (nat * option nat)) :
  Forall (λ kv : nat * option nat, kv.1 = evt_id kv.2) d →
  Forall (λ kv : nat * option nat, kv.1 = evt_id kv.2)
    (alist_set (evt_id e) e d).
Proof.
  induction 1 as [| [k' e'] d Hk Hd IH]; cbn; [by repeat constructor |].
  destruct (Nat.eqb k' (evt_id e)); by constructor.
Qed.

Lemma destroy_pomp_loop_effect (s : Loop) :
  let out := _destroy_pomp_loop s in
  (∃ b, out.1 = Ok (VBool b))
  ∧ (pomp_loop out.2 = None ∨ pomp_loop out.2 = pomp_loop s)
  ∧ ((∀ n, (pomp_loop_destroy n).1 = 0) → pomp_loop out.2 = None)
  ∧ cleanup_functions out.2 = cleanup_functions s
  ∧ same_event_tables s out.2
  ∧ same_fd_tables (world s) (world out.2)
  ∧ same_timer_tables (world s) (world out.2)
  ∧ same_tasks (world s) (world out.2).
Proof.
  intros out. unfold out, _destroy_pomp_loop. same_unfold. lrun.
  destruct (pomp_loop s) eqn:Hl; lrun.
  - destruct (Z.eqb (pomp_loop_destroy (pomp (world s))).1 0) eqn:E;
      cbn [negb]; lrun.
    + split; [by eexists |]. split; [by left |]. by repeat split.
    + split; [by eexists |]. split; [by right |].
      split; [| by repeat split].
      intros Hcoop. by rewrite Hcoop in E.
  - split; [by eexists |]. split; [by left |]. by repeat split.
Qed.

(** [destroy] once [stop] has returned without joining. *)
Lemma destroy_steps (cur : thread) (others : World → World) (s : Loop) :
  is_loop_thread cur = true ∨ running (world s) = false →
  destroy cur others fd_keys timer_values s
  = lbind (_remove_event_from_loop (wakeup_evt (world s)))
      (λ _, lbind (_destroy_pomp_loop_fds fd_keys)
              (λ _, lbind (_destroy_pomp_loop_timers timer_values)
                      (λ _, lbind _destroy_pomp_loop (λ _, lret tt))))
      (set_world (set_running false (world s)) s).
Proof.
  intros H. unfold destroy.
  rewrite (run_lift_ok _ _ _ (VBool (running (world s))))
    by by rewrite stop_without_join.
  rewrite stop_without_join by done. by rewrite run_lgets.
Qed.

(** [destroy] without a join, in full. *)
Lemma destroy_effect (cur : thread)
    (others : World → World) (s : Loop) :
  let out := destroy cur others fd_keys timer_values s in
  is_loop_thread cur = true ∨ running (world s) = false →
  events_keyed s →
  timers_inv (world s) →
  (∀ w, lists_keys (fd_keys w) (pomp_fd_callbacks w)) →
  (∀ w, lists_keys (timer_values w) (pomp_timers w)) →
  out.1 = Ok tt
  ∧ (∀ others', destroy cur others' fd_keys timer_values s = out)
  ∧ running (world out.2) = false
  ∧ pomp_events out.2 = []
  ∧ pomp_fd_callbacks (world out.2) = ∅
  ∧ timers_inv (world out.2)
  ∧ ((∀ t n, (pomp_timer_destroy t n).1 = 0) →
     pomp_timers (world out.2) = ∅ ∧ pomp_timer_callbacks (world out.2) = ∅)
  ∧ (pomp_loop out.2 = None ∨ pomp_loop out.2 = pomp_loop s)
  ∧ ((∀ n, (pomp_loop_destroy n).1 = 0) → pomp_loop out.2 = None)
  ∧ cleanup_functions out.2 = cleanup_functions s
  ∧ async_pomp_task (world out.2) = async_pomp_task (world s)
  ∧ deferred_pomp_task (world out.2) = deferred_pomp_task (world s)
  ∧ futures (world out.2) = futures (world s).
Proof.
  intros out Hcur Hkeyed Hinv Hfds Hts.
  assert (Hout : ∀ others', destroy cur others' fd_keys timer_values s
            = lbind (_remove_event_from_loop (wakeup_evt (world s)))
                (λ _, lbind (_destroy_pomp_loop_fds fd_keys)
                        (λ _, lbind (_destroy_pomp_loop_timers timer_values)
                                (λ _, lbind _destroy_pomp_loop
                                        (λ _, lret tt))))
                (set_world (set_running false (world s)) s))
    by (intros; by apply destroy_steps).
  split; [| split; [intros; unfold out; by rewrite !Hout |]];
    unfold out; rewrite (Hout others); clear Hout.
  all: set (s0 := set_world (set_running false (world s)) s).
  all: destruct (remove_event_effect (wakeup_evt (world s)) s0)
         as (A1 & A2 & _ & _ & _ & A6 & A7 & A8 & A9).
  all: rewrite (run_lbind_ok _ _ _ tt A1).
  all: set (s1 := (_remove_event_from_loop (wakeup_evt (world s)) s0).2) in *.
  all: assert (Hk1 : events_keyed s1)
         by (unfold events_keyed; rewrite A2; by apply events_keyed_del).
  all: destruct (destroy_fds_effect fd_keys s1 Hk1 Hfds)
         as (B1 & B2 & _ & B4 & _ & B6 & B7 & B8).
  all: rewrite (run_lbind_ok _ _ _ tt B1).
  all: set (s2 := (_destroy_pomp_loop_fds fd_keys s1).2) in *.
  all: assert (Hinv2 : timers_inv (world s2)).
  1, 3: destruct A8 as [T1 T2]; destruct B7 as [T3 T4]; intros t;
        rewrite T3, T4, T1, T2; apply Hinv.
  all: destruct (destroy_timers_effect timer_values s2 Hinv2 Hts)
         as (C1 & C2 & _ & C4 & C5 & C6 & C7 & C8).
  all: rewrite (run_lbind_ok _ _ _ tt C1).
  all: set (s3 := (_destroy_pomp_loop_timers timer_values s2).2) in *.
  all: destruct (destroy_pomp_loop_effect s3)
         as ([b D1] & D2 & D3 & D4 & D5 & D6 & D7 & D8).
  all: rewrite (run_lbind_ok _ _ _ _ D1); cbn [lret fst snd].
  - done.
  - set (s4 := (_destroy_pomp_loop s3).2) in *.
    same_unfold.
    destruct A6 as [A61 A62]. destruct A9 as (A91 & A92 & A93 & A94 & A95 & _).
    destruct B6 as [B61 B62]. destruct B8 as (B81 & B82 & B83 & B84 & B85 & _).
    destruct C5 as (C51 & _). destruct C6 as [C61 C62].
    destruct C7 as (C71 & _). destruct C8 as (C81 & C82 & C83 & C84 & C85 & _).
    destruct D5 as (D51 & _). destruct D6 as (D61 & _).
    destruct D7 as [D71 D72]. destruct D8 as (D81 & D82 & D83 & D84 & D85 & _).
    split; [by rewrite D81, C81, B81, A91 |].
    split; [by rewrite D51, C51 |].
    split; [by rewrite D61, C71 |].
    split; [intros t; rewrite D71, D72; apply C2 |].
    split; [intros Hcoop; rewrite D71, D72; by apply C4 |].
    split.
    { destruct D2 as [-> | ->]; [by left |]. right.
      by rewrite C61, B61, A61. }
    split; [exact D3 |].
    split; [by rewrite D4, C62, B62, A62 |].
    split; [by rewrite D83, C83, B83, A93 |].
    split; [by rewrite D84, C84, B84, A94 |].
    by rewrite D85, C85, B85, A95.
Qed.



End Destroy.

(** ** What the tasks and the done-callbacks leave alone *)

Section Undisturbed.

Lemma undisturbed_refl (w : World) : undisturbed w w.
Proof. by unfold undisturbed. Qed.

Lemma undisturbed_trans (w1 w2 w3 : World) :
  undisturbed w1 w2 → undisturbed w2 w3 → undisturbed w1 w3.
Proof. unfold undisturbed. intuition. Qed.

(** A step that writes neither the flag nor the timer dictionaries. *)
Lemma undisturbed_same (w w' : World) :
  running w' = running w →
  pomp_timers w' = pomp_timers w →
  pomp_timer_callbacks w' = pomp_timer_callbacks w →
  undisturbed w w'.
Proof.
  intros Hr Ht Hc. unfold undisturbed, timers_inv. rewrite Hr, Ht, Hc. done.
Qed.

Lemma keeps_bind {A B : Type} (m : M A) (k : A → M B) :
  keeps m → (∀ a, keeps (k a)) → keeps (bind m k).
Proof.
  intros Hm Hk w. unfold bind. specialize (Hm w).
  destruct (m w) as [[a | e | |] w1]; cbn [snd] in *; try done.
  eapply undisturbed_trans; [exact Hm | apply Hk].
Qed.

Lemma keeps_try_except {A : Type} (m : M A) (catches : exn → bool)
    (handler : exn → M A) :
  keeps m → (∀ e, keeps (handler e)) → keeps (try_except m catches handler).
Proof.
  intros Hm Hh w. unfold try_except. specialize (Hm w).
  destruct (m w) as [[a | e | |] w1]; cbn [snd] in *; try done.
  destruct (catches e); [| done].
  eapply undisturbed_trans; [exact Hm | apply Hh].
Qed.

Lemma keeps_attempt {A : Type} (m : M A) (catches : exn → bool) :
  keeps m → keeps (attempt catches m).
Proof. intros Hm w. rewrite attempt_world. apply Hm. Qed.

Lemma keeps_for_each {A : Type} (l : list A) (body : A → M unit) :
  (∀ x, keeps (body x)) → keeps (for_each l body).
Proof.
  intros Hb. induction l as [| x l IH]; cbn [for_each].
  - intros w. apply undisturbed_refl.
  - apply keeps_bind; [apply Hb | by intros _].
Qed.

Ltac keep_seq :=
  repeat first
    [ solve [auto with keeps]
    | solve [intros ?; by apply undisturbed_same]
    | apply keeps_bind; [| intros ?]
    | apply keeps_try_except; [| intros ?]
    | apply keeps_attempt
    | apply keeps_for_each; intros ?
    | match goal with
      | |- keeps (if ?c then _ else _) => destruct c
      | |- keeps (match ?x with _ => _ end) => destruct x
      end ].

Lemma keeps_call (f : callable) (args : list value) (kwds : kwargs) :
  keeps (call f args kwds).
Proof.
  unfold call, apply_callable, _has_fd, _add_fd_to_loop, _remove_fd_from_loop.
  cbv zeta. destruct f; keep_seq.
Qed.

Lemma keeps_wait_and_process : keeps _wait_and_process.
Proof. unfold _wait_and_process. keep_seq. Qed.

Lemma keeps_wait_and_process_logged : keeps wait_and_process_logged.
Proof.
  pose proof keeps_wait_and_process. unfold wait_and_process_logged. keep_seq.
Qed.

Lemma keeps_unregister_future (f : value) (ignore_error : bool) :
  keeps (_unregister_future f ignore_error).
Proof. unfold _unregister_future. keep_seq. Qed.

Lemma keeps_Future_new : keeps Future_new.
Proof. unfold Future_new. keep_seq. Qed.

Lemma keeps_set_running_or_notify_cancel (self : nat) :
  keeps (set_running_or_notify_cancel self).
Proof. unfold set_running_or_notify_cancel, set_state. keep_seq. Qed.

Lemma keeps_wake_up : keeps _wake_up.
Proof. unfold _wake_up. keep_seq. Qed.

Hint Resolve keeps_call keeps_wait_and_process keeps_wait_and_process_logged
  keeps_unregister_future keeps_Future_new keeps_wake_up
  keeps_set_running_or_notify_cancel : keeps.

Section KeepsMethods.
Variable cur : thread.
Variable others : World → World.
Variable invoke : done_callback → nat → M unit.
Hypothesis others_keeps : ∀ w, undisturbed w (others w).
Hypothesis invoke_keeps : ∀ cb self, keeps (invoke cb self).

Lemma keeps_wait (self : nat) (timeout : option Z) :
  keeps (wait others self timeout).
Proof.
  unfold wait. apply keeps_bind; [keep_seq |]. intros _ w.
  apply others_keeps.
Qed.

Hint Resolve keeps_wait : keeps.

Lemma keeps_result (self : nat) (timeout : option Z) :
  keeps (result others self timeout).
Proof. unfold result, get_result. keep_seq. Qed.

Lemma keeps_exception (self : nat) (timeout : option Z) :
  keeps (exception others self timeout).
Proof. unfold exception. keep_seq. Qed.

Lemma keeps_invoke_callbacks (self : nat) :
  keeps (_invoke_callbacks invoke self).
Proof. unfold _invoke_callbacks, guarded_callback. keep_seq. Qed.

Hint Resolve keeps_result keeps_exception keeps_invoke_callbacks : keeps.

Lemma keeps_cancel (self : nat) : keeps (cancel invoke self).
Proof. unfold cancel, set_state. keep_seq. Qed.

Lemma keeps_set_result (self : nat) (v : value) :
  keeps (set_result invoke self v).
Proof. unfold set_result. keep_seq. Qed.

Lemma keeps_set_exception (self : nat) (e : exn) :
  keeps (set_exception invoke self e).
Proof. unfold set_exception. keep_seq. Qed.

Lemma keeps_add_done_callback (self : nat) (fn : done_callback) :
  keeps (add_done_callback invoke self fn).
Proof. unfold add_done_callback, guarded_callback. keep_seq. Qed.

Hint Resolve keeps_cancel keeps_set_result keeps_set_exception
  keeps_add_done_callback : keeps.

Lemma keeps_set_from (self source : nat) :
  keeps (set_from others invoke self source).
Proof. unfold set_from, set_from_commit, cancelled, done. keep_seq. Qed.

Lemma keeps_register (self : nat) : keeps (_register invoke self).
Proof. unfold _register, _register_future. keep_seq. Qed.

Lemma keeps_chain (self next_ : nat) : keeps (chain invoke self next_).
Proof. unfold chain. keep_seq. Qed.

Hint Resolve keeps_set_from keeps_register keeps_chain : keeps.

Lemma keeps_run_later (func : callable) (args : list value) (kwds : kwargs) :
  keeps (run_later invoke func args kwds).
Proof. unfold run_later. keep_seq. Qed.

Lemma keeps_resolve_with (future : nat) (rv : value) :
  keeps (resolve_with invoke future rv).
Proof. unfold resolve_with. destruct rv; auto with keeps. Qed.

Hint Resolve keeps_run_later keeps_resolve_with : keeps.

Lemma keeps_run_async (func : callable) (args : list value) (kwds : kwargs) :
  keeps (run_async cur invoke func args kwds).
Proof. unfold run_async. keep_seq. Qed.

Hint Resolve keeps_run_async : keeps.

Lemma keeps_callback_body (cb : done_callback) (self : nat) :
  keeps (callback_body cur others invoke cb self).
Proof.
  unfold callback_body, then_callback, Future_logging_exception. keep_seq.
Qed.

Lemma keeps_run_task (q : queue) (t : task) (rest : list task) :
  keeps (_run_task invoke q t rest).
Proof.
  destruct t as [[[future f] args] kwds]. unfold _run_task.
  apply keeps_bind; [intros w; apply undisturbed_same; by destruct q |].
  intros _. keep_seq.
Qed.

Lemma keeps_run_task_list (fuel : nat) (q : queue) :
  keeps (_run_task_list invoke fuel q).
Proof.
  pose proof keeps_run_task.
  induction fuel as [| fuel IH]; cbn [_run_task_list]; keep_seq.
Qed.

Lemma keeps_run_iteration (fuel : nat) : keeps (run_iteration invoke fuel).
Proof. pose proof keeps_run_task_list. unfold run_iteration. keep_seq. Qed.

Lemma keeps_cleanup_loop (fuel tfuel : nat) (count : Z) :
  keeps (_cleanup_loop invoke fuel tfuel count).
Proof.
  pose proof keeps_run_task_list.
  revert count. induction fuel as [| fuel IH]; intros count;
    cbn [_cleanup_loop]; keep_seq.
Qed.

Lemma keeps_run_loop (alive : nat → bool) (fuel tfuel n : nat) :
  keeps (run_loop others invoke alive fuel tfuel n).
Proof.
  pose proof keeps_run_iteration.
  revert n. induction fuel as [| fuel IH]; intros n; cbn [run_loop];
    keep_seq.
Qed.

End KeepsMethods.

Lemma keeps_invoke_callback (depth : nat) (cur : thread)
    (others : World → World) :
  (∀ w, undisturbed w (others w)) →
  ∀ cb self, keeps (invoke_callback depth cur others cb self).
Proof.
  intros Ho. induction depth as [| depth IH]; intros cb self;
    cbn [invoke_callback].
  - intros w. apply undisturbed_refl.
  - by apply keeps_callback_body.
Qed.

End Undisturbed.

(** ** [run] *)

Section RunProperties.
Variable others : World → World.
Variable invoke : done_callback → nat → M unit.
Variable fd_keys : World → list Z.
Variable timer_values : World → list nat.
Variable alive : nat → bool.
(** The other threads may stop the loop and use its timers; they do not
    start it again, and neither do the done-callbacks. *)
Hypothesis others_keeps : ∀ w, undisturbed w (others w).
Hypothesis invoke_keeps : ∀ cb self, keeps (invoke cb self).
Hypothesis fd_keys_ok : ∀ w, lists_keys (fd_keys w) (pomp_fd_callbacks w).
Hypothesis timer_values_ok : ∀ w, lists_keys (timer_values w) (pomp_timers w).

(** The [finally] of [run], on the loop [s2] that the [while] left. *)
Lemma run_finally_body (tfuel : nat) (s2 : Loop) :
  let w2 := set_running false (world s2) in
  let w3 := set_trace
              (trace w2
               ++ concat (map cleanup_events (rev (cleanup_functions s2))))
              w2 in
  let drain := _cleanup_loop invoke 32 tfuel 0 w3 in
  let body := lbind (lift (modify (set_running false)))
                (λ _, lbind (_cleanup invoke 32 tfuel)
                        (λ _, destroy LoopThread others fd_keys
                                timer_values)) in
  Forall (λ f, cleanup_mild f = true) (cleanup_functions s2) →
  events_keyed s2 →
  timers_inv (world s2) →
  (drain.1 = Ok tt →
     (body s2).1 = Ok tt
     ∧ running (world (body s2).2) = false
     ∧ cleanup_functions (body s2).2 = []
     ∧ async_pomp_task (world (body s2).2) = []
     ∧ deferred_pomp_task (world (body s2).2) = []
     ∧ futures (world (body s2).2) = []
     ∧ pomp_events (body s2).2 = []
     ∧ pomp_fd_callbacks (world (body s2).2) = ∅
     ∧ ((∀ t n, (pomp_timer_destroy t n).1 = 0) →
        pomp_timers (world (body s2).2) = ∅
        ∧ pomp_timer_callbacks (world (body s2).2) = ∅)
     ∧ ((∀ n, (pomp_loop_destroy n).1 = 0) → pomp_loop (body s2).2 = None))
  ∧ (∀ e, drain.1 = Raise e →
       (body s2).1 = Raise e
       ∧ running (world (body s2).2) = false
       ∧ pomp_events (body s2).2 = pomp_events s2
       ∧ pomp_loop (body s2).2 = pomp_loop s2
       ∧ pomp_fd_callbacks (world (body s2).2) = pomp_fd_callbacks drain.2).
Proof.
  intros w2 w3 drain body Hmild Hkeyed Hinv.
  set (s3 := set_world w2 s2).
  assert (Hcl : _cleanup invoke 32 tfuel s3
                = (drain.1,
                   set_world
                     (match drain.1 with
                      | Ok _ =>
                          set_futures []
                            (set_deferred_pomp_task []
                               (set_async_pomp_task [] drain.2))
                      | _ => drain.2
                      end)
                     (set_cleanup_functions [] s3)))
    by by apply cleanup_steps.
  assert (Hbody : body s2
                  = lbind (_cleanup invoke 32 tfuel)
                      (λ _, destroy LoopThread others fd_keys timer_values)
                      s3) by done.
  pose proof (keeps_cleanup_loop invoke invoke_keeps 32 tfuel 0 w3)
    as (K1 & K2).
  fold drain in K1, K2.
  specialize (K1 Hinv). specialize (K2 eq_refl).
  split.
  - intros Hd.
    set (s4 := set_world
                 (set_futures []
                    (set_deferred_pomp_task []
                       (set_async_pomp_task [] drain.2)))
                 (set_cleanup_functions [] s3)).
    assert (Hb2 : body s2
                  = destroy LoopThread others fd_keys timer_values s4).
    { rewrite Hbody. unfold lbind at 1. by rewrite Hcl, Hd. }
    rewrite Hb2.
    destruct (destroy_effect fd_keys timer_values LoopThread others s4)
      as (D1 & _ & D3 & D4 & D5 & _ & D7 & _ & D9 & D10 & D11 & D12 & D13);
      try done.
    by left.
  - intros e Hd.
    assert (Hb2 : body s2
                  = (Raise e, set_world drain.2 (set_cleanup_functions [] s3))).
    { rewrite Hbody. unfold lbind at 1. by rewrite Hcl, Hd. }
    rewrite Hb2. cbn [fst snd]. lsimpl. by rewrite K2.
Qed.

Lemma lfinally_run {A : Type} (m : ML A) (f : ML unit) (s : Loop) :
  lfinally m f s
  = match (m s).1 with
    | Ok a => lbind f (λ _, lret a) (m s).2
    | Raise e => lbind f (λ _, lraise e) (m s).2
    | Blocked => (Blocked, (m s).2)
    | OutOfFuel => (OutOfFuel, (m s).2)
    end.
Proof. unfold lfinally. by destruct (m s) as [[a | e | |] s']. Qed.

Lemma run_lbind_raise {A B : Type} (m : ML A) (k : A → ML B) (s : Loop)
    (e : exn) :
  (m s).1 = Raise e → lbind m k s = (Raise e, (m s).2).
Proof. unfold lbind. destruct (m s) as [r s1]; simpl. by intros ->. Qed.


End RunProperties.

End RestProperties.

End Properties.

(** * The properties at concrete stores *)

Lemma SetPomp_laws : LibpompLaws SetPomp.
Proof.
  split.
  - intros fd events [fds timers]. cbn. unfold SetPomp_add, SetPomp_has_fd.
    cbn [fst snd].
    destruct (_ || _); [done |]. case_bool_decide as Hin; [done |].
    intros _. cbn [fst snd]. split.
    + rewrite bool_decide_eq_true_2; [done |].
      apply elem_of_union_l. by apply elem_of_singleton.
    + intros fd' Hne. apply (f_equal (λ b : bool, if b then 1 else 0)).
      apply bool_decide_ext. rewrite elem_of_union, elem_of_singleton.
      tauto.
  - intros fd [fds timers]. cbn. unfold SetPomp_remove, SetPomp_has_fd.
    cbn [fst snd].
    case_bool_decide as Hin; [| done]. intros _. cbn [fst snd]. split.
    + rewrite bool_decide_eq_false_2; [done |].
      rewrite elem_of_difference, elem_of_singleton. tauto.
    + intros fd' Hne. apply (f_equal (λ b : bool, if b then 1 else 0)).
      apply bool_decide_ext. rewrite elem_of_difference, elem_of_singleton.
      tauto.
Qed.

Lemma init_world_registry_inv : registry_inv init_world.
Proof.
  split.
  - intros fd cb H. change (pomp_fd_callbacks init_world) with (∅ : gmap Z value) in H.
    by rewrite lookup_empty in H.
  - intros fd. change (pomp_fd_callbacks init_world) with (∅ : gmap Z value).
    change (pomp_loop_has_fd fd (pomp init_world)) with 0.
    rewrite lookup_empty. split; [by intros [? ?] | done].
Qed.

Lemma standing_still_frame (w : @World SetPomp) : frame w ((λ w0, w0) w).
Proof. apply frame_refl. Qed.





(** C7, witness: fd 7 is registered; its first removal answers True
    (libpomp detaches it) and the second one changes nothing. *)
Lemma remove_fd_idempotent_witness :
  pomp_fd_callbacks world_fd7 !! 7 = Some (VCFunc (VObj 1))
  ∧ (_remove_fd_from_loop 7 world_fd7).1 = Ok (VBool true)
  ∧ _remove_fd_from_loop 7 (_remove_fd_from_loop 7 world_fd7).2
    = (Ok (VBool true), (_remove_fd_from_loop 7 world_fd7).2).
Proof.
  assert (Hcb : pomp_fd_callbacks world_fd7 !! 7 = Some (VCFunc (VObj 1)))
    by (vm_compute; reflexivity).
  destruct (remove_fd_idempotent world_fd7 7) as (H1 & _ & H3).
  split; [exact Hcb |]. split; [| exact H1].
  destruct (H3 (VCFunc (VObj 1)) Hcb) as (Hr & _); [discriminate |].
  rewrite Hr. vm_compute. reflexivity.
Defined.

(** C10, witness: timer 3 is registered and libpomp fails to destroy
    it; [destroy_timer] answers False and both entries stay. *)
Lemma destroy_timer_keeps_entries_on_failure_witness :
  pomp_timers world_timer3 !! 3%nat = Some (VObj 3)
  ∧ (pomp_timer_destroy 3 (pomp world_timer3)).1 ≠ 0
  ∧ (destroy_timer 3 world_timer3).1 = Ok (VBool false)
  ∧ pomp_timers (destroy_timer 3 world_timer3).2 = pomp_timers world_timer3
  ∧ pomp_timer_callbacks (destroy_timer 3 world_timer3).2
    = pomp_timer_callbacks world_timer3.
Proof.
  assert (Ht : pomp_timers world_timer3 !! 3%nat = Some (VObj 3))
    by (vm_compute; reflexivity).
  assert (Hst : (pomp_timer_destroy 3 (pomp world_timer3)).1 ≠ 0)
    by (vm_compute; discriminate).
  split; [exact Ht |]. split; [exact Hst |].
  destruct (destroy_timer_keeps_entries_on_failure world_timer3 3)
    as (_ & Hfail & _).
  exact (Hfail (VObj 3) Ht Hst).
Defined.

(** C6, witness: the loop runs; another thread stops it. *)
Lemma stop_joins_unless_loop_thread_witness :
  running world_running = true
  ∧ ForeignThread 1 ≠ LoopThread
  ∧ (stop (ForeignThread 1) (λ w, w) world_running).1 = Ok (VBool true)
  ∧ trace (stop (ForeignThread 1) (λ w, w) world_running).2
    = [EvNative (Pomp_evt_signal 0); EvJoin]
  ∧ running (stop (ForeignThread 1) (λ w, w) world_running).2 = false.
Proof.
  assert (Hr : running world_running = true) by reflexivity.
  assert (Hne : ForeignThread 1 ≠ LoopThread) by discriminate.
  split; [exact Hr |]. split; [exact Hne |].
  destruct (stop_joins_unless_loop_thread (ForeignThread 1) (λ w, w)
              world_running) as (_ & Hstop).
  destruct (Hstop Hr) as (Hres & _ & Hw).
  split; [exact Hres |]. rewrite (Hw Hne). split; reflexivity.
Defined.

(** C8, witness: [run_later(lambda: 7)] on the fresh loop, then one
    iteration of the loop. *)
Lemma run_later_defers_witness :
  (run_later loop_invoke (fn_const (VInt 7)) [] [] init_world).1 = Ok 0%nat
  ∧ (run_iteration loop_invoke 4
       (run_later loop_invoke (fn_const (VInt 7)) [] [] init_world).2).1
    = Ok tt
  ∧ deferred_pomp_task
      (run_iteration loop_invoke 4
         (run_later loop_invoke (fn_const (VInt 7)) [] [] init_world).2).2
    = [].
Proof.
  destruct (run_later_defers loop_invoke (fn_const (VInt 7)) [] [] init_world)
    as (Hres & _ & _ & _ & _ & _ & _ & _ & Hloop).
  assert (Hok : (run_iteration loop_invoke 4
                   (run_later loop_invoke (fn_const (VInt 7)) [] []
                      init_world).2).1 = Ok tt)
    by (vm_compute; reflexivity).
  split; [exact Hres |]. split; [exact Hok |].
  destruct (Hloop 8%nat 4%nat (λ w, w) standing_still_frame) as (_ & _ & Hend).
  destruct (Hend Hok) as [Hemp _]. exact Hemp.
Defined.

(** C9, witness: nobody registered fd 99.  Asked from another thread
    while the loop drains its immediate queue, [has_fd(99)] is False;
    asked while the loop serves nothing, the wait times out, the answer
    is False and the Future is cancelled. *)
Lemma has_fd_bounded_wait_witness :
  (has_fd (ForeignThread 1)
     (λ w0, (_run_task_list (invoke_callback 8 LoopThread (λ w1, w1)) 1
               Async w0).2)
     (invoke_callback 8 (ForeignThread 1)
        (λ w0, (_run_task_list (invoke_callback 8 LoopThread (λ w1, w1)) 1
                  Async w0).2))
     99 init_world).1 = Ok (VBool false)
  ∧ (has_fd (ForeignThread 1) (λ w, w) foreign_invoke 99 init_world).1
    = Ok (VBool false)
  ∧ is_cancelled
      (has_fd (ForeignThread 1) (λ w, w) foreign_invoke 99 init_world).2 0.
Proof.
  destruct (has_fd_bounded_wait 8 99 init_world) as (_ & _ & Hserved & Htimeout).
  split.
  - destruct (Hserved 1%nat 0%nat 8%nat eq_refl) as [_ Hfalse].
    apply Hfalse. vm_compute. discriminate.
  - destruct (Htimeout 1%nat (λ w, w) standing_still_frame) as (Hres & Hc & _).
    { vm_compute. reflexivity. }
    split; [exact Hres | exact Hc].
Defined.

(** C2, witness: on the fresh loop the registry agrees with the
    Reactor; it still does after fd 7 is added. *)
Lemma fd_registry_follows_reactor_witness :
  registry_inv init_world
  ∧ (_add_fd_to_loop 7 (VObj 1) 1 VNone init_world).1 = Ok VNone
  ∧ registry_inv (_add_fd_to_loop 7 (VObj 1) 1 VNone init_world).2.
Proof.
  assert (Hok : (_add_fd_to_loop 7 (VObj 1) 1 VNone init_world).1 = Ok VNone)
    by (vm_compute; reflexivity).
  split; [exact init_world_registry_inv |]. split; [exact Hok |].
  destruct (@fd_registry_follows_reactor SetPomp SetPomp_laws 7 1 (VObj 1)
              VNone init_world) as (Hadd & _).
  destruct (Hadd init_world_registry_inv) as [Hinv _];
    [discriminate | reflexivity | exact Hok | exact Hinv].
Defined.

(** C2, counterexample.  [_add_fd_to_loop(-1, cb, IN)] on the fresh
    loop: libpomp refuses the fd, the method raises RuntimeError, and fd
    -1 is left in the callback table although the Reactor has not
    attached it.  And when [_remove_fd_from_loop(7)] reaches the call of
    the Reactor, the entry of fd 7 is deleted already while the Reactor
    still has the fd: the deletion comes first, the detachment second. *)
Lemma failed_add_breaks_registry :
  registry_inv init_world
  ∧ (_add_fd_to_loop (-1) (VObj 1) 1 VNone init_world).1
    = Raise (RuntimeError "Cannot add fd '{}' to pomp loop: {} ({})")
  ∧ is_Some (pomp_fd_callbacks world_bad_fd !! (-1))
  ∧ pomp_loop_has_fd (-1) (pomp world_bad_fd) ≠ 1
  ∧ ¬ registry_inv world_bad_fd
  ∧ pomp_fd_callbacks (forgotten 7 world_fd7) !! 7 = None
  ∧ pomp_loop_has_fd 7 (pomp (forgotten 7 world_fd7)) = 1
  ∧ _remove_fd_from_loop 7 world_fd7
    = bind (native_status (Pomp_loop_remove 7) (pomp_loop_remove 7))
        (λ res, if negb (Z.eqb res 0) then
                  bind (log ERROR "Cannot remove fd '{}' from pomp loop"
                          [VInt 7])
                    (λ _, ret (VBool false))
                else ret (VBool true))
        (forgotten 7 world_fd7).
Proof.
  assert (Hkey : is_Some (pomp_fd_callbacks world_bad_fd !! (-1)))
    by (vm_compute; eauto).
  assert (Hno : pomp_loop_has_fd (-1) (pomp world_bad_fd) ≠ 1)
    by (vm_compute; discriminate).
  split; [exact init_world_registry_inv |].
  split; [vm_compute; reflexivity |].
  split; [exact Hkey |]. split; [exact Hno |].
  split; [intros [_ Hinv]; by apply Hno, Hinv |].
  split; [vm_compute; reflexivity |]. split; [vm_compute; reflexivity |].
  reflexivity.
Qed.

(** C3, at the failing input.  [c = a.then(fn)] where [fn] returns the
    pending future 1, and [a] is resolved on the loop thread, so that
    [fn] is called in place: [c] is FINISHED with the Future object
    itself as its result, while future 1 is still pending; resolving
    future 1 with 9 later does not reach [c]. *)
Theorem then_inline_keeps_the_future_object :
  (then_ loop_invoke 0 (fn_const (VFuture 1)) false world_two_futures).1
  = Ok 2%nat
  ∧ fut_state (then_inline (fn_const (VFuture 1))) 1 = PENDING
  ∧ fulfilled (then_inline (fn_const (VFuture 1))) 2 (VFuture 1)
  ∧ fulfilled
      (set_result loop_invoke 1 (VInt 9)
         (then_inline (fn_const (VFuture 1)))).2 1 (VInt 9)
  ∧ fulfilled
      (set_result loop_invoke 1 (VInt 9)
         (then_inline (fn_const (VFuture 1)))).2 2 (VFuture 1).
Proof. repeat split; vm_compute; reflexivity. Qed.

(** C4, at the failing input.  [c = a.then(fn)] where [fn] raises the
    Exception [UserError 3], and [a] is resolved with 5 on the loop
    thread, so that [fn] is called in place: the handler of the
    callback raises AttributeError before it reaches [set_exception],
    concurrent.futures logs that, and [c] is left pending instead of
    FAILED with [UserError 3].  A [fn] that raises KeyboardInterrupt,
    which is no Exception, does cancel [c]. *)
Theorem then_inline_exception_leaves_result_pending :
  (then_ loop_invoke 0 (fn_raise (UserError 3)) false world_two_futures).1
  = Ok 2%nat
  ∧ fulfilled (then_inline (fn_raise (UserError 3))) 0 (VInt 5)
  ∧ pending (then_inline (fn_raise (UserError 3))) 2
  ∧ ¬ failed (then_inline (fn_raise (UserError 3))) 2 (UserError 3)
  ∧ last (trace (then_inline (fn_raise (UserError 3))))
    = Some (EvFuturesLog 0)
  ∧ is_cancelled (then_inline (fn_raise KeyboardInterrupt)) 2.
Proof.
  split; [vm_compute; reflexivity |].
  split; [repeat split; vm_compute; reflexivity |].
  split; [split; vm_compute; reflexivity |].
  split; [intros [Hs _]; vm_compute in Hs; discriminate |].
  split; vm_compute; reflexivity.
Qed.

(** * The further properties at concrete stores *)

Lemma standing_still_grows (w : @World SetPomp) :
  async_grows w (standing_still w).
Proof. apply async_grows_refl. Qed.

(** X1, witness: 0 is not in the empty list, so that unregistering it
    raises ValueError and changes nothing, and registering then
    unregistering it gives back the store; in the list [1, False, 0] it
    is [False], equal to 0, that goes. *)
Lemma unregister_future_removes_first_witness :
  _unregister_future (VInt 0) false init_world = (Raise ValueError, init_world)
  ∧ _unregister_future (VInt 0) false (_register_future (VInt 0) init_world).2
    = (Ok tt, init_world)
  ∧ _unregister_future (VInt 0) false world_live
    = (Ok tt, set_futures [VInt 1; VInt 0] world_live).
Proof.
  destruct (unregister_future_removes_first (VInt 0) false init_world)
    as (Habsent & _ & Hround & _).
  destruct (unregister_future_removes_first (VInt 0) false world_live)
    as (_ & Hfirst & _).
  assert (Hnone : absent (VInt 0) (futures init_world)) by constructor.
  assert (Hone : absent (VInt 0) [VInt 1]) by (repeat constructor).
  split; [exact (Habsent Hnone) |]. split; [exact (Hround Hnone) |].
  exact (Hfirst [VInt 1] (VBool false) [VInt 0] eq_refl Hone eq_refl).
Defined.

(** X2, witness: [run_async(lambda: 7)] on the loop thread returns a
    Future that is FULFILLED with 7, and [run_async] of a function that
    raises returns one that is FAILED. *)
Lemma run_async_on_loop_thread_witness :
  (run_async LoopThread loop_invoke (fn_const (VInt 7)) [] [] init_world).1
  = Ok 0%nat
  ∧ fulfilled
      (run_async LoopThread loop_invoke (fn_const (VInt 7)) [] []
         init_world).2 0 (VInt 7)
  ∧ futures
      (run_async LoopThread loop_invoke (fn_const (VInt 7)) [] []
         init_world).2 = []
  ∧ failed
      (run_async LoopThread loop_invoke (fn_raise (UserError 1)) [] []
         init_world).2 0 (UserError 1).
Proof.
  assert (Hnone : absent (id_of (fresh (dom (heap init_world))))
                    (futures init_world)) by constructor.
  destruct (run_async_on_loop_thread 7 standing_still (fn_const (VInt 7)) [] []
              init_world Hnone) as (Hval & _ & _).
  destruct (run_async_on_loop_thread 7 standing_still (fn_raise (UserError 1))
              [] [] init_world Hnone) as (_ & Hexc & _).
  destruct (Hval (VInt 7)) as (H1 & H2 & H3 & _);
    [vm_compute; reflexivity | reflexivity |].
  destruct (Hexc (UserError 1)) as (_ & H4 & _);
    [vm_compute; reflexivity | reflexivity |].
  split; [exact H1 |]. split; [exact H2 |]. split; [exact H3 | exact H4].
Defined.





(** X7, witness: on the loop thread, [add_fd_to_loop(7, cb, IN)] hands
    back a Future FULFILLED with None, and [add_fd_to_loop(-1, cb, IN)],
    which libpomp refuses, one that is FAILED. *)
Lemma fd_methods_on_loop_thread_witness :
  fulfilled
    (add_fd_to_loop LoopThread loop_invoke 7 (VObj 1) 1 VNone init_world).2
    0 VNone
  ∧ failed
      (add_fd_to_loop LoopThread loop_invoke (-1) (VObj 1) 1 VNone
         init_world).2
      0 (RuntimeError "Cannot add fd '{}' to pomp loop: {} ({})").
Proof.
  destruct (fd_methods_on_loop_thread 7 standing_still 7 1 (VObj 1) VNone
              init_world) as (_ & _ & Hok & _).
  destruct (fd_methods_on_loop_thread 7 standing_still (-1) 1 (VObj 1) VNone
              init_world) as (_ & _ & _ & Hfail & _).
  split.
  - apply Hok; [discriminate | vm_compute; reflexivity].
  - apply Hfail; [discriminate | vm_compute; discriminate].
Defined.


(** X9, witness: [c = a.then(lambda n: n + 1, deferred=True)], then
    [a.set_result(5)] and a drain of the deferred queue: [c] is
    FULFILLED with 6. *)
Lemma then_deferred_delivers_witness :
  fulfilled
    (_run_task_list loop_invoke 1 Deferred
       (set_result loop_invoke 0 (VInt 5)
          (then_ loop_invoke 0 (Fn fn_succ_body) true world_two_futures).2).2).2
    2 (VInt 6).
Proof.
  destruct (then_deferred_delivers 7 LoopThread standing_still
              standing_still_frame fn_succ_body 0 (VInt 5) 0
              world_two_futures) as (_ & _ & _ & _ & _ & Hval & _).
  - split; vm_compute; reflexivity.
  - vm_compute. by eexists.
  - vm_compute. constructor.
  - vm_compute. reflexivity.
  - apply (Hval (VInt 6)); reflexivity.
Defined.

(** X10, witness: [c = a.then(lambda: 7)], then [a] fails: [c] stays
    pending. *)
Lemma then_loses_the_failure_of_its_source_witness :
  failed
    (set_exception loop_invoke 0 (UserError 1)
       (then_ loop_invoke 0 (fn_const (VInt 7)) false world_two_futures).2).2
    0 (UserError 1)
  ∧ pending
      (set_exception loop_invoke 0 (UserError 1)
         (then_ loop_invoke 0 (fn_const (VInt 7)) false world_two_futures).2).2
      2.
Proof.
  destruct (then_loses_the_failure_of_its_source 7 LoopThread standing_still
              0 (fn_const (VInt 7)) false (UserError 1)
              world_two_futures) as (_ & Hlater).
  - vm_compute. by eexists.
  - reflexivity.
  - destruct Hlater as ((_ & Hf & Hp & _) & _).
    + split; vm_compute; reflexivity.
    + vm_compute. constructor.
    + split; [exact Hf | exact Hp].
Defined.

(** X11, witness: after [has_fd(99)] timed out, the task is still
    queued with its Future cancelled; the drain raises
    InvalidStateError, and so does the iteration of the loop. *)
Lemma done_task_stops_the_drain_witness :
  (_run_task_list loop_invoke 1 Async world_has_fd_timed_out).1
  = Raise InvalidStateError
  ∧ (run_iteration loop_invoke 1 world_has_fd_timed_out).1
    = Raise InvalidStateError.
Proof.
  destruct (done_task_stops_the_drain 8 standing_still 0 Async 0 Method_has_fd
              [VInt 99] [] [] world_has_fd_timed_out)
    as (Hdrain & _ & _ & _ & Hit).
  - vm_compute. reflexivity.
  - vm_compute. reflexivity.
  - vm_compute. exact I.
  - intros r. vm_compute. discriminate.
  - split; [exact Hdrain |]. by destruct (Hit eq_refl).
Defined.

(** * The rest of the loop at concrete stores *)

Lemma fds_of_ok {L : Libpomp} (w : @World L) :
  lists_keys (fds_of w) (pomp_fd_callbacks w).
Proof. intros k. unfold fds_of. by rewrite elem_of_elements, elem_of_dom. Qed.

Lemma timers_of_ok {L : Libpomp} (w : @World L) :
  lists_keys (timers_of w) (pomp_timers w).
Proof.
  intros k. unfold timers_of. by rewrite elem_of_elements, elem_of_dom.
Qed.

Lemma stopping_undisturbed {L : Libpomp} (w : @World L) :
  undisturbed w (stopping w).
Proof. split; [intros H; exact H | done]. Qed.

Lemma loop_invoke_keeps (cb : done_callback) (self : nat) :
  keeps (loop_invoke cb self).
Proof. apply keeps_invoke_callback. intros w. apply undisturbed_refl. Qed.

Lemma yes_invoke_keeps (cb : done_callback) (self : nat) :
  keeps (yes_invoke cb self).
Proof. apply keeps_invoke_callback. intros w. apply undisturbed_refl. Qed.

Lemma timers_inv_none {L : Libpomp} (w : @World L) :
  pomp_timers w = ∅ → pomp_timer_callbacks w = ∅ → timers_inv w.
Proof. intros H1 H2 t. by rewrite H1, H2, !lookup_empty. Qed.

Lemma timers_inv_one {L : Libpomp} (w : @World L) (t : nat) (a b : value) :
  pomp_timers w = {[t := a]} → pomp_timer_callbacks w = {[t := b]} →
  timers_inv w.
Proof.
  intros H1 H2 k. rewrite H1, H2. destruct (decide (k = t)) as [-> | Hne].
  - rewrite !lookup_singleton_eq. split; eauto.
  - by rewrite !lookup_singleton_ne.
Qed.

(** X12, witness: the loop that [__init__] leaves has no entry for the
    wake-up event; attaching the event succeeds, and removing it again
    gives back the four dictionaries. *)
Lemma event_registry_add_remove_witness :
  no_event_entry loop_init 1
  ∧ (_add_event_to_loop (Some 0%nat) (VObj 5) VNone loop_init).1 = Ok tt
  ∧ same_event_tables loop_init
      (_remove_event_from_loop (Some 0%nat)
         (_add_event_to_loop (Some 0%nat) (VObj 5) VNone loop_init).2).2.
Proof.
  assert (Hno : no_event_entry loop_init 1) by (repeat split).
  destruct (event_registry_add_remove (Some 0%nat) (VObj 5) VNone loop_init)
    as (_ & _ & _ & _ & Hadd & _ & _ & _ & _ & _ & Hround).
  split; [exact Hno |]. split; [exact Hadd | exact (Hround Hno)].
Defined.

(** X13, witness: the started loop with the wake-up event and fd 7;
    afterwards no event and no fd is registered. *)
Lemma destroy_fds_empties_the_registries_witness :
  pomp_events loop_busy = [(1%nat, Some 0%nat)]
  ∧ (_destroy_pomp_loop_fds fds_of loop_busy).1 = Ok tt
  ∧ pomp_events (_destroy_pomp_loop_fds fds_of loop_busy).2 = []
  ∧ pomp_fd_callbacks (world (_destroy_pomp_loop_fds fds_of loop_busy).2) = ∅.
Proof.
  assert (He : pomp_events loop_busy = [(1%nat, Some 0%nat)])
    by (vm_compute; reflexivity).
  assert (Hk : events_keyed loop_busy).
  { unfold events_keyed. rewrite He. by repeat constructor. }
  destruct (destroy_fds_empties_the_registries fds_of loop_busy Hk
              (λ w, fds_of_ok w)) as (H1 & H2 & _ & H4 & _).
  split; [exact He |]. split; [exact H1 |]. split; [exact H2 | exact H4].
Defined.




(** X17, witness: unregistering a function that was never registered
    raises ValueError; registered and unregistered, it leaves the loop
    as it was; of the two functions of the started loop, the first one
    goes. *)
Lemma cleanup_registration_witness :
  unregister_cleanup fn_quiet false loop_init = (Raise ValueError, loop_init)
  ∧ unregister_cleanup fn_quiet false (register_cleanup fn_quiet loop_init).2
    = (Ok tt, loop_init)
  ∧ cleanup_functions loop_started = [fn_quiet; fn_failing]
  ∧ unregister_cleanup fn_quiet false loop_started
    = (Ok tt, set_cleanup_functions [fn_failing] loop_started).
Proof.
  destruct (cleanup_registration fn_quiet false loop_init)
    as (_ & _ & Habs & _).
  destruct (cleanup_registration fn_quiet false loop_started)
    as (_ & _ & _ & Hfirst).
  destruct Habs as (H1 & H2); [constructor |].
  split; [exact H1 |]. split; [exact H2 |]. split; [reflexivity |].
  exact (Hfirst [] fn_quiet [fn_failing] eq_refl (Forall_nil_2 _) eq_refl).
Defined.


